(** * E2E scenario runner: compiler, click transaction, step dispatch, run loop

    A shallow embedding of the scenario compiler
    ([app/runner/scenario_compiler.py]), of the click transaction
    ([app/runner/action_transaction.py]), of the step dispatcher
    ([app/runner/playwright_steps.py]) and of the run loop
    ([tests/e2e/test_scenario.py]), with the properties the specification
    states about them.

    Scenario documents are JSON: a step is a Python [dict] from strings to
    JSON values.  Strings are byte strings holding the UTF-8 encoding of the
    Python text; JSON floats are left out of the value type. *)

From Stdlib Require Import String Ascii List ZArith Bool Lia DecimalString.
Import ListNotations.
Open Scope string_scope.
Open Scope Z_scope.

(** ** Python values *)

Inductive value : Type :=
| VNone
| VBool (b : bool)
| VInt (z : Z)
| VStr (s : string)
| VList (l : list value)
| VDict (d : list (string * value)).

(** A [dict] keeps its keys in insertion order, each key once. *)
Definition dict : Type := list (string * value).

(** Exceptions, by Python class.  [TimeoutError] is Playwright's; [PwError]
    stands for any other exception raised by the browser driver or the
    operating system.  The messages of the exceptions the interpreter
    raises itself ([AttributeError], [TypeError]) are not modelled. *)
Inductive exn : Type :=
| ValueError (msg : string)
| AttributeError
| TypeError
| KeyError (key : string)
| RuntimeError (msg : string)
| AssertionError (msg : string)
| TimeoutError (msg : string)
| PwError (msg : string).

Inductive result (A : Type) : Type :=
| Ok (a : A)
| Raise (e : exn).
Arguments Ok {A} a.
Arguments Raise {A} e.

Definition rbind {A B} (r : result A) (f : A -> result B) : result B :=
  match r with
  | Ok a => f a
  | Raise e => Raise e
  end.

Declare Scope result_scope.
Delimit Scope result_scope with result.
Notation "x <- r ;; k" := (rbind r (fun x => k))
  (at level 61, r at next level, right associativity) : result_scope.

Definition is_ok {A} (r : result A) : bool :=
  match r with Ok _ => true | Raise _ => false end.

(** ** Strings *)

Definition dquote : string := String (ascii_of_nat 34) "".
Definition squote : string := String (ascii_of_nat 39) "".
Definition backslash : string := String (ascii_of_nat 92) "".

(** [s.startswith(p)] *)
Definition startswith (s p : string) : bool := prefix p s.

(** [s.endswith(p)] *)
Fixpoint endswith (s p : string) : bool :=
  if String.eqb s p then true
  else match s with
       | EmptyString => false
       | String _ s' => endswith s' p
       end.

(** [needle in hay] on strings *)
Fixpoint str_in (needle hay : string) : bool :=
  if prefix needle hay then true
  else match hay with
       | EmptyString => false
       | String _ hay' => str_in needle hay'
       end.

(** [s.replace(old, new)] for a non-empty [old]: left to right, without
    overlap.  [skip] counts the bytes of a match still to be dropped. *)
Fixpoint replace_from (old new : string) (skip : nat) (s : string) : string :=
  match s with
  | EmptyString => EmptyString
  | String c s' =>
      match skip with
      | S k => replace_from old new k s'
      | O =>
          if prefix old s
          then new ++ replace_from old new (Nat.pred (String.length old)) s'
          else String c (replace_from old new O s')
      end
  end.

Definition replace (s old new : string) : string := replace_from old new O s.

(** Whitespace as [str.split()] sees it.  [ws_len s] is the number of bytes
    of the whitespace character [s] starts with, [0] when it starts with
    none: the ASCII ones, then the UTF-8 encodings of U+0085, U+00A0,
    U+1680, U+2000..U+200A, U+2028, U+2029, U+202F, U+205F and U+3000. *)
Definition ascii_ws (c : ascii) : bool :=
  let n := nat_of_ascii c in
  ((9 <=? n) && (n <=? 13) || (28 <=? n) && (n <=? 32))%nat.

Definition byte_at (s : string) (i : nat) : nat :=
  match String.get i s with
  | Some c => nat_of_ascii c
  | None => 256%nat
  end.

Definition ws_len (s : string) : nat :=
  let b0 := byte_at s 0 in
  let b1 := byte_at s 1 in
  let b2 := byte_at s 2 in
  match s with
  | EmptyString => 0%nat
  | String c _ =>
      if ascii_ws c then 1%nat
      else if ((b0 =? 194) && ((b1 =? 133) || (b1 =? 160)))%nat then 2%nat
      else if ((b0 =? 225) && (b1 =? 154) && (b2 =? 128))%nat then 3%nat
      else if ((b0 =? 226) && (b1 =? 128)
               && (((128 <=? b2) && (b2 <=? 138)) || (b2 =? 168) || (b2 =? 169)
                   || (b2 =? 175)))%nat then 3%nat
      else if ((b0 =? 226) && (b1 =? 129) && (b2 =? 159))%nat then 3%nat
      else if ((b0 =? 227) && (b1 =? 128) && (b2 =? 128))%nat then 3%nat
      else 0%nat
  end.

(** [len(s.split())]: the number of maximal runs of non-whitespace.
    [in_word] tells whether the previous character belonged to a word,
    [skip] counts the remaining bytes of a whitespace character. *)
Fixpoint count_words (in_word : bool) (skip : nat) (s : string) : nat :=
  match s with
  | EmptyString => 0%nat
  | String _ s' =>
      match skip with
      | S k => count_words false k s'
      | O =>
          match ws_len s with
          | O => (if in_word then 0 else 1) + count_words true O s'
          | S k => count_words false k s'
          end
      end
  end%nat.

Definition split_len (s : string) : nat := count_words false O s.

(** Decimal notation of an integer, as [str(n)] prints it. *)
Definition str_of_Z (z : Z) : string := NilZero.string_of_int (Z.to_int z).

(** [s.strip()] *)
Fixpoint lstrip_from (skip : nat) (s : string) : string :=
  match s with
  | EmptyString => EmptyString
  | String _ s' =>
      match skip with
      | S k => lstrip_from k s'
      | O =>
          match ws_len s with
          | O => s
          | S k => lstrip_from k s'
          end
      end
  end.

Fixpoint rstrip (s : string) : string :=
  match s with
  | EmptyString => EmptyString
  | String c s' => if (split_len s =? 0)%nat then EmptyString else String c (rstrip s')
  end.

Definition strip (s : string) : string := rstrip (lstrip_from O s).

(** [int(s)] for a string: blanks around an optional sign and ASCII
    digits, single underscores allowed between digits; [None] stands for
    the [ValueError].  Digits outside ASCII are not recognised. *)
Definition digit_of (c : ascii) : option Z :=
  let n := nat_of_ascii c in
  if ((48 <=? n) && (n <=? 57))%nat then Some (Z.of_nat (n - 48)) else None.

Fixpoint parse_digits (acc : Z) (after_digit : bool) (s : string) : option Z :=
  match s with
  | EmptyString => if after_digit then Some acc else None
  | String c s' =>
      match digit_of c with
      | Some d => parse_digits (10 * acc + d) true s'
      | None =>
          if Ascii.eqb c "_"%char && after_digit
          then match s' with
               | EmptyString => None
               | String c' _ =>
                   match digit_of c' with
                   | Some _ => parse_digits acc false s'
                   | None => None
                   end
               end
          else None
      end
  end.

(** [f"{n:03d}"] *)
Definition pad3 (n : Z) : string :=
  let sign := if n <? 0 then "-" else "" in
  let digits := str_of_Z (Z.abs n) in
  sign ++ string_of_list_ascii
            (repeat "0"%char (3 - String.length sign - String.length digits))
       ++ digits.

Definition parse_int (s : string) : option Z :=
  match strip s with
  | String "-"%char s' => option_map Z.opp (parse_digits 0 false s')
  | String "+"%char s' => parse_digits 0 false s'
  | s' => parse_digits 0 false s'
  end.

(** [repr(s)] of a string: single quotes unless the string holds a single
    quote and no double quote; backslash, the chosen quote, tab, newline,
    carriage return and the other ASCII control characters are escaped.
    Bytes above 127 stand for printable characters and are kept. *)
Definition hex_digit (n : nat) : string :=
  String (ascii_of_nat (if (n <? 10)%nat then 48 + n else 87 + n)%nat) "".

Definition repr_char (q : ascii) (c : ascii) : string :=
  let n := nat_of_ascii c in
  if (n =? 92)%nat then backslash ++ backslash
  else if Ascii.eqb c q then backslash ++ String q ""
  else if (n =? 9)%nat then backslash ++ "t"
  else if (n =? 10)%nat then backslash ++ "n"
  else if (n =? 13)%nat then backslash ++ "r"
  else if ((n <? 32) || (n =? 127))%nat
       then backslash ++ "x" ++ hex_digit (n / 16) ++ hex_digit (n mod 16)
  else String c "".

Fixpoint repr_chars (q : ascii) (s : string) : string :=
  match s with
  | EmptyString => EmptyString
  | String c s' => repr_char q c ++ repr_chars q s'
  end.

Definition repr_str (s : string) : string :=
  let q := if str_in squote s && negb (str_in dquote s)
           then ascii_of_nat 34 else ascii_of_nat 39 in
  String q "" ++ repr_chars q s ++ String q "".

Definition join (sep : string) (l : list string) : string := String.concat sep l.

(** [repr(v)] *)
Fixpoint py_repr (v : value) : string :=
  match v with
  | VNone => "None"
  | VBool true => "True"
  | VBool false => "False"
  | VInt z => str_of_Z z
  | VStr s => repr_str s
  | VList l => "[" ++ join ", " (map py_repr l) ++ "]"
  | VDict d =>
      "{" ++ join ", " (map (fun kv => repr_str (fst kv) ++ ": " ++ py_repr (snd kv)) d)
          ++ "}"
  end.

(** [str(v)], what an f-string substitutes for [{v}] *)
Definition py_str (v : value) : string :=
  match v with
  | VStr s => s
  | _ => py_repr v
  end.

(** Truth value of [v] in a condition *)
Definition truthy (v : value) : bool :=
  match v with
  | VNone => false
  | VBool b => b
  | VInt z => negb (z =? 0)
  | VStr s => negb (String.eqb s "")
  | VList l => match l with [] => false | _ => true end
  | VDict d => match d with [] => false | _ => true end
  end.

(** [v == "s"] for a string literal *)
Definition eq_str (v : value) (s : string) : bool :=
  match v with
  | VStr s' => String.eqb s' s
  | _ => false
  end.

(** ** Dictionaries *)

(** [key in d] and [d.get(key)] *)
Fixpoint lookup (key : string) (d : dict) : option value :=
  match d with
  | [] => None
  | (k, v) :: d' => if String.eqb k key then Some v else lookup key d'
  end.

Definition has_key (key : string) (d : dict) : bool :=
  match lookup key d with Some _ => true | None => false end.

(** [d.get(key, default)]; [d.get(key)] has default [None] *)
Definition get_default (key : string) (default : value) (d : dict) : value :=
  match lookup key d with Some v => v | None => default end.

Definition get (key : string) (d : dict) : value := get_default key VNone d.

(** [d[key] = v]: in place when the key is there, at the end otherwise *)
Fixpoint dict_set (key : string) (v : value) (d : dict) : dict :=
  match d with
  | [] => [(key, v)]
  | (k, v') :: d' =>
      if String.eqb k key then (k, v) :: d' else (k, v') :: dict_set key v d'
  end.

(** [v.get(key)] on a value of any type: only a [dict] has the method *)
Definition method_get (v : value) (key : string) : result value :=
  match v with
  | VDict d => Ok (get key d)
  | _ => Raise AttributeError
  end.

(** [v.get(key, default)] on a value of any type *)
Definition method_get_default (v : value) (key : string) (default : value)
  : result value :=
  match v with
  | VDict d => Ok (get_default key default d)
  | _ => Raise AttributeError
  end.

Definition as_dict (v : value) : result dict :=
  match v with
  | VDict d => Ok d
  | _ => Raise AttributeError
  end.

(** A string method called on [v]: only a [str] has it *)
Definition as_str (v : value) : result string :=
  match v with
  | VStr s => Ok s
  | _ => Raise AttributeError
  end.

(** [a or b], with [b] evaluated only when [a] is falsy *)
Definition py_or (a : value) (b : result value) : result value :=
  if truthy a then Ok a else b.

(** The values a [for] loop, [enumerate] or [len] sees in [v]; a string
    gives its characters one by one, which are the bytes of a [string]
    here, so the two agree on ASCII text. *)
Definition chars_of (s : string) : list value :=
  map (fun c => VStr (String c "")) (list_ascii_of_string s).

Definition iter_values (v : value) : result (list value) :=
  match v with
  | VList l => Ok l
  | VStr s => Ok (chars_of s)
  | VDict d => Ok (map (fun kv => VStr (fst kv)) d)
  | _ => Raise TypeError
  end.

(** ** The scenario compiler ([scenario_compiler.py]) *)

Module Compiler.
Local Open Scope result_scope.

(** The loop that removes duplicates and keeps the first of each:
    [seen] holds the candidates met so far. *)
Fixpoint unique_from (seen : list string) (candidates : list string) : list string :=
  match candidates with
  | [] => []
  | c :: rest =>
      if existsb (String.eqb c) seen then unique_from seen rest
      else c :: unique_from (c :: seen) rest
  end.

Definition unique_candidates (candidates : list string) : list string :=
  unique_from [] candidates.

(** The candidates appended for a truthy [selector] (lines 48-66). *)
Definition selector_part (selector : string) : list string :=
  if startswith selector "#" && (split_len selector =? 1)%nat then [selector]
  else if startswith selector "." && (split_len selector =? 1)%nat then [selector]
  else if startswith selector "[data-" then [selector]
  else
    app (if str_in ":nth-of-type" selector then
           let simplified :=
             replace (replace selector ":nth-of-type(1)" "") ":nth-of-type(2)" "" in
           if negb (String.eqb simplified selector) then [simplified] else []
         else [])
        [selector].

(** The candidates appended for the role, label, aria_label and text hints
    (lines 36-45). *)
Definition hint_part (step : dict) : list string :=
  let text := get "text" step in
  let role := get "role" step in
  let label := get "label" step in
  let aria_label := get "aria_label" step in
  List.concat
    [ if truthy role then ["role=" ++ py_str role] else [];
      if truthy label then ["label=" ++ py_str label] else [];
      if truthy aria_label
      then ["[aria-label=" ++ dquote ++ py_str aria_label ++ dquote ++ "]"] else [];
      if truthy text
      then ["text=" ++ dquote ++ py_str text ++ dquote; "text=/^" ++ py_str text ++ "$/"]
      else [] ].

Definition _generate_selector_candidates (step : dict) : result (list string) :=
  let selector := get "selector" step in
  let candidates := hint_part step in
  candidates' <-
    (if truthy selector then
       s <- as_str selector ;;
       Ok (app candidates (selector_part s))
     else Ok candidates) ;;
  Ok (unique_candidates candidates').

(** [step.get("text") or step.get("params", {}).get("text")] *)
Definition text_or_params_text (step : dict) : result value :=
  py_or (get "text" step)
        (method_get (get_default "params" (VDict []) step) "text").

(** [url if url.endswith("*") else f"{url}*"] *)
Definition url_pattern_of (url : value) : result value :=
  s <- as_str url ;;
  Ok (VStr (if endswith s "*" then s else s ++ "*")).

Definition url_changed (url_pattern : value) : value :=
  VDict [("type", VStr "url_changed"); ("url", url_pattern); ("timeout", VInt 15000)].

(** [_infer_success_conditions(steps, current_index)]; [current] is
    [steps[current_index]] and [next] is [steps[current_index + 1]] when
    the index is in range. *)
Definition _infer_success_conditions (current : dict) (next : option value)
  : result (list value) :=
  if negb (eq_str (get "type" current) "click") then Ok []
  else
    match next with
    | None => Ok []
    | Some next_v =>
        next_step <- as_dict next_v ;;
        let next_type := get "type" next_step in
        conditions <-
          (if eq_str next_type "expect_text" then
             next_text <- text_or_params_text next_step ;;
             Ok (if truthy next_text
                 then [VDict [("type", VStr "modal_visible"); ("text", next_text);
                              ("timeout", VInt 15000)]]
                 else [])
           else Ok []) ;;
        if eq_str next_type "expect_url" || eq_str next_type "go" then
          let url := get "url" next_step in
          if truthy url then
            url_pattern <- url_pattern_of url ;;
            Ok (app conditions [url_changed url_pattern])
          else Ok conditions
        else Ok conditions
    end.

(** The fields every compiled step starts with (lines 226-228). *)
Definition base_keys : list string :=
  ["type"; "url"; "value"; "delay_ms"; "delay"; "frame"; "popup_url"].

Definition copy_base (raw_step : dict) : dict :=
  fold_left
    (fun compiled_step key =>
       match lookup key raw_step with
       | Some v => dict_set key v compiled_step
       | None => compiled_step
       end)
    base_keys [].

Definition str_list (l : list string) : value := VList (map VStr l).

Definition text_locator (text : value) : string :=
  "text=" ++ dquote ++ py_str text ++ dquote.

(** What the click branch reads from the step after the click
    (lines 236-248): its text, its selector, its type, and whether it is to
    be taken up into the click. *)
Record lookahead : Type := {
  next_text : value;
  next_selector : value;
  next_step_type : value;
  next_timeout : value;
  skip_next : bool
}.

Definition no_lookahead : lookahead :=
  {| next_text := VNone; next_selector := VNone; next_step_type := VNone;
     next_timeout := VInt 15000; skip_next := false |}.

Definition look_ahead (next : option value) : result lookahead :=
  match next with
  | None => Ok no_lookahead
  | Some next_v =>
      next_step <- as_dict next_v ;;
      let ty := get "type" next_step in
      if eq_str ty "expect_text" || eq_str ty "wait_visible" then
        text <- text_or_params_text next_step ;;
        Ok {| next_text := text;
              next_selector := get "selector" next_step;
              next_step_type := ty;
              next_timeout := get_default "timeout" (VInt 15000) next_step;
              skip_next := true |}
      else
        Ok {| next_text := VNone; next_selector := VNone; next_step_type := ty;
              next_timeout := VInt 15000; skip_next := false |}
  end.

(** [selectors.insert(0, f'text="{next_text}"')] under its guard
    (lines 251-253). *)
Definition insert_next_text (la : lookahead) (selectors : list string) : list string :=
  if truthy (next_text la) && negb (existsb (str_in "text=") selectors)
  then text_locator (next_text la) :: selectors
  else selectors.

(** Lines 255-260. *)
Definition store_selectors (raw_step : dict) (selectors : list string)
           (compiled_step : dict) : dict :=
  match selectors with
  | _ :: _ :: _ => dict_set "selectors" (str_list selectors) compiled_step
  | [s] => dict_set "selector" (VStr s) compiled_step
  | [] => dict_set "selector" (get "selector" raw_step) compiled_step
  end.

(** The condition the next step is turned into (lines 267-287). *)
Definition absorbed_condition (la : lookahead) : list value :=
  if skip_next la && truthy (next_step_type la) then
    if eq_str (next_step_type la) "expect_text" && truthy (next_text la) then
      [VDict [("type", VStr "element_visible"); ("text", next_text la);
              ("timeout", VInt 15000)]]
    else if eq_str (next_step_type la) "wait_visible" then
      if truthy (next_text la) then
        [VDict [("type", VStr "element_visible"); ("text", next_text la);
                ("timeout", next_timeout la)]]
      else if truthy (next_selector la) then
        [VDict [("type", VStr "element_visible"); ("selector", next_selector la);
                ("timeout", next_timeout la)]]
      else []
    else []
  else [].

(** The click branch (lines 231-297) and the append of line 361.  The
    result is the list of steps one iteration appends to [compiled_steps]:
    the click is appended at line 293; with [skip_next] the [continue] of
    line 297 ends the iteration (and the loop goes on with the very next
    raw step), without it control reaches line 361, which appends the same
    step once more. *)
Definition compile_click (raw_step : dict) (next : option value)
           (compiled_step : dict) : result (list dict) :=
  selectors <- _generate_selector_candidates raw_step ;;
  la <- look_ahead next ;;
  let selectors := insert_next_text la selectors in
  let compiled_step := store_selectors raw_step selectors compiled_step in
  inferred <- _infer_success_conditions raw_step next ;;
  let success_conditions := app inferred (absorbed_condition la) in
  let compiled_step :=
    match success_conditions with
    | [] => compiled_step
    | _ => dict_set "success_conditions" (VList success_conditions) compiled_step
    end in
  if skip_next la then Ok [compiled_step]
  else Ok [compiled_step; compiled_step].

(** Lines 299-318. *)
Definition compile_expect_text (raw_step : dict) (compiled_step : dict)
  : result (list dict) :=
  text <- text_or_params_text raw_step ;;
  let selector := get "selector" raw_step in
  if truthy text then
    let compiled_step := dict_set "text" text compiled_step in
    if truthy selector then
      Ok [dict_set "selectors" (VList [VStr (text_locator text); selector]) compiled_step]
    else Ok [compiled_step]
  else Ok [dict_set "selector" selector compiled_step].

(** Lines 320-349. *)
Definition compile_wait_visible (raw_step : dict) (compiled_step : dict)
  : result (list dict) :=
  let selector := get "selector" raw_step in
  text <- text_or_params_text raw_step ;;
  compiled_step <-
    (if truthy text then
       let compiled_step := dict_set "text" text compiled_step in
       Ok (if truthy selector
           then dict_set "selectors" (VList [VStr (text_locator text); selector])
                         compiled_step
           else compiled_step)
     else if truthy selector then
       selectors <- _generate_selector_candidates raw_step ;;
       Ok (if (1 <? length selectors)%nat
           then dict_set "selectors" (str_list selectors) compiled_step
           else dict_set "selector" selector compiled_step)
     else
       Raise (ValueError ("wait_visible step requires 'selector' or 'text' field: "
                          ++ py_str (VDict raw_step)))) ;;
  Ok [dict_set "timeout" (get_default "timeout" (VInt 15000) raw_step) compiled_step].

(** ["text" in params] and [params["text"]] for the [params] of a step of
    another type (lines 358-359). *)
Definition compile_other (raw_step : dict) (compiled_step : dict)
  : result (list dict) :=
  match lookup "params" raw_step with
  | None => Ok [compiled_step]
  | Some (VDict params) =>
      match lookup "text" params with
      | Some text => Ok [dict_set "text" text compiled_step]
      | None => Ok [compiled_step]
      end
  | Some (VStr s) =>
      if str_in "text" s then Raise TypeError else Ok [compiled_step]
  | Some (VList l) =>
      if existsb (fun v => eq_str v "text") l then Raise TypeError
      else Ok [compiled_step]
  | Some _ => Raise TypeError
  end.

Definition passthrough_types : list string :=
  ["fill"; "go"; "expect_visible"; "expect_url"; "wait_url"].

(** One iteration of the loop of line 221: the steps it appends. *)
Definition compile_step (raw_v : value) (next : option value) : result (list dict) :=
  raw_step <- as_dict raw_v ;;
  let step_type := get "type" raw_step in
  let compiled_step := copy_base raw_step in
  if eq_str step_type "click" then compile_click raw_step next compiled_step
  else if eq_str step_type "expect_text" then compile_expect_text raw_step compiled_step
  else if eq_str step_type "wait_visible" then compile_wait_visible raw_step compiled_step
  else if existsb (eq_str step_type) passthrough_types then Ok [compiled_step]
  else compile_other raw_step compiled_step.

(** The loop over [enumerate(raw_steps)]: [raw_steps[i + 1]] is the head of
    what is left after the current step. *)
Fixpoint compile_steps (raw_steps : list value) : result (list dict) :=
  match raw_steps with
  | [] => Ok []
  | raw_v :: rest =>
      appended <- compile_step raw_v (hd_error rest) ;;
      more <- compile_steps rest ;;
      Ok (app appended more)
  end.

(** [{**meta, "compiled": True, "compiler_version": "1.0.0"}] *)
Definition compiled_meta (meta : value) : result dict :=
  match meta with
  | VDict d =>
      Ok (dict_set "compiler_version" (VStr "1.0.0")
            (dict_set "compiled" (VBool true) d))
  | _ => Raise TypeError
  end.

Definition compile_scenario (raw_scenario : dict) : result dict :=
  raw_steps <- iter_values (get_default "steps" (VList []) raw_scenario) ;;
  compiled_steps <- compile_steps raw_steps ;;
  meta <- compiled_meta (get_default "_meta" (VDict []) raw_scenario) ;;
  Ok [("base_url", get_default "base_url" (VStr "") raw_scenario);
      ("steps", VList (map VDict compiled_steps));
      ("_meta", VDict meta)].

(** The [steps] of a compiled scenario. *)
Definition steps_of (compiled : result dict) : option (list value) :=
  match compiled with
  | Ok d => match lookup "steps" d with Some (VList l) => Some l | _ => None end
  | Raise _ => None
  end.

End Compiler.

(** [str(e)] *)
Definition exn_str (e : exn) : string :=
  match e with
  | ValueError m | RuntimeError m | AssertionError m | TimeoutError m | PwError m => m
  | KeyError k => repr_str k
  | AttributeError | TypeError => ""
  end.

(** ** The browser driver and the execution monad *)

Module Runner.

(** A Playwright [Page] or [Frame]; a frame knows the page it lives in. *)
Inductive target : Type :=
| Page (id : nat)
| Frame (id : nat) (page : nat).

Definition is_page (t : target) : bool :=
  match t with Page _ => true | Frame _ _ => false end.

(** [tgt if isinstance(tgt, Page) else tgt.page] *)
Definition page_of (t : target) : target :=
  match t with Page _ => t | Frame _ p => Page p end.

Definition target_eqb (a b : target) : bool :=
  match a, b with
  | Page i, Page j => Nat.eqb i j
  | Frame i p, Frame j q => Nat.eqb i j && Nat.eqb p q
  | _, _ => false
  end.

(** What a run does on its environment: the calls it makes on the driver,
    and on the file system and the clock. *)
Inductive io_event : Type :=
| Call (on : target) (meth : string) (args : list value)
| Sys (func : string) (args : list value).

(** What a run does, in order: its calls, the lines it appends to the step
    log, and the entries and exits of the functions whose calls the
    properties below speak of (recorded as a tracing decorator would). *)
Inductive event : Type :=
| Io (e : io_event)
| AppendStepLog (path : string) (line : value)
| Enter (func : string) (args : list value)
| Leave (func : string) (res : result value).

(** The environment: browser, file system and clock.  Its answer to a call
    may depend on everything that happened before; the history given to it
    ends with the call being answered.  A call whose Python result is not
    used is answered through [reply] as well.  [poll_limit] bounds the turns
    of a loop that runs until the clock says so: the clock is taken to end
    it no later. *)
Record driver : Type := {
  reply : list event -> result value;
  reply_page : list event -> result target;
  reply_frame : list event -> result (option target);
  reply_targets : list event -> result (list target);
  poll_limit : nat
}.

(** A computation reads the history so far and yields the events it adds
    and its result.  [IO] computations only call the environment; [Run]
    computations also record function entries and exits. *)
Class Emits (E : Type) : Type := inj : E -> event.
#[global] Instance emits_io : Emits io_event := Io.
#[global] Instance emits_event : Emits event := fun e => e.

Definition M (E : Type) (A : Type) : Type := list event -> list E * result A.
Abbreviation IO := (M io_event).
Abbreviation Run := (M event).

Definition ret {E A} (a : A) : M E A := fun _ => ([], Ok a).

Definition raise {E A} (e : exn) : M E A := fun _ => ([], Raise e).

Definition bind {E} `{Emits E} {A B} (m : M E A) (f : A -> M E B) : M E B :=
  fun h =>
    match m h with
    | (ev, Ok a) => let (ev', r) := f a (app h (map inj ev)) in (app ev ev', r)
    | (ev, Raise e) => (ev, Raise e)
    end.

(** [try: m  except Exception as e: handler e] *)
Definition catch {E} `{Emits E} {A} (m : M E A) (handler : exn -> M E A) : M E A :=
  fun h =>
    match m h with
    | (ev, Ok a) => (ev, Ok a)
    | (ev, Raise e) =>
        let (ev', r) := handler e (app h (map inj ev)) in (app ev ev', r)
    end.

(** The outcome of [m] as a value, nothing raised. *)
Definition try_ {E A} (m : M E A) : M E (result A) :=
  fun h => let (ev, r) := m h in (ev, Ok r).

Definition emit {E} (e : E) : M E unit := fun _ => ([e], Ok tt).

Definition lift {E A} (r : result A) : M E A := fun _ => ([], r).

(** An [IO] computation inside a [Run] *)
Definition io {A} (m : IO A) : Run A :=
  fun h => let (ev, r) := m h in (map Io ev, r).

Declare Scope run_scope.
Delimit Scope run_scope with run.
Notation "x <- m ;; k" := (bind m (fun x => k))
  (at level 61, m at next level, right associativity) : run_scope.
Notation "m ;; k" := (bind m (fun _ => k))
  (at level 61, right associativity) : run_scope.
Local Open Scope run_scope.

(** [try: m  except Exception: pass] *)
Definition swallow {E} `{Emits E} {A} (m : M E A) : M E unit :=
  catch (m ;; ret tt) (fun _ => ret tt).

Definition rmap {A B} (f : A -> B) (r : result A) : result B :=
  match r with Ok a => Ok (f a) | Raise e => Raise e end.

(** A function body between its entry and exit records; [enc] writes the
    returned value as a Python value. *)
Definition traced {A} (func : string) (args : list value) (enc : A -> value)
           (m : Run A) : Run A :=
  emit (Enter func args) ;;
  r <- try_ m ;;
  emit (Leave func (rmap enc r)) ;;
  lift r.

Definition enc_val (v : value) : value := v.

(** A Python pair [(success, info)] *)
Definition enc_pair (p : bool * value) : value := VList [VBool (fst p); snd p].

Section WithDriver.
Variable drv : driver.

Definition call (on : target) (meth : string) (args : list value) : IO value :=
  fun h => let e := Call on meth args in ([e], reply drv (app h [Io e])).

Definition call_page (on : target) (meth : string) (args : list value) : IO target :=
  fun h => let e := Call on meth args in ([e], reply_page drv (app h [Io e])).

Definition call_frame (on : target) (meth : string) (args : list value)
  : IO (option target) :=
  fun h => let e := Call on meth args in ([e], reply_frame drv (app h [Io e])).

Definition call_targets (on : target) (meth : string) (args : list value)
  : IO (list target) :=
  fun h => let e := Call on meth args in ([e], reply_targets drv (app h [Io e])).

Definition sys (func : string) (args : list value) : IO value :=
  fun h => let e := Sys func args in ([e], reply drv (app h [Io e])).

(** A reading of the clock, in milliseconds; it does not fail. *)
Definition clock (func : string) : IO Z :=
  fun h =>
    let e := Sys func [] in
    ([e], Ok (match reply drv (app h [Io e]) with Ok (VInt z) => z | _ => 0 end)).

(** [page.wait_for_timeout(ms)] *)
Definition wait_for_timeout (page : target) (ms : Z) : IO value :=
  call page "wait_for_timeout" [VInt ms].

(** [os.path.join(a, b)] on POSIX paths *)
Definition path_join (a b : string) : string :=
  if startswith b "/" then b
  else if String.eqb a "" || endswith a "/" then a ++ b
  else a ++ "/" ++ b.

(** [log_debug_checkpoint] ([debug_utils.py]): one line appended to
    [debug_checkpoints.jsonl], a failure to write ignored. *)
Definition log_debug_checkpoint (run_dir : string) (step_index : value)
           (step_type : string) (checkpoint_name : string) (data : dict) : IO unit :=
  swallow
    (sys "append"
         [VStr (path_join run_dir "debug_checkpoints.jsonl");
          VDict [("step_index", step_index); ("step_type", VStr step_type);
                 ("checkpoint", VStr checkpoint_name); ("data", VDict data)]]).

(** [_write_debug_log]: one line appended to the fixed debug log, a failure
    to write ignored.  The timestamp and the data of the entry are left
    out. *)
Definition debug_log_path : string :=
  "/Users/gangjong-won/Dubbi/e2e-service/.cursor/debug.log".

Definition _write_debug_log (message : string) : IO unit :=
  clock "time.time" ;;
  swallow (sys "append" [VStr debug_log_path; VStr message]).

(** An integer read from a driver answer, for [count > 0]. *)
Definition as_Z (v : value) : result Z :=
  match v with
  | VInt z => Ok z
  | VBool b => Ok (if b then 1 else 0)
  | _ => Raise TypeError
  end.

(** The text the debug probes look for. *)
Definition login_prompt : string := "로그인 하세요!".

(** [_check_dropdown_state]: probes for the debug log; nothing it meets is
    raised. *)
Definition _check_dropdown_state (page : target) (expected_text : string) : IO unit :=
  swallow
    (c <- call page "get_by_text.count" [VStr expected_text; VBool false] ;;
     text_count <- lift (as_Z c) ;;
     (if 0 <? text_count
      then swallow (call page "get_by_text.is_visible"
                         [VStr expected_text; VBool false; VInt 100])
      else ret tt) ;;
     (if 0 <? text_count
      then swallow
             (call page "get_by_text.text_content"
                   [VStr expected_text; VBool false; VInt 100] ;;
              call page "get_by_text.evaluate"
                   [VStr expected_text; VBool false; VStr "el => el.innerHTML";
                    VInt 100])
      else ret tt)).

(** ** The click transaction ([action_transaction.py]) *)

Record transaction : Type := {
  tx_page : target;
  tx_run_dir : string;
  tx_step_index : Z;
  tx_step_type : string
}.

Section Transaction.
Variable self : transaction.

Definition _log_checkpoint (checkpoint_name : string) (data : dict) : IO unit :=
  log_debug_checkpoint (tx_run_dir self) (VInt (tx_step_index self))
                       (tx_step_type self) checkpoint_name data.

(** The scripts given to [locator.evaluate], by name. *)
Definition js_check_actionable : value := VStr "check disabled, pointer-events, size".
Definition js_check_enabled : value := VStr "check disabled".
Definition js_click : value := VStr "scrollIntoView, mousedown, mouseup, click, pointer events".

Definition _pre_stabilize (tgt : target) (selector : string) : Run value :=
  traced "_pre_stabilize" [VStr selector] enc_val
   (io
    (swallow (call (page_of tgt) "wait_for_load_state"
                   [VStr "domcontentloaded"; VInt 1500]) ;;
     swallow (wait_for_timeout (page_of tgt) 200) ;;
     catch (call tgt "locator.wait_for" [VStr selector; VStr "attached"; VInt 5000])
           (fun _ => raise (ValueError ("Element not found: " ++ selector))) ;;
     catch (call tgt "locator.wait_for" [VStr selector; VStr "visible"; VInt 5000])
           (fun _ => raise (ValueError ("Element not visible: " ++ selector))) ;;
     catch (call tgt "locator.evaluate" [VStr selector; js_check_actionable])
           (fun e =>
              catch (wait_for_timeout (page_of tgt) 300 ;;
                     call tgt "locator.evaluate" [VStr selector; js_check_enabled])
                    (fun _ => raise (ValueError ("Element not actionable: " ++ selector
                                                 ++ " - " ++ exn_str e)))) ;;
     swallow (call tgt "locator.scroll_into_view_if_needed" [VStr selector]) ;;
     ret VNone)).

Definition strategy_ok (strategy : string) : dict :=
  [("strategy", VStr strategy); ("success", VBool true)].

Definition strategy_error (strategy : string) (e : exn) : dict :=
  [("strategy", VStr strategy); ("error", VStr (exn_str e))].

(** The result is the name of the strategy that clicked; it is [None] when
    the bounding box is [None], where the function ends without a
    [return]. *)
Definition _execute_click_multi_strategy (tgt : target) (selector : string)
  : Run value :=
  traced "_execute_click_multi_strategy" [VStr selector] enc_val
   (io
    (let page := page_of tgt in
     catch (call tgt "locator.hover" [VStr selector; VInt 2000] ;;
            swallow (wait_for_timeout page 300) ;;
            _log_checkpoint "click_strategy" (strategy_ok "hover"))
           (fun _ => _log_checkpoint "click_strategy"
                       [("strategy", VStr "hover"); ("skipped", VBool true)]) ;;
     catch (call tgt "locator.click" [VStr selector; VInt 8000; VBool false] ;;
            _log_checkpoint "click_strategy" (strategy_ok "native_click") ;;
            ret (VStr "native_click"))
       (fun e1 =>
          _log_checkpoint "click_strategy" (strategy_error "native_click" e1) ;;
          catch (call tgt "locator.click" [VStr selector; VInt 8000; VBool true] ;;
                 _log_checkpoint "click_strategy" (strategy_ok "force_click") ;;
                 ret (VStr "force_click"))
            (fun e2 =>
               _log_checkpoint "click_strategy" (strategy_error "force_click" e2) ;;
               catch (box <- call tgt "locator.bounding_box" [VStr selector; VInt 2000] ;;
                      if truthy box then
                        (* the centre of the box, computed in floating point *)
                        call page "mouse.click" [box] ;;
                        _log_checkpoint "click_strategy" (strategy_ok "coordinate_click") ;;
                        ret (VStr "coordinate_click")
                      else ret VNone)
                 (fun e3 =>
                    _log_checkpoint "click_strategy"
                                    (strategy_error "coordinate_click" e3) ;;
                    catch (call tgt "locator.evaluate" [VStr selector; js_click] ;;
                           _log_checkpoint "click_strategy" (strategy_ok "js_click") ;;
                           ret (VStr "js_click"))
                      (fun e4 =>
                         raise (RuntimeError
                                  ("All click strategies failed for " ++ selector
                                   ++ ". Errors: native=" ++ exn_str e1
                                   ++ ", force=" ++ exn_str e2
                                   ++ ", coordinate=" ++ exn_str e3
                                   ++ ", js=" ++ exn_str e4)))))))).

(** The first [n] characters of a UTF-8 string ([s[:n]]): a byte of the
    form 10xxxxxx continues the character before it. *)
Definition is_continuation (c : ascii) : bool :=
  let n := nat_of_ascii c in ((128 <=? n) && (n <? 192))%nat.

Fixpoint take_chars (n : nat) (s : string) : string :=
  match s with
  | EmptyString => EmptyString
  | String c s' =>
      if is_continuation c then String c (take_chars n s')
      else match n with
           | O => EmptyString
           | S k => String c (take_chars k s')
           end
  end.

(** [v[:50]] *)
Definition slice50 (v : value) : result value :=
  match v with
  | VStr s => Ok (VStr (take_chars 50 s))
  | VList l => Ok (VList (firstn 50 l))
  | _ => Raise TypeError
  end.

(** [x.url[:50] if x.url else 'unnamed'] *)
Definition short_url (x : target) : IO string :=
  u <- call x "url" [] ;;
  if truthy u then
    u' <- call x "url" [] ;;
    v <- lift (slice50 u') ;;
    ret (py_str v)
  else ret "unnamed".

Definition scope : Type := (target * string)%type.

(** One turn of the loop over [enumerate(self.page.frames)]. *)
Definition frame_scope (i : nat) (frame : target) : IO (list scope) :=
  main_frame <- call_page (tx_page self) "main_frame" [] ;;
  if negb (target_eqb frame main_frame) then
    u <- short_url frame ;;
    ret [(frame, "frame_" ++ str_of_Z (Z.of_nat i) ++ "_" ++ u)]
  else ret [].

(** One turn of the loop over [enumerate(self.context.pages)]. *)
Definition popup_scope (i : nat) (popup_page : target) : IO (list scope) :=
  if negb (target_eqb popup_page (tx_page self)) then
    u <- short_url popup_page ;;
    ret [(popup_page, "popup_" ++ str_of_Z (Z.of_nat i) ++ "_" ++ u)]
  else ret [].

(** A loop inside [try: ... except Exception: pass] that appends to
    [scopes]: what was appended before an exception stays. *)
Fixpoint collect_scopes (one : nat -> target -> IO (list scope)) (i : nat)
         (items : list target) (scopes : list scope) : IO (list scope) :=
  match items with
  | [] => ret scopes
  | x :: rest =>
      r <- try_ (one i x) ;;
      match r with
      | Ok new => collect_scopes one (S i) rest (app scopes new)
      | Raise _ => ret scopes
      end
  end.

Definition _get_all_evaluation_scopes : IO (list scope) :=
  let scopes := [(tx_page self, "top_page")] in
  frames <- try_ (call_targets (tx_page self) "frames" []) ;;
  scopes <- match frames with
            | Ok l => collect_scopes frame_scope O l scopes
            | Raise _ => ret scopes
            end ;;
  pages <- try_ (call_targets (tx_page self) "context.pages" []) ;;
  match pages with
  | Ok l => collect_scopes popup_scope O l scopes
  | Raise _ => ret scopes
  end.

(** The loop [for tgt, scope_name in scopes: try: ... except: continue]
    around a check that returns when its last call answers true. *)
Fixpoint first_scope (check : target -> IO value) (scopes : list scope)
  : IO (bool * value) :=
  match scopes with
  | [] => ret (false, VNone)
  | (tgt, scope_name) :: rest =>
      r <- try_ (check tgt) ;;
      match r with
      | Ok v => if truthy v then ret (true, VStr scope_name) else first_scope check rest
      | Raise _ => first_scope check rest
      end
  end.

(** Wait for the text, then [is_visible]: through [get_by_text] on a page,
    through a [text=] locator in a frame. *)
Definition text_visible (text timeout : value) (tgt : target) : IO value :=
  if is_page tgt then
    call tgt "get_by_text.wait_for" [text; VBool false; VStr "visible"; timeout] ;;
    call tgt "get_by_text.is_visible" [text; VBool false; VInt 1000]
  else
    call tgt "locator.wait_for" [VStr ("text=" ++ py_str text); VStr "visible"; timeout] ;;
    call tgt "locator.is_visible" [VStr ("text=" ++ py_str text); VInt 1000].

Definition selector_visible (selector timeout : value) (tgt : target) : IO value :=
  call tgt "locator.wait_for" [selector; VStr "visible"; timeout] ;;
  call tgt "locator.is_visible" [selector; VInt 1000].

(** [s.rstrip("*")] *)
Fixpoint rstrip_star (s : string) : string :=
  match s with
  | EmptyString => EmptyString
  | String c s' =>
      let r := rstrip_star s' in
      if Ascii.eqb c "*"%char && String.eqb r "" then EmptyString else String c r
  end.

(** The script given to [wait_for_function]. *)
Definition js_url_startswith (prefix : string) : value :=
  VStr ("() => (window.location.href || " ++ dquote ++ dquote ++ ").startsWith("
        ++ dquote ++ prefix ++ dquote ++ ")").

(** [(tgt.url or "").startswith(p)] *)
Definition url_startswith (tgt : target) (p : string) : IO bool :=
  u <- call tgt "url" [] ;;
  s <- lift (as_str (if truthy u then u else VStr "")) ;;
  ret (startswith s p).

(** The loop of the [url_changed] condition: frames are passed over. *)
Fixpoint url_scope (url prefix : string) (timeout : value) (scopes : list scope)
  : IO (bool * value) :=
  match scopes with
  | [] => ret (false, VNone)
  | (tgt, scope_name) :: rest =>
      if is_page tgt then
        r <- try_ (if negb (String.eqb prefix "")
                   then call tgt "wait_for_function" [js_url_startswith prefix; timeout]
                   else call tgt "expect.to_have_url" [VStr url; timeout]) ;;
        match r with
        | Ok _ => ret (true, VStr scope_name)
        | Raise _ =>
            matched <- url_startswith tgt (if negb (String.eqb prefix "")
                                           then prefix else url) ;;
            if matched then ret (true, VStr scope_name)
            else url_scope url prefix timeout rest
        end
      else url_scope url prefix timeout rest
  end.

(** [min(timeout, 2000)] *)
Definition min_2000 (timeout : value) : result value :=
  match timeout with
  | VInt z => Ok (VInt (if z <=? 2000 then z else 2000))
  | VBool b => Ok (VBool b)
  | _ => Raise TypeError
  end.

(** [len(set(pages))] *)
Fixpoint distinct (l : list target) : nat :=
  match l with
  | [] => O
  | x :: rest => if existsb (target_eqb x) rest then distinct rest else S (distinct rest)
  end.

Definition _evaluate_success_condition (condition : dict) (scopes : list scope)
  : IO (bool * value) :=
  let cond_type := get "type" condition in
  let timeout := get_default "timeout" (VInt 15000) condition in
  if eq_str cond_type "modal_visible" then
    let text := get "text" condition in
    if negb (truthy text) then ret (false, VNone)
    else first_scope (text_visible text timeout) scopes
  else if eq_str cond_type "url_changed" then
    let url := get "url" condition in
    if negb (truthy url) then ret (false, VNone)
    else
      u <- lift (as_str url) ;;
      let url_pattern := if endswith u "*" then u else u ++ "*" in
      url_scope u (rstrip_star url_pattern) timeout scopes
  else if eq_str cond_type "popup_opened" then
    initial_pages <- call_targets (tx_page self) "context.pages" [] ;;
    swallow (ms <- lift (min_2000 timeout) ;;
             call (tx_page self) "wait_for_timeout" [ms]) ;;
    current_pages <- call_targets (tx_page self) "context.pages" [] ;;
    if (distinct initial_pages <? distinct current_pages)%nat
    then ret (true, VStr "popup_opened")
    else ret (false, VNone)
  else if eq_str cond_type "element_visible" then
    let selector := get "selector" condition in
    let text := get "text" condition in
    if negb (truthy selector) && negb (truthy text) then ret (false, VNone)
    else first_scope (if truthy text then text_visible text timeout
                      else selector_visible selector timeout) scopes
  else ret (false, VNone).

(** The loop over the conditions: the first one that holds wins. *)
Fixpoint first_condition (conditions : list dict) (scopes : list scope)
  : IO (option (bool * value)) :=
  match conditions with
  | [] => ret None
  | condition :: rest =>
      r <- _evaluate_success_condition condition scopes ;;
      let (success, matched_scope) := r in
      if success then
        _log_checkpoint "success_condition_met"
                        [("condition", VDict condition); ("matched_scope", matched_scope)] ;;
        ret (Some (true, VStr (py_str (get "type" condition) ++ "_"
                               ++ py_str matched_scope)))
      else first_condition rest scopes
  end.

Definition _evaluate_success_conditions (success_conditions : list dict)
  : Run (bool * value) :=
  traced "_evaluate_success_conditions" [VList (map VDict success_conditions)] enc_pair
   (io
    (match success_conditions with
     | [] =>
         swallow (wait_for_timeout (tx_page self) 1000) ;;
         ret (true, VStr "no_conditions")
     | _ =>
         scopes <- _get_all_evaluation_scopes ;;
         r <- first_condition success_conditions scopes ;;
         match r with
         | Some found => ret found
         | None =>
             _log_checkpoint "success_conditions_failed"
               [("conditions", VList (map VDict success_conditions));
                ("scopes_checked", VList (map (fun sc => VStr (snd sc)) scopes))] ;;
             ret (false, VNone)
         end
     end)).


(** The loops at lines 534-538 and 550-554. *)
Fixpoint probe_dropdown (tgt : target) (conditions : list dict) : IO unit :=
  match conditions with
  | [] => ret tt
  | condition :: rest =>
      if eq_str (get "text" condition) login_prompt
      then _check_dropdown_state (page_of tgt) login_prompt
      else probe_dropdown tgt rest
  end.

(** How one pass through the body of the retry loop ends. *)
Inductive attempt_exit : Type :=
| Returns (r : bool * value)
| Continue
| Break.

(** Lines 496-630, the body of the inner [try]. *)
Definition attempt_body (tgt : target) (sel : string) (success_conditions : list dict)
           (max_retries attempt : Z) : Run attempt_exit :=
  _pre_stabilize tgt sel ;;
  method <- _execute_click_multi_strategy tgt sel ;;
  io (_write_debug_log "Before wait after click" ;;
      swallow (wait_for_timeout (page_of tgt) 2000) ;;
      _write_debug_log "After wait after click") ;;
  match success_conditions with
  | _ :: _ =>
      io (probe_dropdown tgt success_conditions ;;
          _write_debug_log "Before success_condition check") ;;
      r <- _evaluate_success_conditions success_conditions ;;
      let (success, condition_info) := r in
      io (probe_dropdown tgt success_conditions ;;
          _write_debug_log "After success_condition check") ;;
      if success then
        io (_log_checkpoint "click_transaction_success"
              [("selector", VStr sel); ("attempt", VInt (attempt + 1));
               ("method", method); ("condition_info", condition_info)]) ;;
        ret (Returns (true, method))
      else if attempt <? max_retries then
        io (_log_checkpoint "click_transaction_retry"
              [("selector", VStr sel); ("attempt", VInt (attempt + 1));
               ("max_retries", VInt max_retries); ("condition_info", condition_info);
               ("reason", VStr "success_condition_not_met")] ;;
            swallow (wait_for_timeout (page_of tgt) 2000)) ;;
        ret Continue
      else
        io (_log_checkpoint "click_transaction_failed"
              [("selector", VStr sel); ("attempt", VInt (attempt + 1));
               ("max_retries", VInt max_retries); ("condition_info", condition_info);
               ("reason", VStr "max_retries_exceeded")]) ;;
        ret Break
  | [] =>
      io (swallow (wait_for_timeout (page_of tgt) 500) ;;
          _log_checkpoint "click_transaction_success"
            [("selector", VStr sel); ("attempt", VInt (attempt + 1));
             ("method", method); ("condition_info", VStr "no_conditions")]) ;;
      ret (Returns (true, method))
  end.

(** The loop [for attempt in range(max_retries + 1)] from [attempt] on,
    with [n] turns left.  The result is the value the function returns from
    inside the loop, if it does, and [last_error] as the loop leaves it. *)
Fixpoint retry_loop (tgt : target) (sel : string) (success_conditions : list dict)
         (max_retries : Z) (n : nat) (attempt : Z) (last_error : option exn)
  : Run (option (bool * value) * option exn) :=
  match n with
  | O => ret (None, last_error)
  | S n' =>
      r <- try_ (attempt_body tgt sel success_conditions max_retries attempt) ;;
      match r with
      | Ok (Returns v) => ret (Some v, last_error)
      | Ok Continue =>
          retry_loop tgt sel success_conditions max_retries n' (attempt + 1) last_error
      | Ok Break => ret (None, last_error)
      | Raise e =>
          if attempt <? max_retries then
            io (_log_checkpoint "click_transaction_exception_retry"
                  [("selector", VStr sel); ("attempt", VInt (attempt + 1));
                   ("error", VStr (exn_str e))] ;;
                swallow (wait_for_timeout (page_of tgt) 500)) ;;
            retry_loop tgt sel success_conditions max_retries n' (attempt + 1) last_error
          else ret (None, Some e)
      end
  end.

(** The loop [for sel in selectors], with its outer [try]. *)
Fixpoint selectors_loop (tgt : target) (selectors : list string)
         (success_conditions : list dict) (max_retries : Z) (last_error : option exn)
  : Run (option (bool * value) * option exn) :=
  match selectors with
  | [] => ret (None, last_error)
  | sel :: rest =>
      r <- catch (retry_loop tgt sel success_conditions max_retries
                             (Z.to_nat (max_retries + 1)) 0 last_error)
                 (fun e => ret (None, Some e)) ;;
      match r with
      | (Some v, _) => ret r
      | (None, last_error') =>
          selectors_loop tgt rest success_conditions max_retries last_error'
      end
  end.

(** [selector: str | List[str]] *)
Inductive selector_arg : Type :=
| One (selector : string)
| Many (selectors : list string).

Definition execute_click_transaction (tgt : target) (selector : selector_arg)
           (success_conditions : option (list dict)) (max_retries : Z)
  : Run (bool * value) :=
  let success_conditions :=
    match success_conditions with Some l => l | None => [] end in
  let selectors :=
    match selector with One s => [s] | Many l => l end in
  r <- selectors_loop tgt selectors success_conditions max_retries None ;;
  match r with
  | (Some v, _) => ret v
  | (None, Some last_error) => raise last_error
  | (None, None) => ret (false, VStr "unknown")
  end.

End Transaction.

(** ** Step execution ([playwright_steps.py]) *)

(** [int(v or 0)], [None] standing for the exception *)
Definition int_or_0 (v : value) : option Z :=
  if truthy v then
    match v with
    | VInt z => Some z
    | VBool b => Some (if b then 1 else 0)
    | VStr s => parse_int s
    | _ => None
    end
  else Some 0.

Definition _get_delay_ms (step : dict) : Z :=
  let v := get_default "delay_ms" (get_default "delay" (VInt 0) step) step in
  match int_or_0 v with
  | Some z => Z.max 0 z
  | None => 0
  end.

Definition _smart_wait (page : target) : IO unit :=
  swallow (call page "wait_for_load_state" [VStr "domcontentloaded"; VInt 1500]).

Definition _wait_after_interaction (page tgt : target) : IO unit :=
  swallow (wait_for_timeout page 3000).

(** [str(v or "").strip()] *)
Definition str_or_empty (v : value) : string :=
  strip (py_str (if truthy v then v else VStr "")).

(** The scan of [page.frames] for [href]: the first frame whose URL equals
    [href] or is in prefix relation with it. *)
Fixpoint scan_frames (href : string) (frames : list target) : IO (option target) :=
  match frames with
  | [] => ret None
  | f :: rest =>
      u <- call f "url" [] ;;
      if negb (truthy u) then scan_frames href rest
      else
        u1 <- call f "url" [] ;;
        if eq_str u1 href then ret (Some f)
        else
          u2 <- call f "url" [] ;;
          s2 <- lift (match u2 with VStr s => Ok s | _ => Raise TypeError end) ;;
          if startswith href s2 then ret (Some f)
          else
            u3 <- call f "url" [] ;;
            s3 <- lift (as_str u3) ;;
            if startswith s3 href then ret (Some f)
            else scan_frames href rest
  end.

Definition find_by_href (page : target) (href : string) : IO (option target) :=
  frames <- call_targets page "frames" [] ;;
  scan_frames href frames.

Definition find_by_name (page : target) (name : string) : IO (option target) :=
  call_frame page "frame" [VStr name].

(** [time.time() - start_time < timeout / 1000], the clock read in
    milliseconds. *)
Definition within (start_time : Z) (timeout : Z) : IO bool :=
  now <- clock "time.time" ;;
  ret (now - start_time <? timeout).

(** The polling loops of [_resolve_frame]: look, wait 200 ms, look again,
    until the time is over or the wait fails. *)
Fixpoint poll (find : IO (option target)) (page : target) (start_time timeout : Z)
         (fuel : nat) : IO (option target) :=
  match fuel with
  | O => ret None
  | S fuel' =>
      go_on <- within start_time timeout ;;
      if go_on then
        r <- try_ find ;;
        match r with
        | Ok (Some f) => ret (Some f)
        | _ =>
            w <- try_ (wait_for_timeout page 200) ;;
            match w with
            | Ok _ => poll find page start_time timeout fuel'
            | Raise _ => ret None
            end
        end
      else ret None
  end.

Definition poll_for (find : IO (option target)) (page : target) (timeout : Z)
  : IO (option target) :=
  start_time <- clock "time.time" ;;
  poll find page start_time timeout (poll_limit drv).

(** One way of looking for the frame, polled first when asked to wait; an
    exception met in the final look is passed over. *)
Definition resolve_by (find : IO (option target)) (page : target)
           (wait_for_frame : bool) (timeout : Z) : IO (option target) :=
  polled <- (if wait_for_frame then poll_for find page timeout else ret None) ;;
  match polled with
  | Some f => ret (Some f)
  | None => catch find (fun _ => ret None)
  end.

Definition _resolve_frame (page : target) (frame_meta : value)
           (wait_for_frame : bool) (timeout : Z) : IO (option target) :=
  if negb (truthy frame_meta) then ret None
  else
    is_top <- lift (method_get_default frame_meta "isTop" (VBool true)) ;;
    if truthy is_top then ret None
    else
      name_v <- lift (method_get frame_meta "name") ;;
      href_v <- lift (method_get frame_meta "href") ;;
      let name := str_or_empty name_v in
      let href := str_or_empty href_v in
      by_href <- (if negb (String.eqb href "")
                  then resolve_by (find_by_href page href) page wait_for_frame timeout
                  else ret None) ;;
      match by_href with
      | Some f => ret (Some f)
      | None =>
          if negb (String.eqb name "")
          then resolve_by (find_by_name page name) page wait_for_frame timeout
          else ret None
      end.

(** [_target(page, step, wait_for_frame)]: the frame, or the page *)
Definition _target (page : target) (step : dict) (wait_for_frame : bool) : IO target :=
  f <- _resolve_frame page (get "frame" step) wait_for_frame 5000 ;;
  ret (match f with Some f => f | None => page end).

Definition _wait_for_element_visible (tgt : target) (selector : value) (timeout : value)
  : IO unit :=
  swallow (call tgt "locator.wait_for" [selector; VStr "attached"; timeout]) ;;
  call tgt "locator.wait_for" [selector; VStr "visible"; timeout] ;;
  ret tt.

Definition _scroll_into_view (tgt : target) (selector : value) : IO unit :=
  call tgt "locator.scroll_into_view_if_needed" [selector] ;;
  ret tt.

Definition js_inner_text : value :=
  VStr "el => String(el.innerText || el.textContent || '').trim()".

Definition _get_element_text (tgt : target) (selector : value) : IO string :=
  catch (text <- call tgt "locator.evaluate" [selector; js_inner_text] ;;
         ret (if truthy text then py_str text else ""))
        (fun _ =>
           catch (text <- call tgt "locator.text_content" [selector; VInt 2000] ;;
                  ret (if truthy text then strip (py_str text) else ""))
                 (fun _ => ret "")).

Definition js_is_visible : value :=
  VStr "bounding rect, display, visibility, opacity".

Definition _is_element_visible (tgt : target) (selector : value) : IO value :=
  catch (call tgt "locator.evaluate" [selector; js_is_visible])
        (fun _ =>
           catch (call tgt "locator.is_visible" [selector; VInt 2000])
                 (fun _ => ret (VBool false))).

(** The [ctx] dictionary of a run: the page opened first and the stack of
    open pages, each key there or not. *)
Record context : Type := {
  main_page : option target;
  page_stack : option (list target)
}.

Definition empty_context : context := {| main_page := None; page_stack := None |}.

(** [ctx.setdefault("page_stack", [page])] on [ctx], or on a fresh
    dictionary when [ctx] is [None]: the dictionary and the stack. *)
Definition with_stack (ctx : option context) (page : target) : context * list target :=
  let c := match ctx with Some c => c | None => empty_context end in
  match page_stack c with
  | Some stack => (c, stack)
  | None => ({| main_page := main_page c; page_stack := Some [page] |}, [page])
  end.

Definition set_stack (c : context) (stack : list target) : context :=
  {| main_page := main_page c; page_stack := Some stack |}.

(** What the caller sees of [ctx] afterwards: its own dictionary, changed
    in place, or still [None]. *)
Definition seen_by_caller (ctx : option context) (c : context) : option context :=
  match ctx with Some _ => Some c | None => None end.

(** [step[key]] *)
Definition subscript (step : dict) (key : string) : result value :=
  match lookup key step with
  | Some v => Ok v
  | None => Raise (KeyError key)
  end.

Definition is_list (v : value) : bool :=
  match v with VList _ => true | _ => false end.

(** [step.get("selectors")] when it is a non-empty list, else the single
    selector [fallback] yields. *)
Definition selectors_or (step : dict) (fallback : result value) : result (list value) :=
  match get "selectors" step with
  | VList (x :: l) => Ok (x :: l)
  | _ => rmap (fun sel => [sel]) fallback
  end.

(** *** click *)

Definition js_dispatch_click : value :=
  VStr "scrollIntoView, dispatchEvent(click)".

(** The filter of lines 475-479: candidates that start with [text=] are
    left out. *)
Fixpoint filter_clickable (selectors : list value) : result (list string) :=
  match selectors with
  | [] => Ok []
  | sel :: rest =>
      match as_str sel with
      | Raise e => Raise e
      | Ok s =>
          match filter_clickable rest with
          | Raise e => Raise e
          | Ok l =>
              Ok (if negb (startswith s "text=" || startswith s ("text=" ++ dquote))
                  then s :: l else l)
          end
      end
  end.

(** Lines 475-483; when nothing is left the unfiltered list is used. *)
Definition clickable_selectors (selectors : list value) : result (list value) :=
  rmap (fun l => match l with [] => selectors | _ => map VStr l end)
       (filter_clickable selectors).

(** The loop of lines 487-519: [last_error] as it stands at the end. *)
Fixpoint click_loop (page tgt : target) (step : dict) (selectors : list value)
         (last_error : option exn) : IO (option exn) :=
  match selectors with
  | [] => ret last_error
  | sel :: rest =>
      r <- try_ (call tgt "locator.scroll_into_view_if_needed" [sel] ;;
                 call tgt "locator.evaluate" [sel; js_dispatch_click] ;;
                 if truthy (get_default "success_conditions" (VList []) step)
                 then swallow (wait_for_timeout page 500)
                 else ret tt) ;;
      match r with
      | Ok _ => ret last_error
      | Raise e => click_loop page tgt step rest (Some e)
      end
  end.

Definition step_click (page : target) (step : dict) : IO unit :=
  tgt <- _target page step false ;;
  selectors <- lift (selectors_or step
                       (let sel := get "selector" step in
                        if truthy sel then Ok sel
                        else Raise (ValueError
                                      "click step requires 'selector' or 'selectors' field"))) ;;
  clickable <- lift (clickable_selectors selectors) ;;
  last_error <- click_loop page tgt step clickable None ;;
  match last_error with
  | Some e =>
      raise (RuntimeError ("Click failed for all selectors: "
                           ++ py_str (VList clickable)
                           ++ ". Last error: " ++ exn_str e))
  | None => ret tt
  end.

(** *** go, fill *)

Definition step_go (page : target) (step : dict) : IO unit :=
  url <- lift (subscript step "url") ;;
  call page "goto" [url; VStr "domcontentloaded"] ;;
  _smart_wait page.

Definition js_fill : value :=
  VStr "scrollIntoView, focus, set value, dispatch input and change".

Definition is_none (v : value) : bool :=
  match v with VNone => true | _ => false end.

Definition step_fill (page : target) (step : dict) : IO unit :=
  let v := get "value" step in
  let v := if is_none v then get "text" step else v in
  tgt <- _target page step false ;;
  sel <- lift (subscript step "selector") ;;
  call tgt "locator.scroll_into_view_if_needed" [sel] ;;
  call tgt "locator.evaluate"
       [sel; js_fill; VStr (if is_none v then "" else py_str v)] ;;
  ret tt.

(** *** click_popup, popup_go, close_page, switch_main *)

(** [(page.url or "").startswith(p)] for a value [url] *)
Definition value_startswith (url : value) (p : string) : result bool :=
  rmap (fun s => startswith s p) (as_str (if truthy url then url else VStr "")).

(** [except TimeoutError as e: raise RuntimeError(...) from e]: what the
    [try] of lines 559-565 raises when its body raises [e]. *)
Definition popup_not_opened (sel : value) (e : exn) : exn :=
  match e with
  | TimeoutError _ =>
      RuntimeError ("click_popup: no new page opened for selector=" ++ py_str sel)
  | _ => e
  end.

Definition step_click_popup (page : target) (step : dict) (ctx : option context)
  : IO (target * option context) :=
  let (c, stack) := with_stack ctx page in
  sel <- lift (subscript step "selector") ;;
  let popup_url := str_or_empty (get "popup_url" step) in
  _wait_for_element_visible page sel (VInt 8000) ;;
  _scroll_into_view page sel ;;
  new_page <-
    catch (call page "context.expect_page" [VInt 8000] ;;
           call page "locator.click" [sel; VInt 8000] ;;
           new_page <- call_page page "context.expect_page.value" [] ;;
           _wait_after_interaction page page ;;
           ret new_page)
          (fun e => raise (popup_not_opened sel e)) ;;
  swallow (call new_page "wait_for_load_state" [VStr "domcontentloaded"; VInt 8000]) ;;
  (if negb (String.eqb popup_url "") then
     catch (call new_page "expect.to_have_url" [VStr popup_url; VInt 8000] ;; ret tt)
           (fun e =>
              u <- call new_page "url" [] ;;
              matched <- lift (value_startswith u popup_url) ;;
              if matched then ret tt else raise e)
   else ret tt) ;;
  _smart_wait new_page ;;
  ret (new_page, seen_by_caller ctx (set_stack c (app stack [new_page]))).

Definition step_popup_go (page : target) (step : dict) (ctx : option context)
  : IO (target * option context) :=
  let (c, stack) := with_stack ctx page in
  url <- lift (subscript step "url") ;;
  new_page <- call_page page "context.new_page" [] ;;
  call new_page "goto" [url; VStr "domcontentloaded"] ;;
  _smart_wait new_page ;;
  ret (new_page, seen_by_caller ctx (set_stack c (app stack [new_page]))).

Definition step_close_page (page : target) (ctx : option context)
  : IO (target * option context) :=
  let (c, stack) := with_stack ctx page in
  match rev stack with
  | top :: (below :: _) as rest =>
      swallow (call top "close" []) ;;
      ret (below, seen_by_caller ctx (set_stack c (rev rest)))
  | _ => ret (page, seen_by_caller ctx c)
  end.

Definition step_switch_main (page : target) (ctx : option context) : target :=
  match ctx with
  | Some c =>
      match main_page c with
      | Some p => p
      | None => page
      end
  | None => page
  end.

(** *** ensure_logged_in, ensure_logged_out *)

(** [str(a or b or "로그인").strip()] *)
Definition logged_out_text_of (step : dict) : string :=
  let a := get "logged_out_text" step in
  let b := get "loggedOutText" step in
  strip (py_str (if truthy a then a else if truthy b then b else VStr "로그인")).

(** [(loc.inner_text(timeout=2000) or "").strip()] after the wait *)
Definition attached_text (tgt : target) (sel : value) : IO string :=
  call tgt "locator.wait_for" [sel; VStr "attached"; VInt 5000] ;;
  t <- call tgt "locator.inner_text" [sel; VInt 2000] ;;
  s <- lift (as_str (if truthy t then t else VStr "")) ;;
  ret (strip s).

(** The loop of both steps; [bad txt] tells whether the text found breaks
    the expectation.  The result is [last_err] at the end. *)
Fixpoint login_loop (tgt : target) (bad : string -> bool) (msg : string)
         (selectors : list value) (last_err : option exn) : IO (option exn) :=
  match selectors with
  | [] => ret last_err
  | sel :: rest =>
      r <- try_ (txt <- attached_text tgt sel ;;
                 if bad txt
                 then raise (AssertionError (msg ++ ": selector=" ++ py_str sel
                                             ++ ", text=" ++ repr_str txt))
                 else ret tt) ;;
      match r with
      | Ok _ => ret None
      | Raise e => login_loop tgt bad msg rest (Some e)
      end
  end.

Definition step_ensure (logged_in : bool) (page : target) (step : dict) : IO unit :=
  tgt <- _target page step true ;;
  selectors <- lift (selectors_or step
                       (let sel := get "selector" step in
                        Ok (if truthy sel then sel else VStr "#btnUser"))) ;;
  let logged_out_text := logged_out_text_of step in
  let bad txt :=
    negb (String.eqb logged_out_text "")
    && (if logged_in then str_in logged_out_text txt
        else negb (str_in logged_out_text txt)) in
  last_err <- login_loop tgt bad
                (if logged_in then "로그인 상태가 아닙니다" else "로그아웃 상태가 아닙니다")
                selectors None ;;
  match last_err with
  | Some e => raise e
  | None => ret tt
  end.

(** *** expect_text *)

(** How a step branch ends: by [return page] at once, or by reaching the
    end of the branch, after which the delay of the step is applied. *)
Inductive branch_end : Type :=
| ReturnPage
| FallThrough.

(** Strategy 2 (lines 713-723): [Some true] when a selector matched,
    otherwise whether an exception was met. *)
Fixpoint expect_text_loop (tgt : target) (expected_text : string)
         (selectors : list value) (last_error : option exn) : IO (bool * option exn) :=
  match selectors with
  | [] => ret (false, last_error)
  | sel :: rest =>
      r <- try_ (_wait_for_element_visible tgt sel (VInt 15000) ;;
                 _get_element_text tgt sel) ;;
      match r with
      | Ok actual_text =>
          if negb (String.eqb expected_text "") && negb (str_in expected_text actual_text)
          then expect_text_loop tgt expected_text rest last_error
          else ret (true, last_error)
      | Raise e => expect_text_loop tgt expected_text rest (Some e)
      end
  end.

(** Strategy 3 with a selector (lines 749-768). *)
Definition expect_text_single (tgt : target) (sel : value) (expected_text : string)
  : IO unit :=
  catch (actual <- call tgt "locator.evaluate" [sel; js_inner_text] ;;
         let actual_text := if truthy actual then py_str actual else "" in
         if negb (String.eqb expected_text "") && negb (str_in expected_text actual_text)
         then raise (AssertionError
                       ("expect_text failed. expected 포함: " ++ dquote ++ expected_text
                        ++ dquote ++ " actual: " ++ dquote ++ take_chars 120 actual_text
                        ++ dquote))
         else ret tt)
        (fun e =>
           match e with
           | AssertionError _ => raise e
           | _ =>
               raise (AssertionError
                        ("expect_text failed. selector=" ++ dquote ++ py_str sel ++ dquote
                         ++ " expected=" ++ dquote ++ expected_text ++ dquote
                         ++ " error: " ++ exn_str e))
           end).

Definition step_expect_text (page : target) (step : dict) (run_dir : string)
  : IO branch_end :=
  tgt <- _target page step true ;;
  let expected_text := strip (py_str (get_default "text" (VStr "") step)) in
  (if String.eqb expected_text login_prompt
   then _check_dropdown_state (page_of (if is_page tgt then page else tgt)) expected_text
   else ret tt) ;;
  _write_debug_log "expect_text start" ;;
  if String.eqb expected_text "" then
    raise (ValueError "expect_text requires 'text' field")
  else if negb (truthy (get "selector" step)) && negb (truthy (get "selectors" step)) then
    let text_sel := VStr ("text=" ++ expected_text) in
    catch (call tgt "locator.wait_for" [text_sel; VStr "visible"; VInt 15000] ;;
           ret ReturnPage)
          (fun e =>
             swallow (count <- call tgt "locator.count" [text_sel] ;;
                      log_debug_checkpoint run_dir (get_default "_step_index" (VInt 0) step)
                        "expect_text" "text_locator_failed"
                        [("expected_text", VStr expected_text); ("text_count", count);
                         ("error", VStr (exn_str e))]) ;;
             raise (AssertionError
                      ("expect_text failed. 텍스트 " ++ dquote ++ expected_text ++ dquote
                       ++ "를 찾을 수 없습니다.")))
  else
    found <-
      (match get "selectors" step with
       | VList (x :: l) =>
           r <- expect_text_loop tgt expected_text (x :: l) None ;;
           match r with
           | (true, _) => ret true
           | (false, Some _) =>
               raise (AssertionError
                        ("expect_text failed. 모든 selector 후보에서 실패. expected: "
                         ++ dquote ++ expected_text ++ dquote))
           | (false, None) => ret false
           end
       | _ => ret false
       end) ;;
    if found then ret ReturnPage
    else
      let sel := get "selector" step in
      if negb (truthy sel) then
        catch (call tgt (if is_page tgt then "get_by_text.wait_for" else "locator.wait_for")
                    (if is_page tgt
                     then [VStr expected_text; VBool false; VStr "visible"; VInt 15000]
                     else [VStr ("text=" ++ expected_text); VStr "visible"; VInt 15000]) ;;
               ret ReturnPage)
              (fun _ =>
                 raise (ValueError
                          "expect_text requires at least one of: selector, selectors, or text"))
      else
        expect_text_single tgt sel expected_text ;;
        ret FallThrough.

(** *** expect_visible, expect_url *)

Definition step_expect_visible (page : target) (step : dict) : IO unit :=
  tgt <- _target page step false ;;
  sel <- lift (subscript step "selector") ;;
  call tgt "locator.wait_for" [sel; VStr "attached"; VInt 8000] ;;
  _scroll_into_view tgt sel ;;
  visible <- _is_element_visible tgt sel ;;
  if negb (truthy visible)
  then raise (AssertionError ("expect_visible failed (not visible): selector="
                              ++ dquote ++ py_str sel ++ dquote))
  else ret tt.

Definition step_expect_url (page : target) (step : dict) : IO unit :=
  url <- lift (subscript step "url") ;;
  call page "expect.to_have_url" [url; VInt 8000] ;;
  ret tt.

(** *** wait_visible *)

Definition step_index_of (step : dict) : value := get_default "_step_index" (VInt 0) step.

(** Strategy 3 (lines 855-861): whether a selector became visible, and the
    last exception met. *)
Fixpoint wait_visible_loop (tgt : target) (timeout : value) (selectors : list value)
         (last_error : option exn) : IO (bool * option exn) :=
  match selectors with
  | [] => ret (false, last_error)
  | sel :: rest =>
      r <- try_ (_wait_for_element_visible tgt sel timeout) ;;
      match r with
      | Ok _ => ret (true, last_error)
      | Raise e => wait_visible_loop tgt timeout rest (Some e)
      end
  end.

(** A dictionary key: lists and dictionaries cannot be one. *)
Definition as_key (v : value) : result string :=
  match v with
  | VList _ | VDict _ => Raise TypeError
  | _ => Ok (py_str v)
  end.

(** The counts gathered for the diagnostic of lines 864-870. *)
Fixpoint count_selectors (tgt : target) (selectors : list value) (diagnostic_info : dict)
  : IO dict :=
  match selectors with
  | [] => ret diagnostic_info
  | sel :: rest =>
      r <- try_ (call tgt "locator.count" [sel]) ;;
      key <- lift (as_key sel) ;;
      count_selectors tgt rest
        (dict_set key
                  (VDict [("count", match r with Ok c => c | Raise _ => VStr "error" end)])
                  diagnostic_info)
  end.

Definition step_wait_visible (page : target) (step : dict) (run_dir : string)
  : IO branch_end :=
  tgt <- _target page step true ;;
  let timeout := get_default "timeout" (VInt 15000) step in
  let text := get "text" step in
  by_text <-
    (if truthy text then
       catch (call tgt (if is_page tgt then "get_by_text.wait_for" else "locator.wait_for")
                   (if is_page tgt
                    then [text; VBool false; VStr "visible"; timeout]
                    else [VStr ("text=" ++ py_str text); VStr "visible"; timeout]) ;;
              ret true)
             (fun e =>
                log_debug_checkpoint run_dir (step_index_of step) "wait_visible"
                  "text_failed"
                  [("text", text); ("timeout", timeout); ("error", VStr (exn_str e))] ;;
                ret false)
     else ret false) ;;
  if by_text then ret ReturnPage
  else
    let role := get "role" step in
    by_role <-
      (if truthy role then
         catch (call tgt "locator.wait_for"
                     [VStr ("role=" ++ py_str role); VStr "visible"; timeout] ;;
                ret true)
               (fun e =>
                  log_debug_checkpoint run_dir (step_index_of step) "wait_visible"
                    "role_failed"
                    [("role", role); ("timeout", timeout); ("error", VStr (exn_str e))] ;;
                  ret false)
       else ret false) ;;
    if by_role then ret ReturnPage
    else
      by_selectors <-
        (match get "selectors" step with
         | VList (x :: l) =>
             r <- wait_visible_loop tgt timeout (x :: l) None ;;
             match r with
             | (true, _) => ret true
             | (false, last_error) =>
                 swallow (diagnostic_info <- count_selectors tgt (x :: l) [] ;;
                          log_debug_checkpoint run_dir (step_index_of step) "wait_visible"
                            "all_selectors_failed"
                            [("selectors", VList (x :: l)); ("timeout", timeout);
                             ("diagnostic", VDict diagnostic_info);
                             ("error", VStr (match last_error with
                                             | Some e => exn_str e
                                             | None => "unknown"
                                             end))]) ;;
                 match last_error with
                 | Some e => raise e
                 | None => ret false
                 end
             end
         | _ => ret false
         end) ;;
      if by_selectors then ret ReturnPage
      else
        let sel := get "selector" step in
        (if truthy sel then
           swallow (count <- call tgt "locator.count" [sel] ;;
                    text_check <-
                      (if truthy text then
                         c <- call tgt (if is_page tgt then "get_by_text.count"
                                        else "locator.count")
                                   (if is_page tgt then [text; VBool false]
                                    else [VStr ("text=" ++ py_str text)]) ;;
                         ret (VDict [("count", c)])
                       else ret VNone) ;;
                    log_debug_checkpoint run_dir (step_index_of step) "wait_visible"
                      "before_wait"
                      [("selector", sel); ("selector_count", count);
                       ("text_check", text_check); ("timeout", timeout)]) ;;
           catch (_wait_for_element_visible tgt sel timeout)
                 (fun e =>
                    swallow (final_count <- call tgt "locator.count" [sel] ;;
                             log_debug_checkpoint run_dir (step_index_of step)
                               "wait_visible" "failed"
                               [("selector", sel); ("selector_count", final_count);
                                ("timeout", timeout); ("error", VStr (exn_str e))]) ;;
                    raise e)
         else ret tt) ;;
        raise (ValueError
                 "wait_visible requires at least one of: selector, selectors, text, or role").

(** *** wait_url, screenshot *)

Definition step_wait_url (page : target) (step : dict) : IO unit :=
  let u := get "url" step in
  let expected_url := if truthy u then u else get_default "url_pattern" (VStr "") step in
  let timeout := get_default "timeout" (VInt 15000) step in
  if truthy expected_url then
    expected <- lift (as_str expected_url) ;;
    if endswith expected "*" then
      let prefix := substring 0 (String.length expected - 1) expected in
      catch (call page "wait_for_function" [js_url_startswith prefix; timeout] ;; ret tt)
            (fun e =>
               url <- call page "url" [] ;;
               matched <- lift (value_startswith url prefix) ;;
               if matched then ret tt else raise e)
    else
      catch (call page "expect.to_have_url" [VStr expected; timeout] ;; ret tt)
            (fun e =>
               url <- call page "url" [] ;;
               matched <- lift (value_startswith url expected) ;;
               if matched then ret tt else raise e)
  else ret tt.

Definition step_screenshot (page : target) (step : dict) (run_dir : string) : IO unit :=
  let name := get_default "name" (VStr "shot") step in
  call page "screenshot" [VStr (path_join run_dir (py_str name ++ ".png")); VBool true] ;;
  ret tt.

(** *** run_step *)

(** The delay after a step (lines 976-981). *)
Definition post_step_delay (page : target) (step : dict) : IO unit :=
  let delay_ms := _get_delay_ms step in
  if 0 <? delay_ms then swallow (wait_for_timeout page delay_ms) else ret tt.

Definition after (page : target) (step : dict) (ctx : option context) (m : IO unit)
  : IO (target * option context) :=
  m ;; post_step_delay page step ;; ret (page, ctx).

Definition after_branch (page : target) (step : dict) (ctx : option context)
           (m : IO branch_end) : IO (target * option context) :=
  e <- m ;;
  match e with
  | ReturnPage => ret (page, ctx)
  | FallThrough => post_step_delay page step ;; ret (page, ctx)
  end.

Definition after_switch (step : dict) (m : IO (target * option context))
  : IO (target * option context) :=
  r <- m ;;
  post_step_delay (fst r) step ;;
  ret r.

(** The dispatch on the type of the step. *)
Definition dispatch_step (page : target) (step : dict) (run_dir : string)
           (ctx : option context) : IO (target * option context) :=
  let t := get "type" step in
  if negb (truthy t) then raise (ValueError "Step missing 'type' field")
  else if eq_str t "go" then after page step ctx (step_go page step)
  else if eq_str t "click" then after page step ctx (step_click page step)
  else if eq_str t "fill" then after page step ctx (step_fill page step)
  else if eq_str t "click_popup" then after_switch step (step_click_popup page step ctx)
  else if eq_str t "popup_go" then after_switch step (step_popup_go page step ctx)
  else if eq_str t "close_page" then after_switch step (step_close_page page ctx)
  else if eq_str t "switch_main" then
    after (step_switch_main page ctx) step ctx (ret tt)
  else if eq_str t "ensure_logged_in" then after page step ctx (step_ensure true page step)
  else if eq_str t "ensure_logged_out" then after page step ctx (step_ensure false page step)
  else if eq_str t "expect_text" then
    after_branch page step ctx (step_expect_text page step run_dir)
  else if eq_str t "expect_visible" then after page step ctx (step_expect_visible page step)
  else if eq_str t "expect_url" then after page step ctx (step_expect_url page step)
  else if eq_str t "wait_visible" then
    after_branch page step ctx (step_wait_visible page step run_dir)
  else if eq_str t "wait_url" then after page step ctx (step_wait_url page step)
  else if eq_str t "screenshot" then after page step ctx (step_screenshot page step run_dir)
  else raise (ValueError ("Unknown step type: " ++ py_str t)).

Definition enc_target (t : target) : value :=
  match t with
  | Page id => VList [VStr "Page"; VInt (Z.of_nat id)]
  | Frame id p => VList [VStr "Frame"; VInt (Z.of_nat id); VInt (Z.of_nat p)]
  end.

(** [run_step(page, step, run_dir, ctx, next_step)]: the page to go on
    with, and [ctx] as the caller sees it afterwards.  [next_step] is not
    read. *)
Definition run_step (page : target) (step : dict) (run_dir : string)
           (ctx : option context) (next_step : option dict)
  : Run (target * option context) :=
  traced "run_step" [VDict step] (fun r => enc_target (fst r))
         (io (dispatch_step page step run_dir ctx)).


(** ** Failure artifacts ([artifact_collector.py]) *)

(** [len(v)]; the length of a string is counted in characters. *)
Definition py_len (v : value) : result Z :=
  match v with
  | VStr s =>
      Ok (Z.of_nat (List.length (filter (fun c => negb (is_continuation c))
                                        (list_ascii_of_string s))))
  | VList l => Ok (Z.of_nat (List.length l))
  | VDict d => Ok (Z.of_nat (List.length d))
  | _ => Raise TypeError
  end.

(** [x.attr if x.attr else ""] *)
Definition attr_or_empty (x : target) (attr : string) : IO value :=
  v <- call x attr [] ;;
  if truthy v then call x attr [] else ret (VStr "").

(** The value under [key] when the capture worked, the message of the
    exception under [error_key] when it did not. *)
Definition record (key error_key : string) (r : result value) (artifacts : dict) : dict :=
  match r with
  | Ok v => dict_set key v artifacts
  | Raise e => dict_set error_key (VStr (exn_str e)) artifacts
  end.

Definition frame_info (page : target) (i : nat) (frame : target) : IO value :=
  url <- attr_or_empty frame "url" ;;
  name <- attr_or_empty frame "name" ;;
  main_frame <- call_page page "main_frame" [] ;;
  title <- catch (u <- call frame "url" [] ;;
                  if truthy u then call frame "evaluate" [VStr "() => document.title"]
                  else ret (VStr ""))
                 (fun _ => ret (VStr "")) ;;
  ret (VDict [("index", VInt (Z.of_nat i)); ("url", url); ("name", name);
              ("is_main", VBool (target_eqb frame main_frame)); ("title", title)]).

Definition page_info (page : target) (i : nat) (p : target) : IO value :=
  url <- attr_or_empty p "url" ;;
  title <- catch (call p "title" []) (fun _ => ret (VStr "")) ;;
  ret (VDict [("index", VInt (Z.of_nat i)); ("url", url);
              ("is_main", VBool (target_eqb p page)); ("title", title)]).

Fixpoint infos (one : nat -> target -> IO value) (i : nat) (items : list target)
  : IO (list value) :=
  match items with
  | [] => ret []
  | x :: rest =>
      v <- one i x ;;
      more <- infos one (S i) rest ;;
      ret (v :: more)
  end.

Definition collect_failure_artifacts (page : target) (run_dir : string)
           (step_index : Z) (step_type : string) (error : exn) : Run dict :=
  traced "collect_failure_artifacts"
         [VInt step_index; VStr step_type; VStr (exn_str error)] VDict
   (io
    (let failure := "failure_step_" ++ pad3 step_index in
     let artifacts :=
       [("step_index", VInt step_index); ("step_type", VStr step_type);
        ("error", VStr (exn_str error));
        ("trace_path",
         VStr (path_join run_dir ("trace_step_" ++ pad3 step_index ++ ".zip")))] in
     let screenshot_path := path_join run_dir (failure ++ ".png") in
     r <- try_ (call page "screenshot" [VStr screenshot_path; VBool true] ;;
                ret (VStr screenshot_path)) ;;
     let artifacts := record "screenshot_path" "screenshot_error" r artifacts in
     let html_path := path_join run_dir (failure ++ ".html") in
     r <- try_ (html_content <- call page "content" [] ;;
                sys "write" [VStr html_path; html_content] ;;
                ret html_content) ;;
     let artifacts :=
       match r with
       | Ok html_content =>
           record "html_size" "html_error" (rmap VInt (py_len html_content))
                  (dict_set "html_path" (VStr html_path) artifacts)
       | Raise e => dict_set "html_error" (VStr (exn_str e)) artifacts
       end in
     r <- try_ (frames <- call_targets page "frames" [] ;;
                l <- infos (frame_info page) O frames ;;
                ret (VList l)) ;;
     let artifacts := record "frames" "frames_error" r artifacts in
     r <- try_ (pages <- call_targets page "context.pages" [] ;;
                l <- infos (page_info page) O pages ;;
                ret (VList l)) ;;
     let artifacts := record "pages" "pages_error" r artifacts in
     r <- try_ (call page "url" []) ;;
     artifacts <-
       match r with
       | Ok current_url =>
           let artifacts := dict_set "current_url" current_url artifacts in
           t <- try_ (call page "title" []) ;;
           ret (match t with
                | Ok current_title => dict_set "current_title" current_title artifacts
                | Raise _ => artifacts
                end)
       | Raise _ => ret artifacts
       end ;;
     let metadata_path := path_join run_dir (failure ++ "_metadata.json") in
     r <- try_ (sys "write" [VStr metadata_path; VDict artifacts] ;;
                ret (VStr metadata_path)) ;;
     ret (record "metadata_path" "metadata_error" r artifacts))).

(** ** The run loop ([tests/e2e/test_scenario.py], lines 182-326) *)

(** A variable of the run that the browser's request events write: read,
    not called. *)
Definition observe (name : string) : IO value :=
  fun h =>
    let e := Sys name [] in
    ([e], Ok (match reply drv (app h [Io e]) with Ok v => v | Raise _ => VNone end)).

(** The loop of [flush] that waits for 0.8 s without a request.  The loop
    of the source has no bound: it goes on for as long as requests keep
    coming and the waits return.  [fuel] is the number of turns the loop is
    followed for, so a trace agrees with the source up to the point where
    the fuel runs out, and no statement on a run of the loop says that it
    ends. *)
Fixpoint wait_quiet (page : target) (fuel : nat) : IO unit :=
  match fuel with
  | O => ret tt
  | S fuel' =>
      now <- clock "time.monotonic" ;;
      last_req_ts <- clock "last_req_ts" ;;
      let delta := now - last_req_ts in
      if 800 <=? delta then ret tt
      else
        w <- try_ (wait_for_timeout page (Z.max 50 (800 - delta))) ;;
        match w with
        | Ok _ => wait_quiet page fuel'
        | Raise _ => ret tt
        end
  end.

(** [flush_network_burst_screenshot()] for the tracker of [page]; the
    result is [net_seq] afterwards. *)
Definition flush_network_burst_screenshot (run_dir : string) (page : target)
           (net_seq : Z) : IO Z :=
  net_pending <- observe "net_pending" ;;
  if negb (truthy net_pending) then ret net_seq
  else
    wait_quiet page (poll_limit drv) ;;
    let net_seq := net_seq + 1 in
    swallow (call page "screenshot"
                  [VStr (path_join run_dir ("net_burst_" ++ pad3 net_seq ++ ".png"));
                   VBool true]) ;;
    ret net_seq.












End WithDriver.
End Runner.

(** ** Loading a scenario ([scenario.py]) *)

Module Loader.
Local Open Scope result_scope.




End Loader.

(** * The properties, in the words of the specification *)

(** ** Well-formed raw scenarios *)

Module Wellformed.
Import Compiler.


Definition is_str (v : value) : bool :=
  match v with VStr _ => true | _ => false end.

(** A hint that is either not given (absent, [None], empty) or a string. *)
Definition str_or_falsy (v : value) : bool := is_str v || negb (truthy v).







Definition raw_steps_of (raw_scenario : dict) : list value :=
  match get_default "steps" (VList []) raw_scenario with
  | VList l => l
  | _ => []
  end.

End Wellformed.

(** ** The priority order of selector candidates, as the specification
    words it *)

Module Priority.
Import Compiler.

(** (1) role, label and accessible-name locators *)
Definition accessible_locators (step : dict) : list string :=
  app (if truthy (get "role" step) then ["role=" ++ py_str (get "role" step)] else [])
   (app (if truthy (get "label" step) then ["label=" ++ py_str (get "label" step)] else [])
        (if truthy (get "aria_label" step)
         then ["[aria-label=" ++ dquote ++ py_str (get "aria_label" step) ++ dquote ++ "]"]
         else [])).

(** (2) exact-text locators *)
Definition exact_text_locators (step : dict) : list string :=
  if truthy (get "text" step)
  then ["text=" ++ dquote ++ py_str (get "text" step) ++ dquote;
        "text=/^" ++ py_str (get "text" step) ++ "$/"]
  else [].

(** An id, a short class or a data attribute: one token starting with [#]
    or [.], or a selector starting with [[data-]. *)
Definition is_stable_attribute (selector : string) : bool :=
  (startswith selector "#" && (split_len selector =? 1)%nat)
  || (startswith selector "." && (split_len selector =? 1)%nat)
  || startswith selector "[data-".

Definition selector_string (step : dict) : option string :=
  match get "selector" step with
  | VStr s => if String.eqb s "" then None else Some s
  | _ => None
  end.

(** (3) stable attribute selectors *)
Definition stable_selectors (step : dict) : list string :=
  match selector_string step with
  | Some s => if is_stable_attribute s then [s] else []
  | None => []
  end.

Definition strip_nth_of_type (selector : string) : string :=
  replace (replace selector ":nth-of-type(1)" "") ":nth-of-type(2)" "".

(** (4) the selector with its [nth-of-type] qualifiers stripped, when that
    changes it *)
Definition stripped_selectors (step : dict) : list string :=
  match selector_string step with
  | Some s =>
      if is_stable_attribute s then []
      else if str_in ":nth-of-type" s && negb (String.eqb (strip_nth_of_type s) s)
           then [strip_nth_of_type s] else []
  | None => []
  end.

(** (5) the selector as it is *)
Definition verbatim_selectors (step : dict) : list string :=
  match selector_string step with
  | Some s => if is_stable_attribute s then [] else [s]
  | None => []
  end.

Definition priority_order (step : dict) : list string :=
  List.concat [accessible_locators step; exact_text_locators step;
               stable_selectors step; stripped_selectors step;
               verbatim_selectors step].




End Priority.

(** ** What a trace shows *)

Module Trace.
Import Runner.

(** A computation that does not raise. *)
Definition total {E A} (m : M E A) : Prop :=
  forall h, exists ev a, m h = (ev, Ok a).

(** The events that are not calls on the environment. *)
Definition is_mark (e : event) : bool :=
  match e with Io _ => false | _ => true end.

Definition marks (ev : list event) : list event := filter is_mark ev.
Arguments marks : simpl never.

(** The selector of each attempt, in order: an attempt begins when
    [_pre_stabilize] is entered. *)
Definition attempt_of (e : event) : list string :=
  match e with
  | Enter func [VStr sel] => if String.eqb func "_pre_stabilize" then [sel] else []
  | _ => []
  end.

Definition attempted (ev : list event) : list string := flat_map attempt_of ev.

(** Whether [func] was entered. *)
Definition entered (func : string) (ev : list event) : bool :=
  existsb (fun e => match e with
                    | Enter f _ => String.eqb f func
                    | _ => false
                    end) ev.

(** The attempts of a transaction, candidate after candidate: [counts]
    gives the number of attempts of each. *)
Fixpoint blocks (selectors : list string) (counts : list nat) : list string :=
  match selectors, counts with
  | sel :: selectors', k :: counts' => app (repeat sel k) (blocks selectors' counts')
  | _, _ => []
  end.

(** An attempt went through: with no success conditions the click strategy
    returned, with success conditions their evaluation returned true. *)
Definition attempt_passed (success_conditions : list dict) (ev : list event) : Prop :=
  match success_conditions with
  | [] => exists method, In (Leave "_execute_click_multi_strategy" (Ok method)) ev
  | _ => exists info,
      In (Leave "_evaluate_success_conditions" (Ok (VList [VBool true; info]))) ev
  end.

(** A stage of an attempt raised [e]. *)
Definition stage_raised (e : exn) (ev : list event) : Prop :=
  exists stage,
    In stage ["_pre_stabilize"; "_execute_click_multi_strategy";
              "_evaluate_success_conditions"]
    /\ In (Leave stage (Raise e)) ev.

(** How one attempt went, stage by stage; [stabilized] is what
    [_pre_stabilize] returned. *)
Inductive attempt_shape : Type :=
| PreRaised (e : exn)
| ClickRaised (stabilized : value) (e : exn)
| Clicked (stabilized method : value)
| EvalRaised (stabilized method : value) (e : exn)
| Evaluated (stabilized method : value) (success : bool) (info : value).

Definition stage_marks (func : string) (args : list value) (r : result value)
  : list event :=
  [Enter func args; Leave func r].

(** The marks an attempt of that shape leaves. *)
Definition shape_marks (sel : string) (success_conditions : list dict)
           (a : attempt_shape) : list event :=
  let pre := stage_marks "_pre_stabilize" [VStr sel] in
  let click := stage_marks "_execute_click_multi_strategy" [VStr sel] in
  let eval := stage_marks "_evaluate_success_conditions"
                          [VList (map VDict success_conditions)] in
  match a with
  | PreRaised e => pre (Raise e)
  | ClickRaised v e => app (pre (Ok v)) (click (Raise e))
  | Clicked v m => app (pre (Ok v)) (click (Ok m))
  | EvalRaised v m e => app (pre (Ok v)) (app (click (Ok m)) (eval (Raise e)))
  | Evaluated v m b info =>
      app (pre (Ok v)) (app (click (Ok m)) (eval (Ok (VList [VBool b; info]))))
  end.

(** How the body of the retry loop ends after an attempt of that shape. *)
Definition shape_exit (max_retries attempt : Z) (a : attempt_shape)
  : result attempt_exit :=
  match a with
  | PreRaised e | ClickRaised _ e | EvalRaised _ _ e => Raise e
  | Clicked _ m => Ok (Returns (true, m))
  | Evaluated _ m true _ => Ok (Returns (true, m))
  | Evaluated _ _ false _ => Ok (if attempt <? max_retries then Continue else Break)
  end.

(** Without success conditions nothing is evaluated, with them a click is
    followed by their evaluation. *)
Definition well_shaped (success_conditions : list dict) (a : attempt_shape) : Prop :=
  match a with
  | PreRaised _ | ClickRaised _ _ => True
  | Clicked _ _ => success_conditions = []
  | EvalRaised _ _ _ | Evaluated _ _ _ _ => success_conditions <> []
  end.

(** The attempt went through. *)
Definition shape_passed (a : attempt_shape) : bool :=
  match a with
  | Clicked _ _ | Evaluated _ _ true _ => true
  | _ => false
  end.

(** What the attempt raised, if it raised. *)
Definition shape_raise (a : attempt_shape) : option exn :=
  match a with
  | PreRaised e | ClickRaised _ e | EvalRaised _ _ e => Some e
  | _ => None
  end.

(** The strategy that clicked. *)
Definition method_of (a : attempt_shape) : value :=
  match a with
  | Clicked _ m | EvalRaised _ m _ | Evaluated _ m _ _ => m
  | _ => VNone
  end.

(** The marks of the attempts made with one candidate. *)
Definition attempts_marks (sel : string) (success_conditions : list dict)
           (shapes : list attempt_shape) : list event :=
  flat_map (shape_marks sel success_conditions) shapes.

(** The marks of a transaction: the attempts of each candidate in turn. *)
Fixpoint groups_marks (selectors : list string) (success_conditions : list dict)
         (groups : list (list attempt_shape)) : list event :=
  match selectors, groups with
  | sel :: selectors', g :: groups' =>
      app (attempts_marks sel success_conditions g)
          (groups_marks selectors' success_conditions groups')
  | _, _ => []
  end.

(** What a loop over attempts yields: either the last attempt went through
    and its method is returned, or all failed and [last_error] is what it
    was before or what one of them raised. *)
Definition loop_result (shapes : list attempt_shape) (last_error : option exn)
           (r : option (bool * value) * option exn) : Prop :=
  (exists pre a last_error',
      shapes = app pre [a]
      /\ Forall (fun x => shape_passed x = false) pre
      /\ shape_passed a = true
      /\ r = (Some (true, method_of a), last_error'))
  \/ (Forall (fun x => shape_passed x = false) shapes
      /\ exists last_error',
        r = (None, last_error')
        /\ (last_error' = last_error
            \/ exists a e, In a shapes /\ shape_raise a = Some e
                           /\ last_error' = Some e)).

(** The exits an attempt of that shape records. *)
Definition is_leave (e : event) : bool :=
  match e with Leave _ _ => true | _ => false end.

Definition shape_leaves (a : attempt_shape) : list event :=
  filter is_leave (shape_marks "" [] a).

(** The candidate list and the condition list a transaction works on. *)
Definition selectors_of (selector : selector_arg) : list string :=
  match selector with One s => [s] | Many l => l end.

Definition conditions_of (success_conditions : option (list dict)) : list dict :=
  match success_conditions with Some l => l | None => [] end.

End Trace.

(** * Steps and the run loop, for the statements *)

Module Steps.
Import Runner.





Definition is_ok {A} (r : result A) : bool :=
  match r with Ok _ => true | Raise _ => false end.





(** The candidates of a click step: the [selectors] list when it is a
    non-empty list, else the single [selector]. *)
Definition step_selectors (step : dict) : list value :=
  match get "selectors" step with
  | VList (x :: l) => x :: l
  | _ => [get "selector" step]
  end.

Definition text_candidate (sel : value) : bool :=
  match sel with
  | VStr s => startswith s "text="
  | _ => false
  end.

(** The candidates without those that begin with [text=], and all of them
    when nothing would be left. *)
Definition without_text (selectors : list value) : list value :=
  filter (fun sel => negb (text_candidate sel)) selectors.

Definition click_candidates (selectors : list value) : list value :=
  match without_text selectors with
  | [] => selectors
  | kept => kept
  end.

(** The selectors a click was dispatched on, in order. *)
Definition is_dispatch_click (script : value) : bool :=
  match script, js_dispatch_click with
  | VStr a, VStr b => String.eqb a b
  | _, _ => false
  end.

Definition click_of (c : io_event) : list value :=
  match c with
  | Call _ meth [sel; script] =>
      if String.eqb meth "locator.evaluate" && is_dispatch_click script
      then [sel] else []
  | _ => []
  end.

Definition clicks (ev : list io_event) : list value := flat_map click_of ev.

Definition clicked (ev : list event) : list value :=
  flat_map (fun e => match e with Io c => click_of c | _ => [] end) ev.

(** A computation that dispatches no click. *)
Definition no_click {A} (m : IO A) : Prop := forall h, clicks (fst (m h)) = [].




End Steps.

(** ** How a transaction ends *)

Module Verdict.
Import Runner Trace.

(** An attempt begins when [_pre_stabilize] is entered. *)
Definition starts_attempt (e : event) : bool :=
  match e with
  | Enter func _ => String.eqb func "_pre_stabilize"
  | _ => false
  end.

(** The exception a stage of an attempt was left with, when the event is
    such an exit. *)
Definition stage_error (e : event) : option exn :=
  match e with
  | Leave func (Raise x) =>
      if existsb (String.eqb func)
                 ["_pre_stabilize"; "_execute_click_multi_strategy";
                  "_evaluate_success_conditions"]
      then Some x else None
  | _ => None
  end.

(** What the attempt raised whose events [ev] begins with: the events up to
    the next attempt are looked at. *)
Fixpoint raised_in (ev : list event) : option exn :=
  match ev with
  | [] => None
  | e :: rest =>
      if starts_attempt e then None
      else match stage_error e with
           | Some x => Some x
           | None => raised_in rest
           end
  end.

(** For each attempt of a trace, in order, what it raised. *)
Fixpoint attempt_errors (ev : list event) : list (option exn) :=
  match ev with
  | [] => []
  | e :: rest =>
      if starts_attempt e then raised_in rest :: attempt_errors rest
      else attempt_errors rest
  end.

(** [last_error] after an attempt that may have set it. *)
Definition keep (x le : option exn) : option exn :=
  match x with Some e => Some e | None => le end.

(** [last_error] after attempts that all failed, [n] to each candidate: it
    is set when the [n]-th attempt of a candidate raises, and only then.
    [k] counts the attempts the current candidate has had. *)
Fixpoint recorded (n k : nat) (errors : list (option exn)) (last_error : option exn)
  : option exn :=
  match errors with
  | [] => last_error
  | x :: rest =>
      if (S k =? n)%nat
      then recorded n O rest (keep x last_error)
      else recorded n (S k) rest last_error
  end.

(** What a transaction in which no attempt went through ends with. *)
Definition failure (last_error : option exn) : result (bool * value) :=
  match last_error with
  | Some e => Raise e
  | None => Ok (false, VStr "unknown")
  end.

(** What the last attempt of a candidate raised. *)
Definition final_raise (g : list attempt_shape) : option exn :=
  match rev g with
  | a :: _ => shape_raise a
  | [] => None
  end.

(** Marks that begin with an attempt, or are none. *)
Definition fresh (ev : list event) : Prop :=
  match ev with
  | [] => True
  | e :: _ => starts_attempt e = true
  end.

(** An attempt that did not go through. *)
Definition failed_attempt (a : attempt_shape) : Prop := shape_passed a = false.

(** What the retry loop of a candidate yields when it has [n] turns. *)
Definition retry_outcome (n : nat) (shapes : list attempt_shape) (le : option exn)
           (r : option (bool * value) * option exn) : Prop :=
  (exists pre a,
      shapes = app pre [a] /\ Forall failed_attempt pre /\ shape_passed a = true
      /\ r = (Some (true, method_of a), le))
  \/ (Forall failed_attempt shapes /\ length shapes = n
      /\ r = (None, keep (final_raise shapes) le)).

(** What the event says the click strategy was left with, when it is such
    an exit. *)
Definition click_exit (e : event) : option (result value) :=
  match e with
  | Leave func r =>
      if String.eqb func "_execute_click_multi_strategy" then Some r else None
  | _ => None
  end.

(** What the click strategy was left with the last time in a trace. *)
Fixpoint last_click (ev : list event) : option (result value) :=
  match ev with
  | [] => None
  | e :: rest =>
      match last_click rest with
      | Some r => Some r
      | None => click_exit e
      end
  end.

(** The calls by which a click strategy clicks: the native and the forced
    click, the click by coordinates, the scripted click. *)
Definition is_click (c : io_event) : bool :=
  match c with
  | Call _ meth args =>
      String.eqb meth "locator.click" || String.eqb meth "mouse.click"
      || (String.eqb meth "locator.evaluate"
          && match args, js_click with
             | [_; VStr script], VStr s => String.eqb script s
             | _, _ => false
             end)
  | _ => false
  end.

(** The clicks asked for in a trace. *)
Definition clicks_asked (ev : list event) : list io_event :=
  flat_map (fun e => match e with
                     | Io c => if is_click c then [c] else []
                     | _ => []
                     end) ev.

(** The clicks of a trace that returned; [h] is the history the trace
    begins in. *)
Fixpoint clicks_done (drv : driver) (h ev : list event) : list io_event :=
  match ev with
  | [] => []
  | e :: rest =>
      app (match e with
           | Io c => if is_click c && Steps.is_ok (reply drv (app h [e])) then [c] else []
           | _ => []
           end)
          (clicks_done drv (app h [e]) rest)
  end.

End Verdict.

(** * Further properties of the code *)

(** ** The compiled sequence *)

Module CompiledShape.
Import Compiler.

(** The type of a raw step. *)
Definition type_of (raw_v : value) : value :=
  match raw_v with
  | VDict step => get "type" step
  | _ => VNone
  end.

(** The step after a click is one the click takes up. *)
Definition absorbs (next : option value) : bool :=
  match next with
  | Some (VDict next_step) =>
      eq_str (get "type" next_step) "expect_text"
      || eq_str (get "type" next_step) "wait_visible"
  | _ => false
  end.

(** A click that is not followed by such a step. *)
Definition repeated (raw_v : value) (next : option value) : bool :=
  eq_str (type_of raw_v) "click" && negb (absorbs next).

(** The types of the compiled steps: those of the raw steps, each once,
    the repeated clicks twice. *)
Fixpoint compiled_types (raw_steps : list value) : list value :=
  match raw_steps with
  | [] => []
  | raw_v :: rest =>
      app (if repeated raw_v (hd_error rest)
           then [type_of raw_v; type_of raw_v] else [type_of raw_v])
          (compiled_types rest)
  end.

Fixpoint repeated_clicks (raw_steps : list value) : nat :=
  match raw_steps with
  | [] => O
  | raw_v :: rest =>
      ((if repeated raw_v (hd_error rest) then 1 else 0) + repeated_clicks rest)%nat
  end.

(** The fields of the raw step a compiled step of a type that is copied as
    it is holds. *)
Definition kept_field (raw_step : dict) (key : string) : option value :=
  if existsb (String.eqb key) base_keys then lookup key raw_step else None.

Definition modal_visible (text : value) : value :=
  VDict [("type", VStr "modal_visible"); ("text", text); ("timeout", VInt 15000)].

Definition element_visible_text (text timeout : value) : value :=
  VDict [("type", VStr "element_visible"); ("text", text); ("timeout", timeout)].

End CompiledShape.

(** ** The click transaction *)

Module TransactionShape.
Import Runner.

(** A success condition that cannot be evaluated: its type is not one of
    the four the transaction knows, or it lacks what the type needs. *)
Definition unanswerable (condition : dict) : bool :=
  let cond_type := get "type" condition in
  if eq_str cond_type "modal_visible" then negb (truthy (get "text" condition))
  else if eq_str cond_type "url_changed" then negb (truthy (get "url" condition))
  else if eq_str cond_type "popup_opened" then false
  else if eq_str cond_type "element_visible" then
    negb (truthy (get "selector" condition)) && negb (truthy (get "text" condition))
  else true.

(** What the click strategies return. *)
Definition click_methods : list value :=
  [VStr "native_click"; VStr "force_click"; VStr "coordinate_click"; VStr "js_click";
   VNone].

(** The messages of [_pre_stabilize]. *)
Definition not_found (selector : string) : exn :=
  ValueError ("Element not found: " ++ selector).

Definition not_visible (selector : string) : exn :=
  ValueError ("Element not visible: " ++ selector).

Definition not_actionable (selector : string) (cause : exn) : exn :=
  ValueError ("Element not actionable: " ++ selector ++ " - " ++ exn_str cause).

(** The error of [_execute_click_multi_strategy]: it names what each of the
    four strategies raised. *)
Definition all_failed (selector : string) (e : exn) : Prop :=
  exists e1 e2 e3 e4,
    e = RuntimeError ("All click strategies failed for " ++ selector
                      ++ ". Errors: native=" ++ exn_str e1
                      ++ ", force=" ++ exn_str e2
                      ++ ", coordinate=" ++ exn_str e3
                      ++ ", js=" ++ exn_str e4).

(** An attempt that does not make the transaction return, and a loop
    over attempts that yields no success. *)
Definition no_return (r : result attempt_exit) : Prop :=
  match r with Ok (Returns _) => False | _ => True end.

Definition no_success (r : result (option (bool * value) * option exn)) : Prop :=
  match r with Ok (Some _, _) => False | _ => True end.

(** The result of a transaction in which no attempt went through. *)
Definition failed (r : result (bool * value)) : Prop :=
  match r with
  | Ok v => v = (false, VStr "unknown")
  | Raise _ => True
  end.

End TransactionShape.

(** ** How a computation ends *)

Module Outcome.
Import Runner.

(** Whatever went before, [m] ends with a result in [P]. *)
Definition ends_with {A} (P : result A -> Prop) (m : IO A) : Prop :=
  forall h, P (snd (m h)).

Definition returns {A} (r : result A) : Prop :=
  match r with Ok _ => True | Raise _ => False end.

(** [m] returns a value in [P] or raises. *)
Definition returns_only {A} (P : A -> Prop) (r : result A) : Prop :=
  match r with Ok a => P a | Raise _ => True end.

Definition anything {A} (r : result A) : Prop := True.

(** The same for a computation that records entries and exits. *)
Definition run_ends_with {A} (P : result A -> Prop) (m : Run A) : Prop :=
  forall h, P (snd (m h)).

End Outcome.

(** ** Steps *)

Module StepShape.
Import Runner.

(** The step types [run_step] knows. *)
Definition known_types : list string :=
  ["go"; "click"; "fill"; "click_popup"; "popup_go"; "close_page"; "switch_main";
   "ensure_logged_in"; "ensure_logged_out"; "expect_text"; "expect_visible";
   "expect_url"; "wait_visible"; "wait_url"; "screenshot"].

(** The error of a step whose type [run_step] does not know. *)
Definition type_error (t : value) : exn :=
  if truthy t then ValueError ("Unknown step type: " ++ py_str t)
  else ValueError "Step missing 'type' field".

(** A click step names what to click: a non-empty [selectors] list or a
    [selector]. *)
Definition names_a_selector (step : dict) : bool :=
  match get "selectors" step with
  | VList (_ :: _) => true
  | _ => truthy (get "selector" step)
  end.

(** The step has a non-empty list of selectors. *)
Definition has_selectors (step : dict) : bool :=
  match get "selectors" step with
  | VList (_ :: _) => true
  | _ => false
  end.

Definition raises {A} (r : result A) : Prop := exists e, r = Raise e.

(** The two calls of a click on a candidate. *)
Definition scroll_to (tgt : target) (sel : value) : io_event :=
  Call tgt "locator.scroll_into_view_if_needed" [sel].

Definition dispatch_click_on (tgt : target) (sel : value) : io_event :=
  Call tgt "locator.evaluate" [sel; js_dispatch_click].

(** What a step that opens a page returns: the new page, on top of the
    stack. *)
Definition opens_on (ctx : option context) (c : context) (stack : list target)
           (r : result (target * option context)) : Prop :=
  match r with
  | Ok (new_page, ctx') =>
      ctx' = seen_by_caller ctx (set_stack c (app stack [new_page]))
  | Raise _ => True
  end.

(** The scroll and the click on the first candidate both return. *)
Definition first_click_passes (drv : driver) (h : list event) (tgt : target)
           (sel : value) : bool :=
  Steps.is_ok (reply drv (app h [Io (scroll_to tgt sel)]))
  && Steps.is_ok (reply drv (app h [Io (scroll_to tgt sel);
                                    Io (dispatch_click_on tgt sel)])).

(** The error of a click step none of whose candidates counts as clicked. *)
Definition click_failed (clickable : list value) (r : result (target * option context))
  : Prop :=
  exists e, r = Raise (RuntimeError ("Click failed for all selectors: "
                                     ++ py_str (VList clickable)
                                     ++ ". Last error: " ++ exn_str e)).

(** The selector of an [ensure_logged_in] or [ensure_logged_out] step that
    has no list of selectors. *)
Definition login_selector (step : dict) : value :=
  if truthy (get "selector" step) then get "selector" step else VStr "#btnUser".

(** A result that is no error of the browser: the step passed, or raised
    [AssertionError] or [ValueError]. *)
Definition fails_by_assertion {A} (r : result A) : Prop :=
  match r with
  | Ok _ => True
  | Raise (AssertionError _) | Raise (ValueError _) => True
  | Raise _ => False
  end.

End StepShape.

(** ** The run loop *)

Module LoopShape.
Import Runner Trace Steps.

(** The steps [run_step] was entered with, in order. *)
Definition run_on (ev : list event) : list value :=
  flat_map (fun e =>
              match e with
              | Enter func [step] => if String.eqb func "run_step" then [step] else []
              | _ => []
              end) ev.





(** What [collect_failure_artifacts] tries to capture: the key of each
    capture and the key of its error. *)
Definition captures : list (string * string) :=
  [("screenshot_path", "screenshot_error"); ("html_path", "html_error");
   ("frames", "frames_error"); ("pages", "pages_error");
   ("metadata_path", "metadata_error")].

(** Each capture has left its result or its error in [artifacts]. *)
Definition accounted (artifacts : dict) : bool :=
  forallb (fun keys => has_key (fst keys) artifacts || has_key (snd keys) artifacts)
          captures.

End LoopShape.

(** * Concrete scenarios and drivers *)

Module Examples.
Import Compiler.

Definition click_a : dict := [("type", VStr "click"); ("selector", VStr "#a")].

Definition expect_hi : dict := [("type", VStr "expect_text"); ("text", VStr "Hi")].


Definition scenario_of (steps : list dict) : dict :=
  [("base_url", VStr "https://x.test"); ("steps", VList (map VDict steps))].

Definition lone_click : dict := scenario_of [click_a].

Definition click_then_expect : dict := scenario_of [click_a; expect_hi].



(** A browser in which every call returns and answers [True]. *)
Definition always_ok : Runner.driver :=
  {| Runner.reply := fun _ => Ok (VBool true);
     Runner.reply_page := fun _ => Ok (Runner.Page 1);
     Runner.reply_frame := fun _ => Ok None;
     Runner.reply_targets := fun _ => Ok [Runner.Page 0];
     Runner.poll_limit := 3 |}.

(** A browser in which every call returns and answers [False]: elements
    can be clicked, nothing waited for is ever visible. *)
Definition never_visible : Runner.driver :=
  {| Runner.reply := fun _ => Ok (VBool false);
     Runner.reply_page := fun _ => Ok (Runner.Page 0);
     Runner.reply_frame := fun _ => Ok None;
     Runner.reply_targets := fun _ => Ok [Runner.Page 0];
     Runner.poll_limit := 3 |}.

Definition click_transaction : Runner.transaction :=
  {| Runner.tx_page := Runner.Page 0; Runner.tx_run_dir := "/run";
     Runner.tx_step_index := 1; Runner.tx_step_type := "click" |}.

Definition welcome_visible : dict :=
  [("type", VStr "element_visible"); ("text", VStr "Welcome"); ("timeout", VInt 15000)].


Definition last_call (h : list Runner.event) : option Runner.io_event :=
  match rev h with
  | Runner.Io e :: _ => Some e
  | _ => None
  end.



Definition click_text_or_a : dict :=
  [("type", VStr "click"); ("selectors", VList [VStr "text=Hi"; VStr "#a"])].

(** A browser in which clicks open no page. *)
Definition no_popup : Runner.driver :=
  {| Runner.reply := fun _ => Ok VNone;
     Runner.reply_page := fun _ => Raise (TimeoutError "Timeout 8000ms exceeded.");
     Runner.reply_frame := fun _ => Ok None;
     Runner.reply_targets := fun _ => Ok [Runner.Page 0];
     Runner.poll_limit := 3 |}.

(** A browser in which a click opens page 1, at the URL [u]. *)
Definition popup_at (u : string) : Runner.driver :=
  {| Runner.reply := fun h =>
       match last_call h with
       | Some (Runner.Call _ meth (expected :: _)) =>
           if String.eqb meth "expect.to_have_url" && negb (eq_str expected u)
           then Raise (AssertionError "Page URL expected to be different")
           else Ok VNone
       | Some (Runner.Call _ meth []) =>
           if String.eqb meth "url" then Ok (VStr u) else Ok VNone
       | _ => Ok VNone
       end;
     Runner.reply_page := fun _ => Ok (Runner.Page 1);
     Runner.reply_frame := fun _ => Ok None;
     Runner.reply_targets := fun _ => Ok [Runner.Page 0; Runner.Page 1];
     Runner.poll_limit := 3 |}.

Definition click_popup_pay : dict :=
  [("type", VStr "click_popup"); ("selector", VStr "#pay");
   ("popup_url", VStr "https://pay.test/")].

Definition click_popup_any : dict :=
  [("type", VStr "click_popup"); ("selector", VStr "#pay")].



(** The index of the first exit of [run_step] with an exception. *)
Fixpoint failure_index (ev : list Runner.event) : nat :=
  match ev with
  | Runner.Leave _ (Raise _) :: _ => O
  | _ :: rest => S (failure_index rest)
  | [] => O
  end.

End Examples.
(** * Further examples *)

Module MoreExamples.
Import Examples.

(** A browser in which nothing matches the selector [sel]: every call on
    it raises, every other call returns. *)
Definition missing (sel : string) : Runner.driver :=
  {| Runner.reply := fun h =>
       match last_call h with
       | Some (Runner.Call _ _ (first :: _)) =>
           if eq_str first sel then Raise (PwError "No element matches the selector")
           else Ok VNone
       | _ => Ok VNone
       end;
     Runner.reply_page := fun _ => Ok (Runner.Page 0);
     Runner.reply_frame := fun _ => Ok None;
     Runner.reply_targets := fun _ => Ok [Runner.Page 0];
     Runner.poll_limit := 3 |}.

Definition click_a_or_b : dict :=
  [("type", VStr "click"); ("selectors", VList [VStr "#a"; VStr "#b"])].

(** A browser in which nothing matches [#a], [#b] is not there at the first
    attempt on it and is there from the second on, and no text waited for
    ever shows. *)
Definition late_b : Runner.driver :=
  {| Runner.reply := fun h =>
       match last_call h with
       | Some (Runner.Call _ meth (VStr sel :: VStr state :: _)) =>
           if String.eqb meth "locator.wait_for" && String.eqb state "attached"
              && (String.eqb sel "#a"
                  || (String.eqb sel "#b"
                      && (length (filter (String.eqb "#b") (Trace.attempted h)) =? 1)%nat))
           then Raise (TimeoutError "Timeout 5000ms exceeded.")
           else Ok (VBool false)
       | _ => Ok (VBool false)
       end;
     Runner.reply_page := fun _ => Ok (Runner.Page 0);
     Runner.reply_frame := fun _ => Ok None;
     Runner.reply_targets := fun _ => Ok [Runner.Page 0];
     Runner.poll_limit := 3 |}.

(** A browser in which an element can be found and seen but not clicked,
    and has no bounding box: both clicks on it raise. *)
Definition no_box : Runner.driver :=
  {| Runner.reply := fun h =>
       match last_call h with
       | Some (Runner.Call _ meth _) =>
           if String.eqb meth "locator.click"
           then Raise (TimeoutError "Timeout 8000ms exceeded.")
           else if String.eqb meth "locator.bounding_box" then Ok VNone
           else Ok (VBool true)
       | _ => Ok (VBool true)
       end;
     Runner.reply_page := fun _ => Ok (Runner.Page 0);
     Runner.reply_frame := fun _ => Ok None;
     Runner.reply_targets := fun _ => Ok [Runner.Page 0];
     Runner.poll_limit := 3 |}.

End MoreExamples.

(** * Facts about the compiler *)

Module CompilerFacts.
Import Compiler Wellformed Priority Examples.

(** ** Dictionaries *)

Lemma lookup_dict_set_same (key : string) (v : value) (d : dict) :
  lookup key (dict_set key v d) = Some v.
Proof.
  induction d as [| [k v'] d IH]; simpl.
  - now rewrite String.eqb_refl.
  - destruct (String.eqb k key) eqn:E; simpl; rewrite E; auto.
Qed.

Lemma lookup_dict_set_other (key key' : string) (v : value) (d : dict) :
  key <> key' -> lookup key (dict_set key' v d) = lookup key d.
Proof.
  intro Hne.
  induction d as [| [k v'] d IH]; simpl.
  - destruct (String.eqb key' key) eqn:E; auto.
    apply String.eqb_eq in E. congruence.
  - destruct (String.eqb k key') eqn:E; simpl.
    + apply String.eqb_eq in E. subst k.
      destruct (String.eqb key' key) eqn:E'; auto.
      apply String.eqb_eq in E'. congruence.
    + now rewrite IH.
Qed.


(** ** Duplicate removal *)

Lemma existsb_eqb_In (c : string) (seen : list string) :
  existsb (String.eqb c) seen = true <-> In c seen.
Proof.
  rewrite existsb_exists. split.
  - intros [x [Hin Heq]]. apply String.eqb_eq in Heq. now subst.
  - intro Hin. exists c. split; auto. apply String.eqb_refl.
Qed.



Lemma unique_from_complete (candidates seen : list string) (x : string) :
  In x candidates -> ~ In x seen -> In x (unique_from seen candidates).
Proof.
  revert seen.
  induction candidates as [| c rest IH]; intros seen Hin Hn; simpl in *.
  - contradiction.
  - destruct (existsb (String.eqb c) seen) eqn:E.
    + destruct Hin as [-> | Hin].
      * apply existsb_eqb_In in E. contradiction.
      * now apply IH.
    + destruct (string_dec c x) as [-> | Hne].
      * now left.
      * right. destruct Hin as [-> | Hin]; [congruence |].
        apply IH; auto. intros [Heq | Hs]; auto.
Qed.


(** The first of the list stays first. *)
Lemma unique_candidates_head (c : string) (rest : list string) :
  exists tail, unique_candidates (c :: rest) = c :: tail.
Proof. unfold unique_candidates. simpl. eauto. Qed.

(** ** The candidate generator *)

Lemma selector_part_priority (s : string) :
  selector_part s =
  app (if is_stable_attribute s then [s] else [])
      (app (if is_stable_attribute s then []
            else if str_in ":nth-of-type" s && negb (String.eqb (strip_nth_of_type s) s)
                 then [strip_nth_of_type s] else [])
           (if is_stable_attribute s then [] else [s])).
Proof.
  unfold selector_part, is_stable_attribute, strip_nth_of_type.
  destruct (startswith s "#" && (split_len s =? 1)%nat); simpl; auto.
  destruct (startswith s "." && (split_len s =? 1)%nat); simpl; auto.
  destruct (startswith s "[data-"); simpl; auto.
  destruct (str_in ":nth-of-type" s); simpl; auto.
Qed.

Lemma hint_part_priority (step : dict) :
  hint_part step = app (accessible_locators step) (exact_text_locators step).
Proof.
  unfold hint_part, accessible_locators, exact_text_locators. simpl.
  rewrite app_nil_r. now rewrite !app_assoc.
Qed.

Lemma truthy_str (s : string) : truthy (VStr s) = negb (String.eqb s "").
Proof. reflexivity. Qed.

(** With a selector that is a string (or not given) the generator returns,
    and what it returns is the priority order without its duplicates. *)
Lemma generate_priority (step : dict) :
  str_or_falsy (get "selector" step) = true ->
  _generate_selector_candidates step = Ok (unique_candidates (priority_order step)).
Proof.
  intro Hty. unfold _generate_selector_candidates, priority_order.
  unfold stable_selectors, stripped_selectors, verbatim_selectors, selector_string.
  rewrite hint_part_priority.
  destruct (get "selector" step) as [| b | z | s | l | d] eqn:Hsel;
    unfold str_or_falsy in Hty; simpl in Hty.
  - simpl. now rewrite !app_nil_r.
  - destruct b; [discriminate |]. simpl. now rewrite !app_nil_r.
  - rewrite Bool.negb_involutive in Hty. simpl. rewrite Hty. simpl.
    now rewrite !app_nil_r.
  - rewrite truthy_str. destruct (String.eqb s "") eqn:E; simpl.
    + now rewrite !app_nil_r.
    + rewrite selector_part_priority. now rewrite !app_nil_r, !app_assoc.
  - destruct l; [| discriminate]. simpl. now rewrite !app_nil_r.
  - destruct d; [| discriminate]. simpl. now rewrite !app_nil_r.
Qed.


(** ** Totality on typed input *)






Lemma generate_ok (step : dict) :
  str_or_falsy (get "selector" step) = true ->
  exists l, _generate_selector_candidates step = Ok l.
Proof. intro H. rewrite (generate_priority step H). eauto. Qed.







(** ** The length of the compiled sequence *)





(** ** The compiled sequence is not shorter than the raw one *)

(** C1.  The specification wants the compiled step count to be at most the
    raw step count, and a step taken up into a click to be gone from the
    compiled sequence.  On the scenario made of one click the compiler
    returns two steps (the click twice), and on a click followed by
    [expect_text] it returns the click, carrying the text as a success
    condition, followed by the [expect_text] step as a step of its own. *)
Theorem compiled_sequence_grows :
  (exists c,
      steps_of (compile_scenario lone_click) = Some [VDict c; VDict c]
      /\ length (raw_steps_of lone_click) = 1%nat)
  /\ (exists c conditions,
         steps_of (compile_scenario click_then_expect)
         = Some [VDict c; VDict [("type", VStr "expect_text"); ("text", VStr "Hi")]]
         /\ lookup "success_conditions" c = Some (VList conditions)
         /\ In (VDict [("type", VStr "element_visible"); ("text", VStr "Hi");
                       ("timeout", VInt 15000)]) conditions
         /\ length (raw_steps_of click_then_expect) = 2%nat).
Proof.
  split.
  - eexists. split; reflexivity.
  - do 2 eexists. repeat split; try reflexivity.
    simpl. right. left. reflexivity.
Qed.

(** ** Totality *)




(** ** Selector candidates *)










End CompilerFacts.

(** * Facts about runs *)

Module RunFacts.
Import Runner Trace.
Local Open Scope run_scope.

(** ** The combinators *)

Lemma bind_run {A B} (m : Run A) (f : A -> Run B) (h : list event) :
  bind m f h =
  match m h with
  | (ev, Ok a) => let (ev', r) := f a (app h ev) in (app ev ev', r)
  | (ev, Raise e) => (ev, Raise e)
  end.
Proof.
  unfold bind. destruct (m h) as [ev [a | e]]; auto.
  unfold inj, emits_event. now rewrite map_id.
Qed.

Lemma bind_io {A B} (m : IO A) (f : A -> IO B) (h : list event) :
  bind m f h =
  match m h with
  | (ev, Ok a) => let (ev', r) := f a (app h (map Io ev)) in (app ev ev', r)
  | (ev, Raise e) => (ev, Raise e)
  end.
Proof. reflexivity. Qed.

Lemma catch_run {A} (m : Run A) (handler : exn -> Run A) (h : list event) :
  catch m handler h =
  match m h with
  | (ev, Ok a) => (ev, Ok a)
  | (ev, Raise e) => let (ev', r) := handler e (app h ev) in (app ev ev', r)
  end.
Proof.
  unfold catch. destruct (m h) as [ev [a | e]]; auto.
  unfold inj, emits_event. now rewrite map_id.
Qed.

Lemma io_run {A} (m : IO A) (h : list event) :
  io m h = (map Io (fst (m h)), snd (m h)).
Proof. unfold io. now destruct (m h). Qed.

(** A traced function enters, does what its body does, and leaves with the
    result of the body. *)
Lemma traced_io_run {A} (func : string) (args : list value) (enc : A -> value)
      (m : IO A) (h : list event) :
  traced func args enc (io m) h =
  (Enter func args
     :: app (map Io (fst (m (app h [Enter func args]))))
            [Leave func (rmap enc (snd (m (app h [Enter func args]))))],
   snd (m (app h [Enter func args]))).
Proof.
  unfold traced. rewrite bind_run. unfold emit at 1. rewrite bind_run.
  unfold try_ at 1. rewrite io_run.
  destruct (m (app h [Enter func args])) as [ev r]. simpl. reflexivity.
Qed.

(** ** Computations that do not raise *)

Lemma total_ret {E A} (a : A) : total (@ret E A a).
Proof. intro h. unfold ret. eauto. Qed.

Lemma total_bind_io {A B} (m : IO A) (f : A -> IO B) :
  total m -> (forall a, total (f a)) -> total (bind m f).
Proof.
  intros Hm Hf h. rewrite bind_io.
  destruct (Hm h) as [ev [a ->]].
  destruct (Hf a (app h (map Io ev))) as [ev' [b ->]]. eauto.
Qed.

Lemma total_swallow {A} (m : IO A) : total (swallow m).
Proof.
  intro h. unfold swallow, catch, bind, ret.
  destruct (m h) as [ev [a | e]]; simpl; eauto.
Qed.

Lemma total_clock (drv : driver) (func : string) : total (clock drv func).
Proof. intro h. unfold clock. eauto. Qed.

Lemma total_if {E A} (b : bool) (m1 m2 : M E A) :
  total m1 -> total m2 -> total (if b then m1 else m2).
Proof. destruct b; auto. Qed.

Create HintDb total.
#[local] Hint Resolve total_ret total_swallow total_clock total_if : total.
#[local] Hint Extern 2 (total (bind _ _)) =>
  apply total_bind_io; [| intro] : total.

Lemma total_write_debug_log (drv : driver) (message : string) :
  total (_write_debug_log drv message).
Proof. unfold _write_debug_log. auto with total. Qed.

Lemma total_log_debug_checkpoint (drv : driver) (run_dir : string) (i : value)
      (step_type name : string) (data : dict) :
  total (log_debug_checkpoint drv run_dir i step_type name data).
Proof. unfold log_debug_checkpoint. auto with total. Qed.

Lemma total_log_checkpoint (drv : driver) (self : transaction) (name : string)
      (data : dict) :
  total (_log_checkpoint drv self name data).
Proof. unfold _log_checkpoint. apply total_log_debug_checkpoint. Qed.

Lemma total_check_dropdown_state (drv : driver) (page : target) (text : string) :
  total (_check_dropdown_state drv page text).
Proof. unfold _check_dropdown_state. auto with total. Qed.

#[local] Hint Resolve total_write_debug_log total_log_checkpoint
  total_log_debug_checkpoint total_check_dropdown_state : total.

Lemma total_probe_dropdown (drv : driver) (tgt : target) (conditions : list dict) :
  total (probe_dropdown drv tgt conditions).
Proof.
  induction conditions as [| c rest IH]; simpl; auto with total.
Qed.

#[local] Hint Resolve total_probe_dropdown : total.

(** An [IO] block that does not raise, run inside a [Run]. *)
Lemma io_total_run {A} (m : IO A) (h : list event) :
  total m -> exists ev a, io m h = (map Io ev, Ok a).
Proof.
  intro Hm. rewrite io_run. destruct (Hm h) as [ev [a ->]]. simpl. eauto.
Qed.

(** ** Marks *)

Lemma marks_app (a b : list event) : marks (app a b) = app (marks a) (marks b).
Proof. apply filter_app. Qed.

Lemma marks_io (ev : list io_event) : marks (map Io ev) = [].
Proof. induction ev; simpl; auto. Qed.

Create Rewrite HintDb marks.

Lemma marks_nil : marks [] = [].
Proof. reflexivity. Qed.

Lemma marks_cons_mark (e : event) (ev : list event) :
  is_mark e = true -> marks (e :: ev) = e :: marks ev.
Proof. intro H. unfold marks. simpl. now rewrite H. Qed.

Lemma marks_enter (func : string) (args : list value) (ev : list event) :
  marks (Enter func args :: ev) = Enter func args :: marks ev.
Proof. reflexivity. Qed.

Lemma marks_leave (func : string) (r : result value) (ev : list event) :
  marks (Leave func r :: ev) = Leave func r :: marks ev.
Proof. reflexivity. Qed.

Lemma marks_step_log (path : string) (line : value) (ev : list event) :
  marks (AppendStepLog path line :: ev) = AppendStepLog path line :: marks ev.
Proof. reflexivity. Qed.

Lemma marks_cons_io (e : io_event) (ev : list event) :
  marks (Io e :: ev) = marks ev.
Proof. reflexivity. Qed.

#[global] Hint Rewrite marks_app marks_io marks_nil marks_enter marks_leave
  marks_step_log marks_cons_io app_nil_r app_nil_l : marks.

Lemma attempted_app (a b : list event) :
  attempted (app a b) = app (attempted a) (attempted b).
Proof. apply flat_map_app. Qed.

Lemma attempted_marks (ev : list event) : attempted (marks ev) = attempted ev.
Proof.
  induction ev as [| e ev IH]; simpl; auto.
  destruct e; simpl; auto. all: now rewrite IH.
Qed.

Lemma entered_marks (func : string) (ev : list event) :
  entered func (marks ev) = entered func ev.
Proof.
  induction ev as [| e ev IH]; simpl; auto.
  destruct e; simpl; auto. all: now rewrite IH.
Qed.

Lemma In_marks (e : event) (ev : list event) :
  is_mark e = true -> (In e (marks ev) <-> In e ev).
Proof. intro H. unfold marks. rewrite filter_In. tauto. Qed.

(** Runs an [IO] block that does not raise. *)
Ltac io_block :=
  match goal with
  | |- context [io ?m ?hist] =>
      let ev := fresh "ev" in
      let a := fresh "a" in
      let Heq := fresh "Heq" in
      destruct (io_total_run m hist) as [ev [a Heq]];
      [auto 10 with total | rewrite Heq; clear Heq; cbv beta iota]
  end.

(** Runs a traced stage and splits on its result. *)
Ltac stage_block :=
  rewrite traced_io_run;
  match goal with
  | |- context [snd (?body ?hist)] =>
      let ev := fresh "ev" in
      let v := fresh "v" in
      let e := fresh "e" in
      destruct (body hist) as [ev [v | e]]
  end; simpl fst; simpl snd; cbv iota.

End RunFacts.


(** * Facts about the click transaction *)

Module TransactionFacts.
Import Runner Trace Verdict RunFacts Examples MoreExamples.
Local Open Scope run_scope.

#[local] Hint Resolve total_ret total_swallow total_clock total_if
  total_write_debug_log total_log_checkpoint total_log_debug_checkpoint
  total_check_dropdown_state total_probe_dropdown : total.
#[local] Hint Extern 2 (total (bind _ _)) =>
  apply total_bind_io; [| intro] : total.

(** ** The errors of the attempts *)

Lemma raised_in_marks (ev : list event) : raised_in (marks ev) = raised_in ev.
Proof.
  induction ev as [| e ev IH]; auto.
  destruct e; unfold marks; simpl; fold (marks ev); auto.
  - destruct (String.eqb func "_pre_stabilize"); auto.
  - destruct res as [v | x]; auto.
    destruct (_ || _); auto.
Qed.

Lemma attempt_errors_marks (ev : list event) :
  attempt_errors (marks ev) = attempt_errors ev.
Proof.
  induction ev as [| e ev IH]; auto.
  destruct e; unfold marks; simpl; fold (marks ev); auto.
  destruct (String.eqb func "_pre_stabilize"); auto.
  now rewrite raised_in_marks, IH.
Qed.

Lemma shape_errors (sel : string) (conds : list dict) (a : attempt_shape)
      (rest : list event) :
  fresh rest ->
  attempt_errors (app (shape_marks sel conds a) rest)
  = shape_raise a :: attempt_errors rest.
Proof.
  intro Hf.
  assert (Hr : raised_in rest = None).
  { destruct rest as [| e rest]; [reflexivity |]. simpl in *. now rewrite Hf. }
  destruct a as [e | v e | v m | v m e | v m b info]; simpl; rewrite ?Hr; reflexivity.
Qed.

Lemma fresh_attempts (sel : string) (conds : list dict) (shapes : list attempt_shape)
      (rest : list event) :
  fresh rest -> fresh (app (attempts_marks sel conds shapes) rest).
Proof.
  intro Hf. destruct shapes as [| a shapes]; [exact Hf |].
  destruct a; reflexivity.
Qed.

Lemma attempts_errors (sel : string) (conds : list dict) (shapes : list attempt_shape)
      (rest : list event) :
  fresh rest ->
  attempt_errors (app (attempts_marks sel conds shapes) rest)
  = app (map shape_raise shapes) (attempt_errors rest).
Proof.
  intro Hf. unfold attempts_marks.
  induction shapes as [| a shapes IH]; [reflexivity |].
  simpl. rewrite <- app_assoc, shape_errors, IH; [reflexivity |].
  now apply (fresh_attempts sel conds shapes rest).
Qed.

Lemma fresh_groups (conds : list dict) (selectors : list string) :
  forall groups, fresh (groups_marks selectors conds groups).
Proof.
  induction selectors as [| sel rest IH]; intros [| g groups]; simpl; auto.
  apply fresh_attempts, IH.
Qed.

Lemma groups_errors (conds : list dict) (selectors : list string) :
  forall groups,
    length groups = length selectors ->
    attempt_errors (groups_marks selectors conds groups)
    = map shape_raise (concat groups).
Proof.
  induction selectors as [| sel rest IH]; intros [| g groups] Hlen;
    simpl in *; try discriminate; auto.
  injection Hlen as Hlen.
  rewrite attempts_errors by apply fresh_groups.
  now rewrite IH, map_app.
Qed.

(** ** What is recorded *)

Lemma recorded_cons (n k : nat) (x : option exn) (rest : list (option exn))
      (le : option exn) :
  recorded n k (x :: rest) le
  = if (S k =? n)%nat then recorded n O rest (keep x le)
    else recorded n (S k) rest le.
Proof. reflexivity. Qed.

Lemma final_raise_cons (a b : attempt_shape) (g : list attempt_shape) :
  final_raise (a :: b :: g) = final_raise (b :: g).
Proof.
  unfold final_raise. simpl rev.
  destruct (rev g) as [| c l]; simpl; [reflexivity |].
  destruct (app l [b]); reflexivity.
Qed.

Lemma recorded_group (n : nat) (g : list attempt_shape) :
  forall (k : nat) (rest : list (option exn)) (le : option exn),
    g <> [] -> (k + length g = n)%nat ->
    recorded n k (app (map shape_raise g) rest) le
    = recorded n O rest (keep (final_raise g) le).
Proof.
  induction g as [| a g IH]; intros k rest le Hne Hlen; [congruence |].
  simpl in Hlen. simpl map. simpl app. rewrite recorded_cons.
  destruct g as [| b g].
  - simpl in Hlen.
    assert (Hk : (S k =? n)%nat = true) by (apply Nat.eqb_eq; lia).
    rewrite Hk. reflexivity.
  - assert (Hk : (S k =? n)%nat = false) by (apply Nat.eqb_neq; simpl in Hlen; lia).
    rewrite Hk. rewrite IH; [| discriminate | simpl in *; lia].
    now rewrite final_raise_cons.
Qed.

Lemma last_click_app (a b : list event) (r : result value) :
  last_click b = Some r -> last_click (app a b) = Some r.
Proof.
  intro H. induction a as [| x a IH]; simpl; [exact H |]. now rewrite IH.
Qed.

Lemma last_click_marks (ev : list event) : last_click (marks ev) = last_click ev.
Proof.
  induction ev as [| x ev IH]; [reflexivity |].
  destruct (is_mark x) eqn:Hx.
  - rewrite (marks_cons_mark x ev Hx). simpl. now rewrite IH.
  - assert (Hm : marks (x :: ev) = marks ev)
      by (unfold marks; simpl; now rewrite Hx).
    rewrite Hm, IH. destruct x; try discriminate Hx. simpl.
    now destruct (last_click ev).
Qed.

Lemma last_click_passed (sel : string) (conds : list dict) (a : attempt_shape) :
  shape_passed a = true ->
  last_click (shape_marks sel conds a) = Some (Ok (method_of a)).
Proof.
  destruct a as [e | v e | v m | v m e | v m b info]; simpl; try discriminate.
  - reflexivity.
  - destruct b; [reflexivity | discriminate].
Qed.

Lemma last_click_attempts (sel : string) (conds : list dict)
      (pre : list attempt_shape) (a : attempt_shape) :
  shape_passed a = true ->
  last_click (attempts_marks sel conds (app pre [a])) = Some (Ok (method_of a)).
Proof.
  intro Ha. unfold attempts_marks. rewrite flat_map_app. apply last_click_app.
  simpl. rewrite app_nil_r. now apply last_click_passed.
Qed.

Lemma retry_outcome_cons (n : nat) (a : attempt_shape) (shapes : list attempt_shape)
      (le : option exn) (r : option (bool * value) * option exn) :
  (1 <= n)%nat -> failed_attempt a ->
  retry_outcome n shapes le r -> retry_outcome (S n) (a :: shapes) le r.
Proof.
  intros Hn Ha [[pre [b [-> [Hpre [Hb ->]]]]] | [Hall [Hlen ->]]].
  - left. exists (a :: pre), b. repeat split; auto.
  - right. split; [constructor; auto |]. split; [simpl; lia |].
    destruct shapes as [| b shapes]; [simpl in Hlen; lia |].
    now rewrite final_raise_cons.
Qed.

Section Transaction.
Variable drv : driver.
Variable self : transaction.

Lemma marks_stage (func : string) (args : list value) (r : result value)
      (ev : list io_event) :
  marks (Enter func args :: app (map Io ev) [Leave func r]) = stage_marks func args r.
Proof.
  unfold stage_marks. change (Enter func args :: app (map Io ev) [Leave func r])
    with (app [Enter func args] (app (map Io ev) [Leave func r])).
  rewrite !marks_app, marks_io. reflexivity.
Qed.

(** One pass through the body of the retry loop has one of five shapes. *)
Lemma attempt_body_shape (tgt : target) (sel : string) (conds : list dict)
      (max_retries attempt : Z) (h : list event) (ev : list event)
      (r : result attempt_exit) :
  attempt_body drv self tgt sel conds max_retries attempt h = (ev, r) ->
  exists a,
    marks ev = shape_marks sel conds a
    /\ r = shape_exit max_retries attempt a
    /\ well_shaped conds a.
Proof.
  unfold attempt_body. rewrite bind_run.
  unfold _pre_stabilize. stage_block.
  2: { intro E. inversion E; subst. exists (PreRaised e).
       split; [| split; [reflexivity | exact I]].
       autorewrite with marks. reflexivity. }
  rewrite bind_run.
  unfold _execute_click_multi_strategy. stage_block.
  2: { intro E. inversion E; subst. exists (ClickRaised v e).
       split; [| split; [reflexivity | exact I]].
       autorewrite with marks. reflexivity. }
  rewrite bind_run. io_block.
  destruct conds as [| c conds'].
  - rewrite bind_run. io_block. unfold ret.
    intro E. inversion E; subst. exists (Clicked v v0).
    split; [| split; reflexivity].
    autorewrite with marks. reflexivity.
  - rewrite bind_run. io_block. rewrite bind_run.
    unfold _evaluate_success_conditions. stage_block.
    2: { intro E. inversion E; subst. exists (EvalRaised v v0 e).
         split; [| split; [reflexivity | discriminate]].
         autorewrite with marks. reflexivity. }
    destruct v1 as [success info].
    rewrite bind_run. io_block.
    destruct success.
    + rewrite bind_run. io_block. unfold ret.
      intro E. inversion E; subst. exists (Evaluated v v0 true info).
      split; [| split; [reflexivity | discriminate]].
      autorewrite with marks. reflexivity.
    + destruct (attempt <? max_retries) eqn:Hlt.
      * rewrite bind_run. io_block. unfold ret.
        intro E. inversion E; subst. exists (Evaluated v v0 false info).
        split; [| split; [simpl; now rewrite Hlt | discriminate]].
        autorewrite with marks. reflexivity.
      * rewrite bind_run. io_block. unfold ret.
        intro E. inversion E; subst. exists (Evaluated v v0 false info).
        split; [| split; [simpl; now rewrite Hlt | discriminate]].
        autorewrite with marks. reflexivity.
Qed.

Lemma shape_exit_cases (max_retries attempt : Z) (a : attempt_shape) :
  (exists e, shape_raise a = Some e /\ shape_passed a = false
             /\ shape_exit max_retries attempt a = Raise e)
  \/ (shape_passed a = true
      /\ shape_exit max_retries attempt a = Ok (Returns (true, method_of a)))
  \/ (shape_passed a = false /\ shape_raise a = None
      /\ shape_exit max_retries attempt a
         = Ok (if attempt <? max_retries then Continue else Break)).
Proof.
  destruct a as [e | v e | v m | v m e | v m [|] info]; simpl; eauto 10.
Qed.

Lemma loop_result_nil (le : option exn) : loop_result [] le (None, le).
Proof. right. split; [constructor |]. eauto. Qed.

Lemma loop_result_passed (a : attempt_shape) (le : option exn) :
  shape_passed a = true -> loop_result [a] le (Some (true, method_of a), le).
Proof.
  intro H. left. exists [], a, le. repeat split; auto.
Qed.

Lemma loop_result_failed_last (a : attempt_shape) (le : option exn) :
  shape_passed a = false -> loop_result [a] le (None, le).
Proof.
  intro H. right. split; [repeat constructor; auto |]. eauto.
Qed.

Lemma loop_result_raised_last (a : attempt_shape) (e : exn) (le : option exn) :
  shape_passed a = false -> shape_raise a = Some e ->
  loop_result [a] le (None, Some e).
Proof.
  intros H He. right. split; [repeat constructor; auto |].
  eexists. split; [reflexivity |]. right. exists a, e. simpl. auto.
Qed.

(** A failed attempt in front of a loop. *)
Lemma loop_result_cons (a : attempt_shape) (shapes : list attempt_shape)
      (le : option exn) (r : option (bool * value) * option exn) :
  shape_passed a = false -> loop_result shapes le r -> loop_result (a :: shapes) le r.
Proof.
  intros Ha [[pre [b [le' [-> [Hpre [Hb ->]]]]]] | [Hall [le' [-> Hle]]]].
  - left. exists (a :: pre), b, le'. repeat split; auto.
  - right. split; [constructor; auto |].
    exists le'. split; [reflexivity |].
    destruct Hle as [-> | [b [e [Hin [He ->]]]]]; auto.
    right. exists b, e. simpl. auto.
Qed.

(** The retry loop: at most [n] attempts, all failed but possibly the
    last. *)
Lemma retry_loop_shape (tgt : target) (sel : string) (conds : list dict)
      (max_retries : Z) (n : nat) :
  forall (attempt : Z) (le : option exn) (h ev : list event)
         (r : result (option (bool * value) * option exn)),
    retry_loop drv self tgt sel conds max_retries n attempt le h = (ev, r) ->
    exists shapes r',
      marks ev = attempts_marks sel conds shapes
      /\ (length shapes <= n)%nat
      /\ Forall (well_shaped conds) shapes
      /\ r = Ok r'
      /\ loop_result shapes le r'.
Proof.
  induction n as [| n IH]; intros attempt le h ev r; simpl.
  - unfold ret. intro E. inversion E; subst.
    exists [], (None, le). repeat split; auto using loop_result_nil.
  - rewrite bind_run. unfold try_ at 1.
    destruct (attempt_body drv self tgt sel conds max_retries attempt h)
      as [evb rb] eqn:Eb.
    apply attempt_body_shape in Eb. destruct Eb as [a [Hm [-> Hw]]].
    destruct (shape_exit_cases max_retries attempt a)
      as [[e [He [Hf ->]]] | [[Hp ->] | [Hf [Hn ->]]]].
    + destruct (attempt <? max_retries).
      * rewrite bind_run. io_block.
        destruct (retry_loop drv self tgt sel conds max_retries n (attempt + 1) le _)
          as [ev' r'] eqn:Er.
        apply IH in Er. destruct Er as [shapes [r'' [Hm' [Hlen [Hws [-> Hres]]]]]].
        intro E. inversion E; subst.
        exists (a :: shapes), r''. repeat split; auto.
        -- autorewrite with marks. unfold attempts_marks in *. simpl.
           now rewrite Hm, Hm'.
        -- simpl. lia.
        -- now apply loop_result_cons.
      * unfold ret. intro E. inversion E; subst.
        exists [a], (None, Some e). repeat split; auto.
        -- autorewrite with marks. unfold attempts_marks. simpl.
           now rewrite Hm, app_nil_r.
        -- simpl. lia.
        -- now apply loop_result_raised_last.
    + unfold ret. intro E. inversion E; subst.
      exists [a], (Some (true, method_of a), le). repeat split; auto.
      * autorewrite with marks. unfold attempts_marks. simpl.
        now rewrite Hm, app_nil_r.
      * simpl. lia.
      * now apply loop_result_passed.
    + destruct (attempt <? max_retries).
      * destruct (retry_loop drv self tgt sel conds max_retries n (attempt + 1) le _)
          as [ev' r'] eqn:Er.
        apply IH in Er. destruct Er as [shapes [r'' [Hm' [Hlen [Hws [-> Hres]]]]]].
        intro E. inversion E; subst.
        exists (a :: shapes), r''. repeat split; auto.
        -- autorewrite with marks. unfold attempts_marks in *. simpl.
           now rewrite Hm, Hm'.
        -- simpl. lia.
        -- now apply loop_result_cons.
      * unfold ret. intro E. inversion E; subst.
        exists [a], (None, le). repeat split; auto.
        -- autorewrite with marks. unfold attempts_marks. simpl.
           now rewrite Hm, app_nil_r.
        -- simpl. lia.
        -- now apply loop_result_failed_last.
Qed.

Lemma concat_nils {A B} (l : list B) : concat (map (fun _ => @nil A) l) = [].
Proof. induction l; simpl; auto. Qed.

Lemma Forall_nils {B} (k : nat) (l : list B) :
  Forall (fun g : list attempt_shape => (length g <= k)%nat) (map (fun _ => []) l).
Proof. induction l; simpl; constructor; simpl; auto. lia. Qed.

Lemma groups_marks_nils (selectors : list string) (conds : list dict) :
  groups_marks selectors conds (map (fun _ => []) selectors) = [].
Proof. induction selectors; simpl; auto. Qed.

(** Failed attempts in front of a loop that starts from what they left. *)
Lemma loop_result_app (shapes shapes' : list attempt_shape) (le le1 : option exn)
      (r : option (bool * value) * option exn) :
  loop_result shapes le (None, le1) -> loop_result shapes' le1 r ->
  loop_result (app shapes shapes') le r.
Proof.
  intros [[pre [a [le' [_ [_ [_ Hr]]]]]] | [Hall [le' [Hr Hle]]]]; [discriminate |].
  injection Hr as <-.
  intros [[pre [a [le2 [-> [Hpre [Ha ->]]]]]] | [Hall2 [le2 [-> Hle2]]]].
  - left. exists (app shapes pre), a, le2. rewrite app_assoc.
    repeat split; auto. apply Forall_app. auto.
  - right. split; [apply Forall_app; auto |].
    exists le2. split; [reflexivity |].
    destruct Hle2 as [-> | [a [e [Hin [He ->]]]]].
    + destruct Hle as [-> | [a [e [Hin [He ->]]]]]; auto.
      right. exists a, e. rewrite in_app_iff. auto.
    + right. exists a, e. rewrite in_app_iff. auto.
Qed.

(** The loop over the candidates: one group of attempts per candidate,
    empty for the candidates that were not reached. *)
Lemma selectors_loop_shape (tgt : target) (conds : list dict) (max_retries : Z)
      (selectors : list string) :
  forall (le : option exn) (h ev : list event)
         (r : result (option (bool * value) * option exn)),
    selectors_loop drv self tgt selectors conds max_retries le h = (ev, r) ->
    exists groups r',
      marks ev = groups_marks selectors conds groups
      /\ length groups = length selectors
      /\ Forall (fun g => (length g <= Z.to_nat (max_retries + 1))%nat) groups
      /\ Forall (well_shaped conds) (concat groups)
      /\ r = Ok r'
      /\ loop_result (concat groups) le r'.
Proof.
  induction selectors as [| sel rest IH]; intros le h ev r; simpl.
  - unfold ret. intro E. inversion E; subst.
    exists [], (None, le). repeat split; auto using loop_result_nil.
  - rewrite bind_run, catch_run.
    destruct (retry_loop drv self tgt sel conds max_retries
                         (Z.to_nat (max_retries + 1)) 0 le h) as [ev1 r1] eqn:E1.
    apply retry_loop_shape in E1.
    destruct E1 as [shapes [r1' [Hm [Hlen [Hws [-> Hres]]]]]].
    destruct r1' as [[v |] le1].
    + unfold ret. intro E. inversion E; subst.
      exists (shapes :: map (fun _ => []) rest), (Some v, le1).
      split; [| split; [| split; [| split; [| split]]]].
      * autorewrite with marks. simpl. now rewrite Hm, groups_marks_nils, app_nil_r.
      * simpl. now rewrite length_map.
      * constructor; auto. apply Forall_nils.
      * simpl. now rewrite concat_nils, app_nil_r.
      * reflexivity.
      * simpl. now rewrite concat_nils, app_nil_r.
    + destruct (selectors_loop drv self tgt rest conds max_retries le1 _)
        as [ev2 r2] eqn:E2.
      apply IH in E2.
      destruct E2 as [groups [r2' [Hm2 [Hlen2 [Hb2 [Hws2 [-> Hres2]]]]]]].
      intro E. inversion E; subst.
      exists (shapes :: groups), r2'.
      split; [| split; [| split; [| split; [| split]]]].
      * autorewrite with marks. simpl. now rewrite Hm, Hm2.
      * simpl. now rewrite Hlen2.
      * constructor; auto.
      * simpl. apply Forall_app. auto.
      * reflexivity.
      * simpl. eapply loop_result_app; eauto.
Qed.

(** The whole transaction. *)
Lemma execute_click_transaction_shape (tgt : target) (selector : selector_arg)
      (success_conditions : option (list dict)) (max_retries : Z)
      (h ev : list event) (res : result (bool * value)) :
  execute_click_transaction drv self tgt selector success_conditions max_retries h
  = (ev, res) ->
  exists groups r',
    marks ev = groups_marks (selectors_of selector) (conditions_of success_conditions)
                            groups
    /\ length groups = length (selectors_of selector)
    /\ Forall (fun g => (length g <= Z.to_nat (max_retries + 1))%nat) groups
    /\ Forall (well_shaped (conditions_of success_conditions)) (concat groups)
    /\ loop_result (concat groups) None r'
    /\ res = match r' with
             | (Some v, _) => Ok v
             | (None, Some last_error) => Raise last_error
             | (None, None) => Ok (false, VStr "unknown")
             end.
Proof.
  unfold execute_click_transaction. rewrite bind_run.
  fold (selectors_of selector). fold (conditions_of success_conditions).
  destruct (selectors_loop drv self tgt (selectors_of selector)
                           (conditions_of success_conditions) max_retries None h)
    as [ev1 r1] eqn:E1.
  apply selectors_loop_shape in E1.
  destruct E1 as [groups [r' [Hm [Hlen [Hb [Hws [-> Hres]]]]]]].
  intro E. exists groups, r'.
  destruct r' as [[v |] [e |]]; unfold ret, raise in E; inversion E; subst;
    autorewrite with marks; repeat split; auto.
Qed.

(** ** What the marks of the attempts show *)

Lemma attempted_shape (sel : string) (conds : list dict) (a : attempt_shape) :
  attempted (shape_marks sel conds a) = [sel].
Proof. destruct a; reflexivity. Qed.

Lemma attempted_attempts (sel : string) (conds : list dict)
      (shapes : list attempt_shape) :
  attempted (attempts_marks sel conds shapes) = repeat sel (length shapes).
Proof.
  unfold attempts_marks.
  induction shapes as [| a shapes IH]; simpl; auto.
  now rewrite attempted_app, attempted_shape, IH.
Qed.

Lemma attempted_groups (conds : list dict) (selectors : list string) :
  forall groups,
    attempted (groups_marks selectors conds groups)
    = blocks selectors (map (@length attempt_shape) groups).
Proof.
  induction selectors as [| sel rest IH]; intros [| g groups]; simpl; auto.
  now rewrite attempted_app, attempted_attempts, IH.
Qed.

Lemma blocks_length (bound : nat) (selectors : list string) :
  forall counts,
    Forall (fun k => (k <= bound)%nat) counts ->
    (length (blocks selectors counts) <= length selectors * bound)%nat.
Proof.
  induction selectors as [| sel rest IH]; intros [| k counts] Hb; simpl; try lia.
  inversion Hb; subst. rewrite length_app, repeat_length.
  specialize (IH counts H2). lia.
Qed.

Lemma leave_is_mark (e : event) : is_leave e = true -> is_mark e = true.
Proof. destruct e; simpl; auto. Qed.

Lemma In_shape_leaves (sel : string) (conds : list dict) (a : attempt_shape)
      (e : event) :
  is_leave e = true -> (In e (shape_marks sel conds a) <-> In e (shape_leaves a)).
Proof.
  intro Hl. destruct e; try discriminate.
  destruct a; simpl; intuition congruence.
Qed.

Lemma In_attempts_leaves (sel : string) (conds : list dict)
      (shapes : list attempt_shape) (e : event) :
  is_leave e = true ->
  (In e (attempts_marks sel conds shapes)
   <-> exists a, In a shapes /\ In e (shape_leaves a)).
Proof.
  intro Hl. unfold attempts_marks. rewrite in_flat_map.
  split; intros [a [Hin He]]; exists a; split; auto;
    now apply (In_shape_leaves sel conds a e Hl).
Qed.

Lemma In_groups_leaves (conds : list dict) (selectors : list string) (e : event) :
  is_leave e = true ->
  forall groups,
    length groups = length selectors ->
    (In e (groups_marks selectors conds groups)
     <-> exists a, In a (concat groups) /\ In e (shape_leaves a)).
Proof.
  intro Hl.
  induction selectors as [| sel rest IH]; intros [| g groups] Hlen;
    simpl in *; try discriminate.
  - split; [contradiction | intros [a [[] _]]].
  - injection Hlen as Hlen. rewrite in_app_iff, (IH groups Hlen).
    rewrite (In_attempts_leaves sel conds g e Hl).
    split.
    + intros [[a [Hin He]] | [a [Hin He]]]; exists a; rewrite in_app_iff; auto.
    + intros [a [Hin He]]. rewrite in_app_iff in Hin.
      destruct Hin; [left | right]; eauto.
Qed.

Lemma entered_app (func : string) (a b : list event) :
  entered func (app a b) = entered func a || entered func b.
Proof. apply existsb_app. Qed.

Lemma not_evaluated_groups (selectors : list string) :
  forall groups,
    Forall (well_shaped []) (concat groups) ->
    entered "_evaluate_success_conditions" (groups_marks selectors [] groups) = false.
Proof.
  induction selectors as [| sel rest IH]; intros [| g groups] Hws; simpl; auto.
  simpl in Hws. apply Forall_app in Hws. destruct Hws as [Hg Hrest].
  rewrite entered_app, (IH groups Hrest), Bool.orb_false_r.
  clear - Hg. unfold attempts_marks.
  induction Hg as [| a g Ha Hg IH]; simpl; auto.
  rewrite entered_app, IH, Bool.orb_false_r.
  destruct a; simpl in Ha; try congruence; reflexivity.
Qed.

(** A passed attempt is the last one of its loop. *)
Lemma loop_result_passed_inv (shapes : list attempt_shape) (le : option exn)
      (r : option (bool * value) * option exn) (a : attempt_shape) :
  loop_result shapes le r -> In a shapes -> shape_passed a = true ->
  exists le', r = (Some (true, method_of a), le').
Proof.
  intros [[pre [b [le' [-> [Hpre [Hb ->]]]]]] | [Hall _]] Hin Hp.
  - apply in_app_iff in Hin. destruct Hin as [Hin | [<- | []]]; eauto.
    rewrite Forall_forall in Hpre. specialize (Hpre a Hin). congruence.
  - rewrite Forall_forall in Hall. specialize (Hall a Hin). congruence.
Qed.

Lemma passed_leaves (conds : list dict) (a : attempt_shape) :
  well_shaped conds a ->
  (attempt_passed conds (shape_leaves a) <-> shape_passed a = true).
Proof.
  intro Hw. unfold attempt_passed.
  destruct conds as [| c conds].
  - destruct a as [e | v e | v m | v m e | v m b info]; simpl in *;
      try congruence.
    + split; [intros [m [H | []]]; discriminate | discriminate].
    + split; [intros [m [H | [H | []]]]; discriminate | discriminate].
    + split; auto. intros _. exists m. simpl. auto.
  - destruct a as [e | v e | v m | v m e | v m b info]; simpl in *;
      try discriminate.
    + split; [intros [m [H | []]]; discriminate | discriminate].
    + split; [intros [m [H | [H | []]]]; discriminate | discriminate].
    + split; [intros [i [H | [H | [H | []]]]]; discriminate | discriminate].
    + destruct b; simpl.
      * split; auto. intros _. exists info. simpl. auto.
      * split; [| discriminate].
        intros [i [H | [H | [H | []]]]]; discriminate.
Qed.

Lemma attempt_passed_In (conds : list dict) (ev : list event) :
  attempt_passed conds ev
  <-> exists e, In e ev /\ is_leave e = true /\ attempt_passed conds [e].
Proof.
  unfold attempt_passed. destruct conds as [| c conds].
  - split.
    + intros [m Hin]. eexists. split; [exact Hin |]. split; [reflexivity |].
      exists m. simpl. auto.
    + intros [e [Hin [_ [m [He | []]]]]]. subst e. eauto.
  - split.
    + intros [i Hin]. eexists. split; [exact Hin |]. split; [reflexivity |].
      exists i. simpl. auto.
    + intros [e [Hin [_ [i [He | []]]]]]. subst e. eauto.
Qed.

(** Some attempt went through exactly when the trace shows it. *)
Lemma attempt_passed_groups (conds : list dict) (selectors : list string)
      (groups : list (list attempt_shape)) (ev : list event) :
  marks ev = groups_marks selectors conds groups ->
  length groups = length selectors ->
  Forall (well_shaped conds) (concat groups) ->
  (attempt_passed conds ev
   <-> exists a, In a (concat groups) /\ shape_passed a = true).
Proof.
  intros Hm Hlen Hws. rewrite Forall_forall in Hws.
  rewrite attempt_passed_In. split.
  - intros [e [Hin [Hl Hp]]].
    assert (Hin' : In e (marks ev))
      by exact (proj2 (In_marks e ev (leave_is_mark e Hl)) Hin).
    rewrite Hm in Hin'. apply (In_groups_leaves conds selectors e Hl) in Hin'; auto.
    destruct Hin' as [a [Ha He]]. exists a. split; auto.
    apply (passed_leaves conds a (Hws a Ha)).
    apply attempt_passed_In. eauto.
  - intros [a [Ha Hp]].
    apply (passed_leaves conds a (Hws a Ha)) in Hp.
    apply attempt_passed_In in Hp. destruct Hp as [e [Hin [Hl Hp]]].
    exists e. split; [| auto].
    assert (Hin' : In e (marks ev)).
    { rewrite Hm. apply (In_groups_leaves conds selectors e Hl); eauto. }
    exact (proj1 (In_marks e ev (leave_is_mark e Hl)) Hin').
Qed.

Lemma raised_leaves (a : attempt_shape) (e : exn) :
  shape_raise a = Some e -> stage_raised e (shape_leaves a).
Proof.
  unfold stage_raised.
  destruct a; simpl; intro H; inversion H; subst.
  - exists "_pre_stabilize". simpl. auto.
  - exists "_execute_click_multi_strategy". simpl. auto.
  - exists "_evaluate_success_conditions". simpl. auto 6.
Qed.


(** ** What the loops record *)

Lemma retry_loop_exact (tgt : target) (sel : string) (conds : list dict)
      (max_retries : Z) (n : nat) :
  forall (attempt : Z) (le : option exn) (h ev : list event)
         (r : result (option (bool * value) * option exn)),
    n = O \/ Z.of_nat n + attempt = max_retries + 1 ->
    retry_loop drv self tgt sel conds max_retries n attempt le h = (ev, r) ->
    exists shapes r',
      marks ev = attempts_marks sel conds shapes
      /\ Forall (well_shaped conds) shapes
      /\ r = Ok r'
      /\ retry_outcome n shapes le r'.
Proof.
  induction n as [| n IH]; intros attempt le h ev r Hinv; simpl.
  - unfold ret. intro E. inversion E; subst.
    exists [], (None, le). repeat split; auto. right. repeat split; auto.
  - destruct Hinv as [Hinv | Hinv]; [discriminate |].
    assert (Hturn : if attempt <? max_retries then (1 <= n)%nat else n = O).
    { destruct (attempt <? max_retries) eqn:Hlt.
      - apply Z.ltb_lt in Hlt. lia.
      - apply Z.ltb_ge in Hlt. lia. }
    assert (Hnext : n = O \/ Z.of_nat n + (attempt + 1) = max_retries + 1)
      by (right; lia).
    rewrite bind_run. unfold try_ at 1.
    destruct (attempt_body drv self tgt sel conds max_retries attempt h)
      as [evb rb] eqn:Eb.
    apply attempt_body_shape in Eb. destruct Eb as [a [Hm [-> Hw]]].
    destruct (shape_exit_cases max_retries attempt a)
      as [[e [He [Hf ->]]] | [[Hp ->] | [Hf [Hn ->]]]].
    + destruct (attempt <? max_retries).
      * rewrite bind_run. io_block.
        destruct (retry_loop drv self tgt sel conds max_retries n (attempt + 1) le _)
          as [ev' r'] eqn:Er.
        apply (IH _ _ _ _ _ Hnext) in Er.
        destruct Er as [shapes [r'' [Hm' [Hws [-> Hres]]]]].
        intro E. inversion E; subst.
        exists (a :: shapes), r''. repeat split; auto.
        -- autorewrite with marks. unfold attempts_marks in *. simpl.
           now rewrite Hm, Hm'.
        -- now apply retry_outcome_cons.
      * unfold ret. intro E. inversion E; subst.
        exists [a], (None, Some e). repeat split; auto.
        -- autorewrite with marks. unfold attempts_marks. simpl.
           now rewrite Hm, app_nil_r.
        -- right. split; [repeat constructor; exact Hf |]. split; [reflexivity |].
           unfold final_raise. simpl. now rewrite He.
    + unfold ret. intro E. inversion E; subst.
      exists [a], (Some (true, method_of a), le). repeat split; auto.
      * autorewrite with marks. unfold attempts_marks. simpl.
        now rewrite Hm, app_nil_r.
      * left. exists [], a. repeat split; auto.
    + destruct (attempt <? max_retries).
      * destruct (retry_loop drv self tgt sel conds max_retries n (attempt + 1) le _)
          as [ev' r'] eqn:Er.
        apply (IH _ _ _ _ _ Hnext) in Er.
        destruct Er as [shapes [r'' [Hm' [Hws [-> Hres]]]]].
        intro E. inversion E; subst.
        exists (a :: shapes), r''. repeat split; auto.
        -- autorewrite with marks. unfold attempts_marks in *. simpl.
           now rewrite Hm, Hm'.
        -- now apply retry_outcome_cons.
      * unfold ret. intro E. inversion E; subst.
        exists [a], (None, le). repeat split; auto.
        -- autorewrite with marks. unfold attempts_marks. simpl.
           now rewrite Hm, app_nil_r.
        -- right. split; [repeat constructor; exact Hf |]. split; [reflexivity |].
           unfold final_raise. simpl. now rewrite Hn.
Qed.

(** The loop over the candidates: an attempt went through and its method is
    returned, or all failed and [last_error] is what the final attempts of
    the candidates left. *)
Lemma selectors_loop_exact (tgt : target) (conds : list dict) (max_retries : Z)
      (selectors : list string) :
  forall (le : option exn) (h ev : list event)
         (r : result (option (bool * value) * option exn)),
    selectors_loop drv self tgt selectors conds max_retries le h = (ev, r) ->
    exists groups r',
      marks ev = groups_marks selectors conds groups
      /\ length groups = length selectors
      /\ Forall (well_shaped conds) (concat groups)
      /\ r = Ok r'
      /\ ((exists a le',
              In a (concat groups) /\ shape_passed a = true
              /\ last_click (groups_marks selectors conds groups)
                 = Some (Ok (method_of a))
              /\ r' = (Some (true, method_of a), le'))
          \/ (Forall failed_attempt (concat groups)
              /\ r' = (None, recorded (Z.to_nat (max_retries + 1)) O
                                      (map shape_raise (concat groups)) le))).
Proof.
  induction selectors as [| sel rest IH]; intros le h ev r; simpl.
  - unfold ret. intro E. inversion E; subst.
    exists [], (None, le). repeat split; auto.
  - rewrite bind_run, catch_run.
    destruct (retry_loop drv self tgt sel conds max_retries
                         (Z.to_nat (max_retries + 1)) 0 le h) as [ev1 r1] eqn:E1.
    apply retry_loop_exact in E1; [| lia].
    destruct E1 as [shapes [r1' [Hm [Hws [-> Hres]]]]].
    destruct Hres as [[pre [a [-> [Hpre [Ha ->]]]]] | [Hall [Hlen ->]]].
    + unfold ret. intro E. inversion E; subst.
      exists (app pre [a] :: map (fun _ => []) rest), (Some (true, method_of a), le).
      split; [| split; [| split; [| split]]].
      * autorewrite with marks. simpl. now rewrite Hm, groups_marks_nils, app_nil_r.
      * simpl. now rewrite length_map.
      * simpl. now rewrite concat_nils, app_nil_r.
      * reflexivity.
      * left. exists a, le. simpl. rewrite concat_nils, app_nil_r, in_app_iff.
        rewrite groups_marks_nils, app_nil_r.
        repeat split; simpl; auto. now apply last_click_attempts.
    + destruct (selectors_loop drv self tgt rest conds max_retries _ _)
        as [ev2 r2] eqn:E2.
      apply IH in E2.
      destruct E2 as [groups [r2' [Hm2 [Hlen2 [Hws2 [-> Hres2]]]]]].
      intro E. inversion E; subst.
      exists (shapes :: groups), r2'.
      split; [| split; [| split; [| split]]].
      * autorewrite with marks. simpl. now rewrite Hm, Hm2.
      * simpl. now rewrite Hlen2.
      * simpl. apply Forall_app. auto.
      * reflexivity.
      * destruct Hres2 as [[a [le' [Hin [Ha [Hlast ->]]]]] | [Hall2 ->]].
        -- left. exists a, le'. simpl. rewrite in_app_iff.
           repeat split; auto. now apply last_click_app.
        -- right. split; [simpl; apply Forall_app; auto |].
           simpl concat. rewrite map_app.
           destruct shapes as [| a shapes]; [reflexivity |].
           rewrite recorded_group; [reflexivity | discriminate | exact Hlen].
Qed.

End Transaction.

(** ** Bounded retries *)

(** C4.  With [max_retries = N] the transaction makes at most [N + 1]
    attempts with one selector candidate before it goes on to the next, the
    attempts of the candidates following each other in the order of the
    list, and at most (number of candidates) x ([N + 1]) attempts in all.
    An attempt is an entry of [_pre_stabilize]; [N + 1] is read as the
    number of turns of [range(N + 1)], which is 0 for a negative [N + 1]. *)
Theorem attempts_bounded (drv : driver) (self : transaction) (tgt : target)
        (selector : selector_arg) (success_conditions : option (list dict))
        (N : Z) (h : list event) :
  let ev := fst (execute_click_transaction drv self tgt selector success_conditions
                                            N h) in
  exists counts,
    length counts = length (selectors_of selector)
    /\ Forall (fun k => (k <= Z.to_nat (N + 1))%nat) counts
    /\ attempted ev = blocks (selectors_of selector) counts
    /\ (length (attempted ev)
        <= length (selectors_of selector) * Z.to_nat (N + 1))%nat.
Proof.
  intro ev. subst ev.
  destruct (execute_click_transaction drv self tgt selector success_conditions N h)
    as [ev res] eqn:E.
  apply execute_click_transaction_shape in E.
  destruct E as [groups [r' [Hm [Hlen [Hb [_ _]]]]]].
  simpl fst. exists (map (@length attempt_shape) groups).
  assert (Hcounts : Forall (fun k => (k <= Z.to_nat (N + 1))%nat)
                           (map (@length attempt_shape) groups)).
  { clear - Hb. induction Hb; simpl; constructor; auto. }
  assert (Hatt : attempted ev
                 = blocks (selectors_of selector) (map (@length attempt_shape) groups)).
  { rewrite <- attempted_marks, Hm. apply attempted_groups. }
  split; [now rewrite length_map |]. split; [assumption |].
  split; [assumption |].
  rewrite Hatt. now apply blocks_length.
Qed.

(** ** No conditions, no evaluation *)

(** With no success conditions the transaction never enters the evaluation
    of success conditions, and it returns [(True, method)] exactly when the
    click strategy of an attempt returned [method], whatever [method] is:
    also [None], which the strategy returns when it has clicked nothing. *)
Lemma no_conditions_no_evaluation (drv : driver) (self : transaction) (tgt : target)
        (selector : selector_arg) (success_conditions : option (list dict))
        (N : Z) (h : list event) :
  conditions_of success_conditions = [] ->
  let run := execute_click_transaction drv self tgt selector success_conditions N h in
  entered "_evaluate_success_conditions" (fst run) = false
  /\ forall method,
      In (Leave "_execute_click_multi_strategy" (Ok method)) (fst run)
      <-> snd run = Ok (true, method).
Proof.
  intros Hnone run. subst run.
  destruct (execute_click_transaction drv self tgt selector success_conditions N h)
    as [ev res] eqn:E.
  apply execute_click_transaction_shape in E.
  destruct E as [groups [r' [Hm [Hlen [_ [Hws [Hres ->]]]]]]].
  rewrite Hnone in *. simpl fst. simpl snd.
  split.
  { rewrite <- entered_marks, Hm. now apply not_evaluated_groups. }
  intro method.
  assert (Hleave : In (Leave "_execute_click_multi_strategy" (Ok method)) ev
                   <-> exists a, In a (concat groups)
                                 /\ In (Leave "_execute_click_multi_strategy" (Ok method))
                                       (shape_leaves a)).
  { rewrite <- (In_groups_leaves [] (selectors_of selector)
                                  (Leave "_execute_click_multi_strategy" (Ok method))
                                  eq_refl groups Hlen).
    rewrite <- Hm. symmetry. now apply In_marks. }
  rewrite Hleave. rewrite Forall_forall in Hws.
  split.
  - intros [a [Ha Hin]].
    assert (Hshape : shape_passed a = true /\ method_of a = method).
    { specialize (Hws a Ha).
      destruct a; simpl in Hws, Hin; try congruence;
        repeat (destruct Hin as [Hin | Hin]; try discriminate; try contradiction).
      inversion Hin. auto. }
    destruct Hshape as [Hp <-].
    destruct (loop_result_passed_inv _ _ _ a Hres Ha Hp) as [le' ->]. reflexivity.
  - intro Heq.
    destruct Hres as [[pre [a [le' [Hc [Hpre [Ha ->]]]]]] | [Hall [le' [-> Hle]]]].
    + injection Heq as <-.
      assert (Hin : In a (concat groups)) by (rewrite Hc, in_app_iff; simpl; auto).
      exists a. split; auto. specialize (Hws a Hin).
      destruct a; simpl in Hws, Ha; try congruence. simpl. auto.
    + destruct le'; discriminate.
Qed.

Lemma no_conditions_no_evaluation_witness :
  conditions_of None = []
  /\ (let run := execute_click_transaction always_ok click_transaction (Page 0)
                                            (One "#a") None 2 [] in
      entered "_evaluate_success_conditions" (fst run) = false
      /\ forall method,
          In (Leave "_execute_click_multi_strategy" (Ok method)) (fst run)
          <-> snd run = Ok (true, method)).
Proof.
  split; [reflexivity |].
  apply (no_conditions_no_evaluation always_ok click_transaction (Page 0)
                                     (One "#a") None 2 []).
  reflexivity.
Defined.

(** C6.  With an empty list of success conditions the evaluation of
    success conditions is not entered, but the success of the step is not
    the success of the action.  On an element both clicks on which raise
    and which has no bounding box, the click strategy asks for the native
    and the forced click, neither returns, the click by coordinates and the
    scripted click are not tried, and the strategy returns [None]; the
    transaction reports [(True, None)]: a step in which nothing was clicked
    is reported successful. *)
Theorem unclicked_action_reported_successful :
  let run := execute_click_transaction no_box click_transaction (Page 0) (One "#a")
                                       (Some []) 2 [] in
  conditions_of (Some []) = []
  /\ marks (fst run)
     = [Enter "_pre_stabilize" [VStr "#a"]; Leave "_pre_stabilize" (Ok VNone);
        Enter "_execute_click_multi_strategy" [VStr "#a"];
        Leave "_execute_click_multi_strategy" (Ok VNone)]
  /\ clicks_asked (fst run)
     = [Call (Page 0) "locator.click" [VStr "#a"; VInt 8000; VBool false];
        Call (Page 0) "locator.click" [VStr "#a"; VInt 8000; VBool true]]
  /\ clicks_done no_box [] (fst run) = []
  /\ entered "_evaluate_success_conditions" (fst run) = false
  /\ snd run = Ok (true, VNone).
Proof.
  intro run. repeat split; vm_compute; reflexivity.
Qed.

(** ** Exhausted candidates *)

(** C2, as the specification states it, fails: with two candidates, one
    retry, and a browser in which the clicks work but the text waited for
    never shows, all four attempts end with the success condition unmet,
    and the transaction returns [(False, "unknown")] instead of raising. *)
Lemma unmet_conditions_return_false :
  let conds := [welcome_visible] in
  let unmet := Evaluated VNone (VStr "native_click") false VNone in
  let run := execute_click_transaction never_visible click_transaction (Page 0)
                                       (Many ["#a"; "#b"]) (Some conds) 1 [] in
  marks (fst run) = groups_marks ["#a"; "#b"] conds [[unmet; unmet]; [unmet; unmet]]
  /\ ~ attempt_passed conds (fst run)
  /\ snd run = Ok (false, VStr "unknown")
  /\ forall e, snd run <> Raise e.
Proof.
  intros conds unmet run.
  assert (Hm : marks (fst run)
               = groups_marks ["#a"; "#b"] conds [[unmet; unmet]; [unmet; unmet]])
    by (vm_compute; reflexivity).
  assert (Hres : snd run = Ok (false, VStr "unknown")) by (vm_compute; reflexivity).
  split; [exact Hm |]. split; [| split; [exact Hres |]].
  - intro Hp.
    apply (attempt_passed_groups conds ["#a"; "#b"] _ _ Hm eq_refl) in Hp.
    + destruct Hp as [a [Hin Hpass]]. simpl in Hin.
      repeat (destruct Hin as [<- | Hin]; [discriminate |]). contradiction.
    + repeat constructor; discriminate.
  - intros e He. rewrite Hres in He. discriminate.
Qed.

Lemma execute_click_transaction_exact (drv : driver) (self : transaction)
      (tgt : target) (selector : selector_arg)
      (success_conditions : option (list dict)) (max_retries : Z)
      (h ev : list event) (res : result (bool * value)) :
  execute_click_transaction drv self tgt selector success_conditions max_retries h
  = (ev, res) ->
  exists groups,
    marks ev = groups_marks (selectors_of selector) (conditions_of success_conditions)
                            groups
    /\ length groups = length (selectors_of selector)
    /\ Forall (well_shaped (conditions_of success_conditions)) (concat groups)
    /\ ((exists a,
            In a (concat groups) /\ shape_passed a = true
            /\ last_click ev = Some (Ok (method_of a))
            /\ res = Ok (true, method_of a))
        \/ (Forall failed_attempt (concat groups)
            /\ res = failure (recorded (Z.to_nat (max_retries + 1)) O
                                       (map shape_raise (concat groups)) None))).
Proof.
  unfold execute_click_transaction. rewrite bind_run.
  fold (selectors_of selector). fold (conditions_of success_conditions).
  destruct (selectors_loop drv self tgt (selectors_of selector)
                           (conditions_of success_conditions) max_retries None h)
    as [ev1 r1] eqn:E1.
  apply selectors_loop_exact in E1.
  destruct E1 as [groups [r' [Hm [Hlen [Hws [-> Hres]]]]]].
  intro E. exists groups.
  destruct Hres as [[a [le' [Hin [Ha [Hlast ->]]]]] | [Hall ->]].
  - unfold ret in E. inversion E; subst. autorewrite with marks.
    repeat split; auto. left. exists a. repeat split; auto.
    rewrite <- last_click_marks. autorewrite with marks. rewrite Hm. exact Hlast.
  - destruct (recorded _ _ _ _) as [e |] eqn:Hrec;
      unfold ret, raise in E; inversion E; subst; autorewrite with marks;
      repeat split; auto.
Qed.

(** C2, amended.  A click transaction returns [(True, method)] exactly when
    an attempt went through, and [method] is then what the click strategy
    returned the last time it was left, in that attempt.  When no attempt
    went through, [last_error]
    decides: it is set when the final attempt of a candidate (attempt
    number [N + 1]) raises, and only then; the transaction raises the
    exception so recorded last, and returns [(False, "unknown")] when none
    is recorded.  So an exception raised in an earlier attempt of a
    candidate is not raised by the transaction, and a transaction all of
    whose candidates end with the success conditions unmet does not raise.
    It never returns success when every attempt failed. *)
Theorem transaction_outcome (drv : driver) (self : transaction) (tgt : target)
        (selector : selector_arg) (success_conditions : option (list dict))
        (N : Z) (h : list event) :
  let run := execute_click_transaction drv self tgt selector success_conditions N h in
  let conds := conditions_of success_conditions in
  let last_error := recorded (Z.to_nat (N + 1)) O (attempt_errors (fst run)) None in
  (attempt_passed conds (fst run)
   /\ exists method,
       last_click (fst run) = Some (Ok method)
       /\ snd run = Ok (true, method))
  \/ (~ attempt_passed conds (fst run) /\ snd run = failure last_error).
Proof.
  intros run conds last_error. subst run conds last_error.
  destruct (execute_click_transaction drv self tgt selector success_conditions N h)
    as [ev res] eqn:E.
  apply execute_click_transaction_exact in E.
  destruct E as [groups [Hm [Hlen [Hws Hres]]]].
  simpl fst. simpl snd.
  pose proof (attempt_passed_groups _ _ _ _ Hm Hlen Hws) as Hpass.
  destruct Hres as [[a [Hin [Ha [Hlast ->]]]] | [Hall ->]].
  - left. split; [apply Hpass; eauto |].
    exists (method_of a). split; [exact Hlast | reflexivity].
  - right. split.
    + intro Hp. apply Hpass in Hp. destruct Hp as [a [Hin Hp]].
      rewrite Forall_forall in Hall. specialize (Hall a Hin).
      unfold failed_attempt in Hall. congruence.
    + rewrite <- attempt_errors_marks, Hm. now rewrite groups_errors.
Qed.

Lemma transaction_outcome_witness :
  let conds := [welcome_visible] in
  let run := execute_click_transaction late_b click_transaction (Page 0)
                                       (Many ["#a"; "#b"]) (Some conds) 1 [] in
  attempt_errors (fst run)
  = [Some (ValueError "Element not found: #a"); Some (ValueError "Element not found: #a");
     Some (ValueError "Element not found: #b"); None]
  /\ ~ attempt_passed conds (fst run)
  /\ snd run = Raise (ValueError "Element not found: #a").
Proof.
  intros conds run.
  assert (Herr : attempt_errors (fst run)
                 = [Some (ValueError "Element not found: #a");
                    Some (ValueError "Element not found: #a");
                    Some (ValueError "Element not found: #b"); None])
    by (vm_compute; reflexivity).
  split; [exact Herr |].
  destruct (transaction_outcome late_b click_transaction (Page 0) (Many ["#a"; "#b"])
                                 (Some conds) 1 [])
    as [[_ [method [_ Hres]]] | [Hnot Hres]].
  - exfalso. vm_compute in Hres. discriminate Hres.
  - split; [exact Hnot |]. fold run in Hres. rewrite Hres, Herr. reflexivity.
Defined.

End TransactionFacts.
(** * Facts about the steps of [run_step] *)

Module StepFacts.
Import Runner Trace Steps RunFacts Examples.
Local Open Scope run_scope.

#[local] Hint Resolve total_ret total_swallow total_clock total_if : total.
#[local] Hint Extern 2 (total (bind _ _)) =>
  apply total_bind_io; [| intro] : total.

(** ** Strings *)

Lemma append_star_nonempty (p : string) : String.eqb (p ++ "*") "" = false.
Proof. destruct p; reflexivity. Qed.

Lemma endswith_cons (c : ascii) (s p : string) :
  endswith (String c s) p
  = if String.eqb (String c s) p then true else endswith s p.
Proof. reflexivity. Qed.

Lemma endswith_star (p : string) : endswith (p ++ "*") "*" = true.
Proof.
  induction p as [| c p IH]; [reflexivity |].
  change (String c p ++ "*") with (String c (p ++ "*")).
  rewrite endswith_cons, IH. now destruct (String.eqb _ _).
Qed.



(** ** The end of a step *)

Lemma total_post_step_delay (drv : driver) (page : target) (step : dict) :
  total (post_step_delay drv page step).
Proof. unfold post_step_delay. auto with total. Qed.

(** A step that falls through to the delay returns the page it was given
    when its body returns, and raises what its body raises. *)
Lemma after_result (drv : driver) (page : target) (step : dict) (ctx : option context)
      (m : IO unit) (h : list event) :
  snd (after drv page step ctx m h)
  = match snd (m h) with Ok _ => Ok (page, ctx) | Raise e => Raise e end.
Proof.
  unfold after. rewrite bind_io. destruct (m h) as [ev [[] | e]]; auto.
  rewrite bind_io.
  destruct (total_post_step_delay drv page step (app h (map Io ev))) as [ev' [a ->]].
  reflexivity.
Qed.

(** ** wait_url *)

(** The dispatch of a step of type [wait_url]. *)
Lemma dispatch_wait_url (drv : driver) (page : target) (step : dict)
      (run_dir : string) (ctx : option context) :
  get "type" step = VStr "wait_url" ->
  dispatch_step drv page step run_dir ctx
  = after drv page step ctx (step_wait_url drv page step).
Proof. intro Hty. unfold dispatch_step. rewrite Hty. reflexivity. Qed.




(** ** click *)

Lemma clicks_app (a b : list io_event) : clicks (app a b) = app (clicks a) (clicks b).
Proof. apply flat_map_app. Qed.

Lemma clicked_io (ev : list io_event) : clicked (map Io ev) = clicks ev.
Proof. induction ev as [| e ev IH]; simpl; [| rewrite IH]; reflexivity. Qed.

Lemma clicked_app (a b : list event) : clicked (app a b) = app (clicked a) (clicked b).
Proof. apply flat_map_app. Qed.

Lemma no_click_ret {A} (a : A) : no_click (ret a).
Proof. intro h. reflexivity. Qed.

Lemma no_click_raise {A} (e : exn) : no_click (@raise io_event A e).
Proof. intro h. reflexivity. Qed.

Lemma no_click_lift {A} (r : result A) : no_click (lift r).
Proof. intro h. reflexivity. Qed.

Lemma no_click_bind {A B} (m : IO A) (f : A -> IO B) :
  no_click m -> (forall a, no_click (f a)) -> no_click (bind m f).
Proof.
  intros Hm Hf h. rewrite bind_io. specialize (Hm h).
  destruct (m h) as [ev [a | e]]; simpl in *; auto.
  specialize (Hf a (app h (map Io ev))).
  destruct (f a _) as [ev' r]. simpl in *. now rewrite clicks_app, Hm, Hf.
Qed.

Lemma no_click_catch {A} (m : IO A) (handler : exn -> IO A) :
  no_click m -> (forall e, no_click (handler e)) -> no_click (catch m handler).
Proof.
  intros Hm Hf h. unfold catch. specialize (Hm h).
  destruct (m h) as [ev [a | e]]; simpl in *; auto.
  specialize (Hf e (app h (map inj ev))).
  destruct (handler e _) as [ev' r]. simpl in *. now rewrite clicks_app, Hm, Hf.
Qed.

Lemma no_click_try {A} (m : IO A) : no_click m -> no_click (try_ m).
Proof. intros Hm h. unfold try_. specialize (Hm h). now destruct (m h). Qed.

Lemma no_click_swallow {A} (m : IO A) : no_click m -> no_click (swallow m).
Proof.
  intro Hm. unfold swallow. apply no_click_catch.
  - apply no_click_bind; auto. intro. apply no_click_ret.
  - intro. apply no_click_ret.
Qed.

Lemma no_click_if {A} (b : bool) (m1 m2 : IO A) :
  no_click m1 -> no_click m2 -> no_click (if b then m1 else m2).
Proof. destruct b; auto. Qed.

Lemma no_click_call (drv : driver) (on : target) (meth : string) (args : list value) :
  String.eqb meth "locator.evaluate" = false -> no_click (call drv on meth args).
Proof.
  intros H h. unfold call, clicks. simpl. rewrite H.
  destruct args as [| ? [| ? [| ? ?]]]; reflexivity.
Qed.

Lemma no_click_call_targets (drv : driver) (on : target) (meth : string)
      (args : list value) :
  String.eqb meth "locator.evaluate" = false -> no_click (call_targets drv on meth args).
Proof.
  intros H h. unfold call_targets, clicks. simpl. rewrite H.
  destruct args as [| ? [| ? [| ? ?]]]; reflexivity.
Qed.

Lemma no_click_call_frame (drv : driver) (on : target) (meth : string)
      (args : list value) :
  String.eqb meth "locator.evaluate" = false -> no_click (call_frame drv on meth args).
Proof.
  intros H h. unfold call_frame, clicks. simpl. rewrite H.
  destruct args as [| ? [| ? [| ? ?]]]; reflexivity.
Qed.

Lemma no_click_clock (drv : driver) (func : string) : no_click (clock drv func).
Proof. intro h. reflexivity. Qed.

Create HintDb no_click.
#[local] Hint Resolve no_click_ret no_click_raise no_click_lift no_click_catch
  no_click_try no_click_swallow no_click_if no_click_clock : no_click.
#[local] Hint Extern 2 (no_click (bind _ _)) =>
  apply no_click_bind; [| intro] : no_click.
#[local] Hint Extern 1 (no_click (call _ _ _ _)) =>
  apply no_click_call; reflexivity : no_click.
#[local] Hint Extern 1 (no_click (call_targets _ _ _ _)) =>
  apply no_click_call_targets; reflexivity : no_click.
#[local] Hint Extern 1 (no_click (call_frame _ _ _ _)) =>
  apply no_click_call_frame; reflexivity : no_click.
#[local] Hint Extern 1 (no_click (wait_for_timeout _ _ _)) =>
  unfold wait_for_timeout : no_click.
#[local] Hint Extern 3 (no_click (match ?x with _ => _ end)) =>
  destruct x : no_click.

Lemma no_click_scan_frames (drv : driver) (href : string) (frames : list target) :
  no_click (scan_frames drv href frames).
Proof.
  induction frames as [| f rest IH]; simpl; auto 20 with no_click.
Qed.

#[local] Hint Resolve no_click_scan_frames : no_click.

Lemma no_click_poll (drv : driver) (find : IO (option target)) (page : target)
      (start_time timeout : Z) (fuel : nat) :
  no_click find -> no_click (poll drv find page start_time timeout fuel).
Proof.
  intro Hf. induction fuel as [| fuel IH]; simpl; [apply no_click_ret |].
  unfold within. auto 20 with no_click.
Qed.

#[local] Hint Resolve no_click_poll : no_click.

Lemma no_click_resolve_by (drv : driver) (find : IO (option target)) (page : target)
      (wait_for_frame : bool) (timeout : Z) :
  no_click find -> no_click (resolve_by drv find page wait_for_frame timeout).
Proof.
  intro Hf. unfold resolve_by, poll_for. auto 20 with no_click.
Qed.

#[local] Hint Resolve no_click_resolve_by : no_click.

Lemma no_click_target (drv : driver) (page : target) (step : dict)
      (wait_for_frame : bool) :
  no_click (_target drv page step wait_for_frame).
Proof.
  unfold _target, _resolve_frame, find_by_href, find_by_name.
  auto 30 with no_click.
Qed.

Lemma no_click_post_step_delay (drv : driver) (page : target) (step : dict) :
  no_click (post_step_delay drv page step).
Proof. unfold post_step_delay. auto with no_click. Qed.

Lemma prefix_app (a b s : string) : prefix (a ++ b) s = true -> prefix a s = true.
Proof.
  revert s. induction a as [| c a IH]; intros s H; [now destruct s |].
  destruct s as [| d s]; simpl in *; [discriminate |].
  destruct (ascii_dec c d); auto.
Qed.

(** The test of lines 477-478 is the test for [text=]. *)
Lemma text_test (s : string) :
  startswith s "text=" || startswith s ("text=" ++ dquote) = startswith s "text=".
Proof.
  destruct (startswith s "text=") eqn:E; auto. simpl.
  destruct (startswith s ("text=" ++ dquote)) eqn:E'; auto.
  unfold startswith in *. apply prefix_app in E'. congruence.
Qed.

Lemma filter_clickable_without_text (selectors : list value) (kept : list string) :
  filter_clickable selectors = Ok kept -> map VStr kept = without_text selectors.
Proof.
  revert kept. induction selectors as [| sel rest IH]; intros kept H; simpl in H.
  - inversion H. reflexivity.
  - destruct sel; simpl in H; try discriminate.
    destruct (filter_clickable rest) as [l | e]; [| discriminate].
    inversion H; subst. rewrite text_test.
    unfold without_text. simpl.
    destruct (startswith s "text="); simpl; now rewrite (IH l eq_refl).
Qed.

Lemma clickable_selectors_candidates (selectors clickable : list value) :
  clickable_selectors selectors = Ok clickable ->
  clickable = click_candidates selectors.
Proof.
  unfold clickable_selectors, click_candidates.
  destruct (filter_clickable selectors) as [kept |] eqn:E; [| discriminate].
  apply filter_clickable_without_text in E. rewrite <- E.
  intro H. inversion H. now destruct kept.
Qed.

Lemma selectors_or_step (step : dict) (fallback : result value)
      (selectors : list value) :
  fallback = Ok (get "selector" step) \/ (exists e, fallback = Raise e) ->
  selectors_or step fallback = Ok selectors -> selectors = step_selectors step.
Proof.
  unfold selectors_or, step_selectors. intros Hf H.
  destruct (get "selectors" step) as [| | | | [| x l] |];
    try (inversion H; reflexivity);
    destruct Hf as [-> | [e ->]]; now inversion H.
Qed.

(** The loop dispatches clicks on members of its list only. *)
Lemma clicks_click_loop (drv : driver) (page tgt : target) (step : dict) :
  forall selectors last_error h,
    incl (clicks (fst (click_loop drv page tgt step selectors last_error h))) selectors.
Proof.
  induction selectors as [| sel rest IH]; intros le h; simpl.
  - intros x [].
  - rewrite bind_io.
    match goal with |- context [try_ ?b h] => set (body := b) end.
    assert (Hb : incl (clicks (fst (try_ body h))) [sel]).
    { unfold try_, body. rewrite bind_io. unfold call at 1.
      destruct (reply drv _); [| intros x []].
      rewrite bind_io. unfold call at 1.
      destruct (reply drv _); [| simpl; intros x Hx; exact Hx].
      match goal with
      | |- context [(if ?c then ?m1 else ?m2) ?hist] =>
          assert (Hq : clicks (fst ((if c then m1 else m2) hist)) = [])
            by (apply no_click_if; auto with no_click);
            destruct ((if c then m1 else m2) hist) as [ev' r']
      end.
      simpl in Hq. simpl. rewrite Hq. intros x Hx. exact Hx. }
    destruct (try_ body h) as [ev [[v | e] | e]].
    + simpl in *. rewrite app_nil_r. intros x Hx. apply Hb in Hx.
      destruct Hx as [<- | []]. now left.
    + specialize (IH (Some e) (app h (map Io ev))).
      destruct (click_loop drv page tgt step rest (Some e) _) as [ev' r'].
      simpl in *. rewrite clicks_app. intros x Hx. apply in_app_iff in Hx.
      destruct Hx as [Hx | Hx]; [apply Hb in Hx; destruct Hx as [<- | []]; now left |].
      right. now apply IH.
    + simpl in *. intros x Hx. apply Hb in Hx. destruct Hx as [<- | []]. now left.
Qed.

Lemma clicks_step_click (drv : driver) (page : target) (step : dict) (h : list event) :
  incl (clicks (fst (step_click drv page step h)))
       (click_candidates (step_selectors step)).
Proof.
  unfold step_click. rewrite bind_io.
  pose proof (no_click_target drv page step false h) as Ht.
  destruct (_target drv page step false h) as [ev [tgt | e]]; simpl in Ht;
    [| simpl; rewrite Ht; intros x []].
  rewrite bind_io. unfold lift at 1.
  destruct (selectors_or step _) as [selectors | e] eqn:Hs;
    [| simpl; rewrite app_nil_r, Ht; intros x []].
  apply selectors_or_step in Hs;
    [| destruct (truthy (get "selector" step)); eauto].
  rewrite bind_io. unfold lift at 1.
  destruct (clickable_selectors selectors) as [clickable | e] eqn:Hc;
    [| simpl; rewrite app_nil_r, Ht; intros x []].
  apply clickable_selectors_candidates in Hc. subst.
  rewrite bind_io.
  match goal with
  | |- context [click_loop drv page tgt step ?l None ?hist] =>
      pose proof (clicks_click_loop drv page tgt step l None hist) as Hl;
        destruct (click_loop drv page tgt step l None hist) as [ev' [[e |] | e]]
  end; simpl in *; rewrite ?app_nil_r, ?clicks_app, Ht; simpl;
    rewrite ?app_nil_r; exact Hl.
Qed.

Lemma dispatch_click (drv : driver) (page : target) (step : dict)
      (run_dir : string) (ctx : option context) :
  get "type" step = VStr "click" ->
  dispatch_step drv page step run_dir ctx
  = after drv page step ctx (step_click drv page step).
Proof. intro Hty. unfold dispatch_step. rewrite Hty. reflexivity. Qed.

Lemma clicks_after (drv : driver) (page : target) (step : dict) (ctx : option context)
      (m : IO unit) (h : list event) :
  clicks (fst (after drv page step ctx m h)) = clicks (fst (m h)).
Proof.
  unfold after. rewrite bind_io. destruct (m h) as [ev [[] | e]]; auto.
  rewrite bind_io.
  pose proof (no_click_post_step_delay drv page step (app h (map Io ev))) as Hd.
  destruct (post_step_delay drv page step _) as [ev' [[] | e]]; simpl in *;
    now rewrite ?app_nil_r, clicks_app, Hd, app_nil_r.
Qed.

Lemma without_text_nil (selectors : list value) :
  without_text selectors = [] -> forallb text_candidate selectors = true.
Proof.
  induction selectors as [| sel rest IH]; auto.
  unfold without_text. simpl.
  destruct (text_candidate sel); simpl; [exact IH | discriminate].
Qed.

(** C10.  A click step dispatches clicks only on the candidates that do not
    begin with [text=], or, when every candidate begins with [text=], on
    the candidates as they are: a [text=] candidate is clicked only when
    all candidates are [text=] candidates. *)
Theorem click_filters_text_candidates (drv : driver) (page : target) (step : dict)
        (run_dir : string) (ctx : option context) (next_step : option dict)
        (h : list event) :
  get "type" step = VStr "click" ->
  let dispatched := clicked (fst (run_step drv page step run_dir ctx next_step h)) in
  incl dispatched (click_candidates (step_selectors step))
  /\ (without_text (step_selectors step) <> [] ->
      incl dispatched (without_text (step_selectors step)))
  /\ forall sel,
      In sel dispatched -> text_candidate sel = true ->
      forallb text_candidate (step_selectors step) = true.
Proof.
  intros Hty dispatched.
  assert (Hincl : incl dispatched (click_candidates (step_selectors step))).
  { subst dispatched. unfold run_step. rewrite traced_io_run. simpl fst.
    change (Enter "run_step" [VDict step] :: ?l)
      with (app [Enter "run_step" [VDict step]] l).
    rewrite !clicked_app, clicked_io. simpl. rewrite app_nil_r.
    rewrite (dispatch_click _ _ _ _ _ Hty), clicks_after.
    apply clicks_step_click. }
  split; [exact Hincl |]. split.
  - intro Hne. unfold click_candidates in Hincl.
    destruct (without_text (step_selectors step)); [congruence | exact Hincl].
  - intros sel Hin Htext. apply Hincl in Hin. unfold click_candidates in Hin.
    destruct (without_text (step_selectors step)) eqn:Hw;
      [now apply without_text_nil |].
    rewrite <- Hw in Hin. unfold without_text in Hin.
    apply filter_In in Hin. destruct Hin as [_ Hn]. rewrite Htext in Hn. discriminate.
Qed.

Lemma click_filters_text_candidates_witness :
  get "type" click_text_or_a = VStr "click"
  /\ (let dispatched :=
        clicked (fst (run_step always_ok (Page 0) click_text_or_a "/run" None None [])) in
      incl dispatched (click_candidates (step_selectors click_text_or_a))
      /\ (without_text (step_selectors click_text_or_a) <> [] ->
          incl dispatched (without_text (step_selectors click_text_or_a)))
      /\ forall sel,
          In sel dispatched -> text_candidate sel = true ->
          forallb text_candidate (step_selectors click_text_or_a) = true).
Proof.
  split; [reflexivity |].
  apply (click_filters_text_candidates always_ok (Page 0) click_text_or_a "/run"
                                       None None []).
  reflexivity.
Defined.

(** ** click_popup *)

Lemma dispatch_click_popup (drv : driver) (page : target) (step : dict)
      (run_dir : string) (ctx : option context) :
  get "type" step = VStr "click_popup" ->
  dispatch_step drv page step run_dir ctx
  = after_switch drv step (step_click_popup drv page step ctx).
Proof. intro Hty. unfold dispatch_step. rewrite Hty. reflexivity. Qed.

Lemma after_switch_result (drv : driver) (step : dict)
      (m : IO (target * option context)) (h : list event) :
  snd (after_switch drv step m h) = snd (m h).
Proof.
  unfold after_switch. rewrite bind_io. destruct (m h) as [ev [r | e]]; auto.
  rewrite bind_io.
  destruct (total_post_step_delay drv (fst r) step (app h (map Io ev))) as [ev' [a ->]].
  reflexivity.
Qed.

(** Answers the next call of the goal, both ways. *)
Ltac step_reply drv :=
  rewrite ?app_nil_r, <- ?app_assoc; cbv delta [inj emits_io] beta; simpl;
  match goal with
  | |- context [reply drv ?X] => destruct (reply drv X)
  | |- context [reply_page drv ?X] => destruct (reply_page drv X)
  end.






End StepFacts.
(** * Facts about the run loop *)

Module LoopFacts.
Import Runner Trace Steps RunFacts Examples.
Local Open Scope run_scope.

#[local] Hint Resolve total_ret total_swallow total_clock total_if
  total_write_debug_log : total.
#[local] Hint Extern 2 (total (bind _ _)) =>
  apply total_bind_io; [| intro] : total.

Lemma total_try {E A} (m : M E A) : total (try_ m).
Proof. intro h. unfold try_. destruct (m h). eauto. Qed.

Lemma total_observe (drv : driver) (name : string) : total (observe drv name).
Proof. intro h. unfold observe. eauto. Qed.

#[local] Hint Resolve total_try total_observe : total.

Lemma total_wait_quiet (drv : driver) (page : target) (fuel : nat) :
  total (wait_quiet drv page fuel).
Proof.
  induction fuel as [| fuel IH]; simpl; auto with total.
  apply total_bind_io; [auto with total | intro now].
  apply total_bind_io; [auto with total | intro last].
  apply total_if; [auto with total |].
  apply total_bind_io; [auto with total | intros [v | e]]; auto with total.
Qed.

#[local] Hint Resolve total_wait_quiet : total.

Lemma total_flush (drv : driver) (run_dir : string) (page : target) (net_seq : Z) :
  total (flush_network_burst_screenshot drv run_dir page net_seq).
Proof. unfold flush_network_burst_screenshot. auto 10 with total. Qed.

#[local] Hint Resolve total_flush : total.







(** ** The loop *)





End LoopFacts.
(** * Further facts about the compiler *)

Module CompilerMore.
Import Compiler Wellformed CompiledShape CompilerFacts Examples.
Local Open Scope result_scope.

(** ** The base fields *)

Lemma lookup_fold_copy (raw_step : dict) (key : string) :
  forall keys acc,
    lookup key
      (fold_left (fun compiled_step k =>
                    match lookup k raw_step with
                    | Some v => dict_set k v compiled_step
                    | None => compiled_step
                    end) keys acc)
    = match lookup key raw_step with
      | Some v => if existsb (String.eqb key) keys then Some v else lookup key acc
      | None => lookup key acc
      end.
Proof.
  induction keys as [| k keys IH]; intro acc; simpl.
  - now destruct (lookup key raw_step).
  - rewrite IH. destruct (String.eqb key k) eqn:E.
    + apply String.eqb_eq in E. subst k.
      destruct (lookup key raw_step) as [v |] eqn:Ev; auto.
      rewrite lookup_dict_set_same. simpl. now destruct (existsb _ keys).
    + assert (Hne : key <> k) by (intro; subst; now rewrite String.eqb_refl in E).
      destruct (lookup key raw_step) as [v |] eqn:Ev; simpl.
      * destruct (lookup k raw_step); [now rewrite lookup_dict_set_other |]; auto.
      * destruct (lookup k raw_step); [now rewrite lookup_dict_set_other |]; auto.
Qed.

Lemma lookup_copy_base_kept (raw_step : dict) (key : string) :
  lookup key (copy_base raw_step) = kept_field raw_step key.
Proof.
  unfold copy_base, kept_field. rewrite lookup_fold_copy. simpl lookup.
  destruct (lookup key raw_step), (existsb (String.eqb key) base_keys); reflexivity.
Qed.

Lemma get_type_copy_base (raw_step : dict) :
  get "type" (copy_base raw_step) = get "type" raw_step.
Proof.
  unfold get, get_default. rewrite lookup_copy_base_kept. reflexivity.
Qed.

Lemma get_type_dict_set (key : string) (v : value) (d : dict) :
  key <> "type" -> get "type" (dict_set key v d) = get "type" d.
Proof.
  intro Hne. unfold get, get_default.
  rewrite lookup_dict_set_other; auto.
Qed.

(** ** The types of the compiled steps *)

Ltac types_done :=
  let H := fresh "H" in
  intro H; inversion H; subst; simpl;
  rewrite ?get_type_dict_set by discriminate;
  rewrite ?get_type_copy_base; reflexivity.

Lemma look_ahead_absorbs (next : option value) (la : lookahead) :
  look_ahead next = Ok la -> skip_next la = absorbs next.
Proof.
  destruct next as [[| | | | | next_step] |]; simpl; try discriminate.
  - destruct (eq_str (get "type" next_step) "expect_text"
              || eq_str (get "type" next_step) "wait_visible").
    + destruct (text_or_params_text next_step); simpl; [| discriminate].
      intro H. now inversion H.
    + intro H. now inversion H.
  - intro H. now inversion H.
Qed.

Lemma store_selectors_type (raw_step : dict) (selectors : list string) (c : dict) :
  get "type" (store_selectors raw_step selectors c) = get "type" c.
Proof.
  unfold store_selectors.
  destruct selectors as [| s [| s' rest]]; now rewrite get_type_dict_set by discriminate.
Qed.

(** One raw step gives one compiled step of its type, a repeated click
    two. *)
Lemma compile_step_types (raw_v : value) (next : option value) (l : list dict) :
  compile_step raw_v next = Ok l ->
  map (get "type") l
  = if repeated raw_v next then [type_of raw_v; type_of raw_v] else [type_of raw_v].
Proof.
  unfold compile_step, repeated.
  destruct raw_v as [| | | | | step]; simpl; try discriminate.
  destruct (eq_str (get "type" step) "click") eqn:Hclick.
  { unfold compile_click.
    destruct (_generate_selector_candidates step); simpl; [| discriminate].
    destruct (look_ahead next) as [la |] eqn:Hla; simpl; [| discriminate].
    destruct (_infer_success_conditions step next) as [inferred |]; simpl;
      [| discriminate].
    rewrite <- (look_ahead_absorbs next la Hla).
    destruct (skip_next la); simpl;
      destruct (app inferred (absorbed_condition la));
      intro H; inversion H; subst; simpl;
      rewrite ?get_type_dict_set by discriminate;
      rewrite ?store_selectors_type, ?get_type_copy_base; reflexivity. }
  simpl.
  destruct (eq_str (get "type" step) "expect_text").
  { unfold compile_expect_text.
    destruct (text_or_params_text step) as [t |]; simpl; [| discriminate].
    destruct (truthy t); [destruct (truthy (get "selector" step)) |]; types_done. }
  destruct (eq_str (get "type" step) "wait_visible").
  { unfold compile_wait_visible.
    destruct (text_or_params_text step) as [t |]; simpl; [| discriminate].
    destruct (truthy t).
    - destruct (truthy (get "selector" step)); types_done.
    - destruct (truthy (get "selector" step)); [| discriminate].
      destruct (_generate_selector_candidates step) as [sels |]; simpl; [| discriminate].
      destruct (1 <? length sels)%nat; types_done. }
  match goal with
  | |- context [if ?b then Ok _ else compile_other _ _] => destruct b; [types_done |]
  end.
  unfold compile_other.
  destruct (lookup "params" step) as [[| | | s | l0 | params] |]; try discriminate;
    try types_done.
  - destruct (str_in "text" s); [discriminate | types_done].
  - destruct (existsb _ l0); [discriminate | types_done].
  - destruct (lookup "text" params); types_done.
Qed.

(** X1.  Compiling keeps the type of every step and the order of the steps:
    the types of the compiled steps are the types of the raw steps, each
    once, except that a click that is not followed by an [expect_text] or
    [wait_visible] step comes twice.  So the compiled sequence has as many
    steps as the raw one plus one for each such click. *)
Theorem compiled_types_follow_raw_types (raw_steps : list value) (compiled : list dict) :
  compile_steps raw_steps = Ok compiled ->
  map (get "type") compiled = compiled_types raw_steps
  /\ length compiled = (length raw_steps + repeated_clicks raw_steps)%nat.
Proof.
  revert compiled.
  induction raw_steps as [| raw_v rest IH]; intros compiled; simpl.
  - intro H. inversion H. split; reflexivity.
  - destruct (compile_step raw_v (hd_error rest)) as [l |] eqn:E; simpl; [| discriminate].
    destruct (compile_steps rest) as [more |]; simpl; [| discriminate].
    intro H. inversion H; subst.
    destruct (IH more eq_refl) as [IHt IHl].
    apply compile_step_types in E.
    rewrite map_app, length_app, E, IHt, IHl.
    assert (Hl : length l = length (map (get "type") l)) by now rewrite length_map.
    rewrite Hl, E.
    destruct (repeated raw_v (hd_error rest)); simpl; split; auto; lia.
Qed.

Lemma compiled_types_follow_raw_types_witness :
  exists compiled,
    compile_steps (raw_steps_of click_then_expect) = Ok compiled
    /\ map (get "type") compiled = compiled_types (raw_steps_of click_then_expect)
    /\ length compiled
       = (length (raw_steps_of click_then_expect)
          + repeated_clicks (raw_steps_of click_then_expect))%nat.
Proof.
  eexists. split; [reflexivity |].
  apply (compiled_types_follow_raw_types (raw_steps_of click_then_expect)).
  reflexivity.
Defined.

(** ** Steps that are copied *)

Lemma copied_type (t : value) :
  existsb (eq_str t) passthrough_types = true ->
  eq_str t "click" = false /\ eq_str t "expect_text" = false
  /\ eq_str t "wait_visible" = false.
Proof.
  destruct t as [| | | s | |]; simpl; try discriminate.
  intro H.
  repeat (apply orb_true_iff in H; destruct H as [H | H]);
    try discriminate; apply String.eqb_eq in H; subst; repeat split; reflexivity.
Qed.

Lemma compile_step_copied (raw_step : dict) (next : option value) :
  existsb (eq_str (get "type" raw_step)) passthrough_types = true ->
  compile_step (VDict raw_step) next = Ok [copy_base raw_step].
Proof.
  intro H. destruct (copied_type _ H) as [Hc [He Hw]].
  unfold compile_step. simpl as_dict. unfold rbind. cbv zeta.
  now rewrite Hc, He, Hw, H.
Qed.

(** X2.  A [fill], [go], [expect_visible], [expect_url] or [wait_url] step
    is compiled to one step that holds the fields [type], [url], [value],
    [delay_ms], [delay], [frame] and [popup_url] of the raw step and nothing
    else: the selector of a [fill] or [expect_visible] step, and a timeout,
    are not in the compiled step. *)
Theorem copied_steps_keep_base_fields (raw_step : dict) (next : option value) :
  existsb (eq_str (get "type" raw_step)) passthrough_types = true ->
  exists c,
    compile_step (VDict raw_step) next = Ok [c]
    /\ (forall key, lookup key c = kept_field raw_step key)
    /\ lookup "selector" c = None
    /\ lookup "timeout" c = None.
Proof.
  intro H. exists (copy_base raw_step).
  split; [now apply compile_step_copied |].
  split; [intro key; apply lookup_copy_base_kept |].
  split; now rewrite lookup_copy_base_kept.
Qed.

Lemma copied_steps_keep_base_fields_witness :
  let raw_step := [("type", VStr "fill"); ("selector", VStr "#q"); ("value", VStr "x")] in
  existsb (eq_str (get "type" raw_step)) passthrough_types = true
  /\ exists c,
      compile_step (VDict raw_step) None = Ok [c]
      /\ (forall key, lookup key c = kept_field raw_step key)
      /\ lookup "selector" c = None
      /\ lookup "timeout" c = None.
Proof.
  intro raw_step. split; [reflexivity |].
  apply (copied_steps_keep_base_fields raw_step None). reflexivity.
Defined.

(** ** Success conditions *)

Lemma lookup_store_selectors (key : string) (raw_step : dict) (selectors : list string)
      (c : dict) :
  key <> "selectors" -> key <> "selector" ->
  lookup key (store_selectors raw_step selectors c) = lookup key c.
Proof.
  intros H1 H2. unfold store_selectors.
  destruct selectors as [| s [| s' rest]]; now rewrite lookup_dict_set_other.
Qed.

Ltac no_conditions :=
  let H := fresh "H" in
  let Hin := fresh "Hin" in
  let Hl := fresh "Hl" in
  intro H; inversion H; subst; intros c0 v0 Hin Hl; simpl in Hin;
  repeat (destruct Hin as [<- | Hin]); try contradiction;
  rewrite ?lookup_dict_set_other in Hl by discriminate;
  rewrite lookup_copy_base_kept in Hl; discriminate Hl.

(** X3.  Only compiled click steps carry success conditions, and a click
    step that carries them carries at least one: whatever
    [success_conditions] a raw step holds is not copied. *)
Theorem success_conditions_on_clicks_only (raw_v : value) (next : option value)
        (l : list dict) :
  compile_step raw_v next = Ok l ->
  forall c v,
    In c l -> lookup "success_conditions" c = Some v ->
    eq_str (type_of raw_v) "click" = true /\ exists x rest, v = VList (x :: rest).
Proof.
  unfold compile_step.
  destruct raw_v as [| | | | | step]; simpl; try discriminate.
  destruct (eq_str (get "type" step) "click") eqn:Hclick.
  { unfold compile_click.
    destruct (_generate_selector_candidates step) as [sels |]; simpl; [| discriminate].
    destruct (look_ahead next) as [la |]; simpl; [| discriminate].
    destruct (_infer_success_conditions step next) as [inferred |]; simpl;
      [| discriminate].
    destruct (app inferred (absorbed_condition la)) as [| x rest] eqn:Hconds.
    - destruct (skip_next la); intro H; inversion H; subst; intros c0 v0 Hin Hl;
        simpl in Hin;
        repeat (destruct Hin as [<- | Hin]); try contradiction;
        rewrite lookup_store_selectors in Hl by discriminate;
        rewrite lookup_copy_base_kept in Hl; discriminate Hl.
    - destruct (skip_next la); intro H; inversion H; subst; intros c0 v0 Hin Hl;
        simpl in Hin;
        repeat (destruct Hin as [<- | Hin]); try contradiction;
        rewrite lookup_dict_set_same in Hl; inversion Hl; eauto. }
  destruct (eq_str (get "type" step) "expect_text").
  { unfold compile_expect_text.
    destruct (text_or_params_text step) as [t |]; simpl; [| discriminate].
    destruct (truthy t); [destruct (truthy (get "selector" step)) |]; no_conditions. }
  destruct (eq_str (get "type" step) "wait_visible").
  { unfold compile_wait_visible.
    destruct (text_or_params_text step) as [t |]; simpl; [| discriminate].
    destruct (truthy t).
    - destruct (truthy (get "selector" step)); no_conditions.
    - destruct (truthy (get "selector" step)); [| discriminate].
      destruct (_generate_selector_candidates step) as [sels |]; simpl; [| discriminate].
      destruct (1 <? length sels)%nat; no_conditions. }
  match goal with
  | |- context [if ?b then Ok _ else compile_other _ _] => destruct b; [no_conditions |]
  end.
  unfold compile_other.
  destruct (lookup "params" step) as [[| | | s | l0 | params] |]; try discriminate;
    try no_conditions.
  - destruct (str_in "text" s); [discriminate | no_conditions].
  - destruct (existsb _ l0); [discriminate | no_conditions].
  - destruct (lookup "text" params); no_conditions.
Qed.

Lemma success_conditions_on_clicks_only_witness :
  exists c conditions,
    compile_step (VDict click_a) (Some (VDict expect_hi)) = Ok [c]
    /\ lookup "success_conditions" c = Some conditions
    /\ eq_str (type_of (VDict click_a)) "click" = true
    /\ exists x rest, conditions = VList (x :: rest).
Proof.
  do 2 eexists. split; [reflexivity |]. split; [reflexivity |].
  apply (success_conditions_on_clicks_only
           (VDict click_a) (Some (VDict expect_hi)) _ eq_refl _ _
           (or_introl eq_refl) eq_refl).
Defined.

(** X4.  A click that is followed by an [expect_text] step with a text is
    compiled to one step whose success conditions are two conditions on
    that same text, in this order: [modal_visible], from the inference of
    success conditions, and [element_visible], from taking up the next
    step; both have the timeout 15000, whatever timeout the next step has. *)
Theorem click_before_expect_text_conditions (raw_step next_step : dict) (text : value) :
  eq_str (get "type" raw_step) "click" = true ->
  str_or_falsy (get "selector" raw_step) = true ->
  get "type" next_step = VStr "expect_text" ->
  get "text" next_step = text ->
  truthy text = true ->
  exists c,
    compile_step (VDict raw_step) (Some (VDict next_step)) = Ok [c]
    /\ lookup "success_conditions" c
       = Some (VList [modal_visible text; element_visible_text text (VInt 15000)]).
Proof.
  intros Hclick Hsel Hty Htext Ht.
  unfold compile_step. simpl as_dict. unfold rbind at 1. cbv zeta. rewrite Hclick.
  unfold compile_click.
  destruct (generate_ok raw_step Hsel) as [sels Hgen].
  assert (Hnt : text_or_params_text next_step = Ok text).
  { unfold text_or_params_text, py_or. now rewrite Htext, Ht. }
  assert (Hla : look_ahead (Some (VDict next_step))
                = Ok {| next_text := text;
                        next_selector := get "selector" next_step;
                        next_step_type := VStr "expect_text";
                        next_timeout := get_default "timeout" (VInt 15000) next_step;
                        skip_next := true |}).
  { unfold look_ahead. simpl as_dict. unfold rbind at 1. cbv zeta.
    rewrite Hty, Hnt. reflexivity. }
  assert (Hinf : _infer_success_conditions raw_step (Some (VDict next_step))
                 = Ok [modal_visible text]).
  { unfold _infer_success_conditions. rewrite Hclick. simpl negb. cbv iota.
    simpl as_dict. unfold rbind at 1. cbv zeta.
    rewrite Hty, Hnt. simpl. now rewrite Ht. }
  rewrite Hgen, Hla, Hinf. unfold rbind. cbv zeta.
  unfold absorbed_condition. simpl. rewrite Ht. simpl.
  eexists. split; [reflexivity |].
  now rewrite lookup_dict_set_same.
Qed.

Lemma click_before_expect_text_conditions_witness :
  eq_str (get "type" click_a) "click" = true
  /\ str_or_falsy (get "selector" click_a) = true
  /\ get "type" expect_hi = VStr "expect_text"
  /\ truthy (VStr "Hi") = true
  /\ exists c,
      compile_step (VDict click_a) (Some (VDict expect_hi)) = Ok [c]
      /\ lookup "success_conditions" c
         = Some (VList [modal_visible (VStr "Hi");
                        element_visible_text (VStr "Hi") (VInt 15000)]).
Proof.
  do 4 (split; [reflexivity |]).
  apply (click_before_expect_text_conditions click_a expect_hi (VStr "Hi"));
    reflexivity.
Defined.

(** ** The compiled scenario *)

(** X5.  A compiled scenario has the three fields [base_url], [steps] and
    [_meta], in this order; [base_url] is that of the raw scenario, or the
    empty string; [_meta] says [compiled: true] and [compiler_version:
    "1.0.0"], whatever the raw [_meta] says under these keys, and holds
    every other entry of the raw [_meta]. *)
Theorem compiled_scenario_is_marked (raw_scenario c : dict) :
  compile_scenario raw_scenario = Ok c ->
  exists steps meta,
    c = [("base_url", get_default "base_url" (VStr "") raw_scenario);
         ("steps", VList steps); ("_meta", VDict meta)]
    /\ lookup "compiled" meta = Some (VBool true)
    /\ lookup "compiler_version" meta = Some (VStr "1.0.0")
    /\ forall raw_meta key,
        get_default "_meta" (VDict []) raw_scenario = VDict raw_meta ->
        key <> "compiled" -> key <> "compiler_version" ->
        lookup key meta = lookup key raw_meta.
Proof.
  unfold compile_scenario.
  destruct (iter_values _) as [raw_steps |]; simpl; [| discriminate].
  destruct (compile_steps raw_steps) as [compiled |]; simpl; [| discriminate].
  destruct (get_default "_meta" (VDict []) raw_scenario) as [| | | | | d];
    simpl; try discriminate.
  intro H. inversion H; subst. do 2 eexists. split; [reflexivity |].
  split; [| split].
  - rewrite lookup_dict_set_other by discriminate. apply lookup_dict_set_same.
  - apply lookup_dict_set_same.
  - intros raw_meta key Hm Hc Hv. inversion Hm; subst.
    now rewrite !lookup_dict_set_other by congruence.
Qed.

Lemma compiled_scenario_is_marked_witness :
  let raw_scenario :=
    [("steps", VList [VDict expect_hi]);
     ("_meta", VDict [("compiled", VBool false); ("source", VStr "recorder")])] in
  exists c,
    compile_scenario raw_scenario = Ok c
    /\ exists steps meta,
        c = [("base_url", get_default "base_url" (VStr "") raw_scenario);
             ("steps", VList steps); ("_meta", VDict meta)]
        /\ lookup "compiled" meta = Some (VBool true)
        /\ lookup "compiler_version" meta = Some (VStr "1.0.0")
        /\ forall raw_meta key,
            get_default "_meta" (VDict []) raw_scenario = VDict raw_meta ->
            key <> "compiled" -> key <> "compiler_version" ->
            lookup key meta = lookup key raw_meta.
Proof.
  intro raw_scenario. eexists. split; [reflexivity |].
  apply (compiled_scenario_is_marked raw_scenario). reflexivity.
Defined.

End CompilerMore.
(** * Reasoning on how computations end *)

Module OutcomeFacts.
Import Runner Trace Outcome RunFacts.
Local Open Scope run_scope.

Lemma ends_with_weaken {A} (P Q : result A -> Prop) (m : IO A) :
  ends_with P m -> (forall r, P r -> Q r) -> ends_with Q m.
Proof. intros Hm Hw h. apply Hw, Hm. Qed.

Lemma ends_ret {A} (P : result A -> Prop) (a : A) : P (Ok a) -> ends_with P (ret a).
Proof. intros H h. exact H. Qed.

Lemma ends_raise {A} (P : result A -> Prop) (e : exn) :
  P (Raise e) -> ends_with P (raise e).
Proof. intros H h. exact H. Qed.

Lemma ends_lift {A} (P : result A -> Prop) (r : result A) : P r -> ends_with P (lift r).
Proof. intros H h. exact H. Qed.

Lemma ends_bind {A B} (Q : result A -> Prop) (P : result B -> Prop)
      (m : IO A) (f : A -> IO B) :
  ends_with Q m ->
  (forall a, Q (Ok a) -> ends_with P (f a)) ->
  (forall e, Q (Raise e) -> P (Raise e)) ->
  ends_with P (bind m f).
Proof.
  intros Hm Hf He h. rewrite bind_io. specialize (Hm h).
  destruct (m h) as [ev [a | e]]; simpl in *.
  - specialize (Hf a Hm (app h (map Io ev))).
    now destruct (f a (app h (map Io ev))).
  - now apply He.
Qed.

Lemma ends_catch {A} (Q P : result A -> Prop) (m : IO A) (handler : exn -> IO A) :
  ends_with Q m ->
  (forall a, Q (Ok a) -> P (Ok a)) ->
  (forall e, Q (Raise e) -> ends_with P (handler e)) ->
  ends_with P (catch m handler).
Proof.
  intros Hm Ha Hk h. unfold catch. specialize (Hm h).
  destruct (m h) as [ev [a | e]]; simpl in *.
  - now apply Ha.
  - specialize (Hk e Hm (app h (map inj ev))).
    now destruct (handler e (app h (map inj ev))).
Qed.

Lemma ends_try {A} (P : result (result A) -> Prop) (m : IO A) :
  (forall r, P (Ok r)) -> ends_with P (try_ m).
Proof. intros H h. unfold try_. destruct (m h). apply H. Qed.

Lemma ends_try_with {A} (Q : result A -> Prop) (P : result (result A) -> Prop)
      (m : IO A) :
  ends_with Q m -> (forall r, Q r -> P (Ok r)) -> ends_with P (try_ m).
Proof.
  intros Hm H h. unfold try_. specialize (Hm h). destruct (m h). now apply H.
Qed.

Lemma ends_if {A} (P : result A -> Prop) (b : bool) (m1 m2 : IO A) :
  ends_with P m1 -> ends_with P m2 -> ends_with P (if b then m1 else m2).
Proof. now destruct b. Qed.

Lemma ends_anything {A} (m : IO A) : ends_with anything m.
Proof. intro h. exact I. Qed.

Lemma total_returns {A} (m : IO A) : total m <-> ends_with returns m.
Proof.
  split.
  - intros Hm h. destruct (Hm h) as [ev [a ->]]. exact I.
  - intros Hm h. specialize (Hm h). destruct (m h) as [ev [a | e]]; simpl in Hm;
      [eauto | contradiction].
Qed.

Lemma ends_total {A} (P : result A -> Prop) (m : IO A) :
  total m -> (forall a, P (Ok a)) -> ends_with P m.
Proof. intros Hm H h. destruct (Hm h) as [ev [a ->]]. apply H. Qed.

(** A computation that is followed by one that does not raise and whose
    value is not used. *)
Lemma ends_then {A B} (P : result B -> Prop) (m : IO A) (k : IO B) :
  total m -> ends_with P k -> ends_with P (bind m (fun _ => k)).
Proof.
  intros Hm Hk. apply ends_bind with (Q := returns).
  - now apply total_returns.
  - intros a _. exact Hk.
  - intros e [].
Qed.

Lemma total_catch {A} (m : IO A) (handler : exn -> IO A) :
  (forall e, total (handler e)) -> total (catch m handler).
Proof.
  intros Hk h. unfold catch. destruct (m h) as [ev [a | e]]; [eauto |].
  destruct (Hk e (app h (map inj ev))) as [ev' [a ->]]. eauto.
Qed.

Lemma total_try_io {A} (m : IO A) : total (try_ m).
Proof. intro h. unfold try_. destruct (m h). eauto. Qed.

Lemma ends_bind_any {A B} (P : result B -> Prop) (m : IO A) (f : A -> IO B) :
  (forall a, ends_with P (f a)) -> (forall e, P (Raise e)) -> ends_with P (bind m f).
Proof.
  intros Hf He. apply ends_bind with (Q := anything); auto using ends_anything.
Qed.

Lemma ends_let_try {A B} (P : result B -> Prop) (m : IO A) (f : result A -> IO B) :
  (forall r, ends_with P (f r)) -> ends_with P (bind (try_ m) f).
Proof.
  intro Hf. apply ends_bind with (Q := returns).
  - apply ends_try. intro r. exact I.
  - intros r _. apply Hf.
  - intros e [].
Qed.

Lemma ends_bind_ret {A B} (P : result B -> Prop) (a : A) (f : A -> IO B) :
  ends_with P (f a) -> ends_with P (bind (ret a) f).
Proof.
  intro Hf. apply ends_bind with (Q := fun r => r = Ok a).
  - intro h. reflexivity.
  - intros a' Ha. inversion Ha. exact Hf.
  - intros e He. discriminate.
Qed.

Lemma ends_try_ret_then {A B C} (P : result C -> Prop) (m : IO A)
      (g : result A -> B) (k : B -> IO C) :
  (forall t, ends_with P (k (g t))) ->
  ends_with P (bind (bind (try_ m) (fun t => ret (g t))) k).
Proof.
  intro Hk. apply ends_bind with (Q := fun r => exists t, r = Ok (g t)).
  - apply ends_let_try. intro t. apply ends_ret. eauto.
  - intros a [t Ht]. inversion Ht. apply Hk.
  - intros e [t Ht]. discriminate.
Qed.

Lemma bind_silent {A B} (m : IO A) (f : A -> IO B) (h : list event) (a : A) :
  m h = ([], Ok a) -> bind m f h = f a h.
Proof.
  intro Hm. rewrite bind_io, Hm. simpl. rewrite app_nil_r. now destruct (f a h).
Qed.

End OutcomeFacts.
(** * Further facts about the click transaction *)

Module TransactionMore.
Import Runner Trace Steps TransactionShape Outcome.
Import RunFacts OutcomeFacts TransactionFacts StepFacts Examples.
Local Open Scope run_scope.

#[local] Hint Resolve total_ret total_swallow total_clock total_if
  total_write_debug_log total_log_checkpoint total_log_debug_checkpoint
  total_check_dropdown_state total_probe_dropdown total_try_io : total.
#[local] Hint Extern 2 (total (bind _ _)) =>
  apply total_bind_io; [| intro] : total.
#[local] Hint Extern 2 (total (catch _ _)) =>
  apply total_catch; intro : total.

(** ** Stabilising *)

(** X6.  [_pre_stabilize] returns [None] or raises a [ValueError] that says
    the element was not found, not visible or not actionable; what the
    waits for the load state and the idle time and the scrolling raise is
    never passed on. *)
Theorem pre_stabilize_raises_value_error (drv : driver) (tgt : target)
        (selector : string) (h : list event) :
  match snd (_pre_stabilize drv tgt selector h) with
  | Ok v => v = VNone
  | Raise e =>
      e = not_found selector \/ e = not_visible selector
      \/ exists cause, e = not_actionable selector cause
  end.
Proof.
  unfold _pre_stabilize. rewrite traced_io_run. simpl snd.
  unfold swallow, wait_for_timeout, bind, catch, call, ret, raise,
    not_found, not_visible, not_actionable.
  repeat (step_reply drv).
  all: rewrite ?app_nil_r, <- ?app_assoc; cbv delta [inj emits_io] beta; simpl.
  all: eauto.
Qed.

(** ** Clicking *)

(** X7.  [_execute_click_multi_strategy] returns the name of the strategy
    that clicked ([native_click], [force_click], [coordinate_click] or
    [js_click]), or [None] when the element has no bounding box; it raises
    only when the native, the forced and the scripted click all raised and
    the click by coordinates raised too, and then the error is a
    [RuntimeError] that quotes the four errors.  A hover that fails is
    passed over. *)
Theorem click_strategy_outcome (drv : driver) (self : transaction) (tgt : target)
        (selector : string) (h : list event) :
  match snd (_execute_click_multi_strategy drv self tgt selector h) with
  | Ok method => In method click_methods
  | Raise e => all_failed selector e
  end.
Proof.
  unfold _execute_click_multi_strategy. rewrite traced_io_run. simpl snd.
  set (P := fun r : result value =>
              match r with
              | Ok method => In method click_methods
              | Raise e => all_failed selector e
              end).
  match goal with
  | |- match snd (?b ?hist) with _ => _ end =>
      generalize hist; change (ends_with P b)
  end.
  cbv zeta.
  apply ends_then; [auto 10 with total |].
  apply ends_catch with (Q := returns_only (fun v => v = VStr "native_click")).
  { apply ends_bind with (Q := anything); [apply ends_anything | | intros; exact I].
    intros _ _. apply ends_then; [auto with total |]. now apply ends_ret. }
  { intros a ->. simpl. auto. }
  intros e1 _. apply ends_then; [auto with total |].
  apply ends_catch with (Q := returns_only (fun v => v = VStr "force_click")).
  { apply ends_bind with (Q := anything); [apply ends_anything | | intros; exact I].
    intros _ _. apply ends_then; [auto with total |]. now apply ends_ret. }
  { intros a ->. simpl. auto. }
  intros e2 _. apply ends_then; [auto with total |].
  apply ends_catch
    with (Q := returns_only (fun v => v = VStr "coordinate_click" \/ v = VNone)).
  { apply ends_bind with (Q := anything); [apply ends_anything | | intros; exact I].
    intros box _. apply ends_if.
    - apply ends_bind with (Q := anything); [apply ends_anything | | intros; exact I].
      intros _ _. apply ends_then; [auto with total |]. apply ends_ret. simpl. auto.
    - apply ends_ret. simpl. auto. }
  { intros a [-> | ->]; simpl; auto 10. }
  intros e3 _. apply ends_then; [auto with total |].
  apply ends_catch with (Q := returns_only (fun v => v = VStr "js_click")).
  { apply ends_bind with (Q := anything); [apply ends_anything | | intros; exact I].
    intros _ _. apply ends_then; [auto with total |]. now apply ends_ret. }
  { intros a ->. simpl. auto 10. }
  intros e4 _. apply ends_raise. exists e1, e2, e3, e4. reflexivity.
Qed.

(** ** The scopes of an evaluation *)

Lemma collect_scopes_extends (one : nat -> target -> IO (list scope)) :
  forall items i scopes,
    ends_with (returns_only (fun l => exists more, l = app scopes more) )
              (collect_scopes one i items scopes)
    /\ total (collect_scopes one i items scopes).
Proof.
  induction items as [| x rest IH]; intros i scopes; simpl.
  - split; [| apply total_ret]. apply ends_ret. exists []. now rewrite app_nil_r.
  - split.
    + apply ends_bind with (Q := anything); [apply ends_anything | | intros; exact I].
      intros [new | e] _.
      * eapply ends_with_weaken; [apply (IH (S i) (app scopes new)) |].
        intros [l |]; simpl; auto. intros [more ->]. exists (app new more).
        now rewrite app_assoc.
      * apply ends_ret. exists []. now rewrite app_nil_r.
    + apply total_bind_io; [apply total_try_io |].
      intros [new | e]; [apply IH | apply total_ret].
Qed.

Lemma total_get_all_evaluation_scopes (drv : driver) (self : transaction) :
  total (_get_all_evaluation_scopes drv self).
Proof.
  unfold _get_all_evaluation_scopes.
  apply total_bind_io; [apply total_try_io | intros [l | e]].
  - apply total_bind_io; [apply collect_scopes_extends | intro scopes].
    apply total_bind_io; [apply total_try_io | intros [l' | e']];
      [apply collect_scopes_extends | apply total_ret].
  - apply total_bind_io; [apply total_ret | intro scopes].
    apply total_bind_io; [apply total_try_io | intros [l' | e']];
      [apply collect_scopes_extends | apply total_ret].
Qed.

(** X8.  [_get_all_evaluation_scopes] never raises, whatever the browser
    answers, and the first scope it returns is the page of the transaction
    under the name [top_page]. *)
Theorem scopes_start_with_top_page (drv : driver) (self : transaction) (h : list event) :
  exists ev rest,
    _get_all_evaluation_scopes drv self h
    = (ev, Ok ((tx_page self, "top_page") :: rest)).
Proof.
  assert (He : ends_with (returns_only
                            (fun l => exists rest, l = (tx_page self, "top_page") :: rest))
                         (_get_all_evaluation_scopes drv self)).
  { unfold _get_all_evaluation_scopes.
    apply ends_bind with (Q := anything); [apply ends_anything | | intros; exact I].
    intros frames _.
    apply ends_bind
      with (Q := returns_only
                   (fun l => exists rest, l = (tx_page self, "top_page") :: rest)).
    - destruct frames as [l | e].
      + eapply ends_with_weaken; [apply collect_scopes_extends |].
        intros [l' |]; simpl; auto; intros [more ->]; eauto.
      + apply ends_ret. simpl. eauto.
    - intros scopes [rest ->].
      apply ends_bind with (Q := anything); [apply ends_anything | | intros; exact I].
      intros [l | e] _.
      + eapply ends_with_weaken; [apply collect_scopes_extends |].
        intros [l' |]; simpl; auto; intros [more ->]; eauto.
      + apply ends_ret. simpl. eauto.
    - intros; exact I. }
  specialize (He h).
  destruct (total_get_all_evaluation_scopes drv self h) as [ev [scopes Heq]].
  rewrite Heq in *. simpl in He.
  destruct He as [rest ->]. eauto.
Qed.

(** ** Conditions that cannot be evaluated *)

Lemma unanswerable_condition (drv : driver) (self : transaction) (condition : dict)
      (scopes : list scope) (h : list event) :
  unanswerable condition = true ->
  _evaluate_success_condition drv self condition scopes h = ([], Ok (false, VNone)).
Proof.
  unfold unanswerable, _evaluate_success_condition.
  destruct (eq_str (get "type" condition) "modal_visible").
  { intro H. now rewrite H. }
  destruct (eq_str (get "type" condition) "url_changed").
  { intro H. now rewrite H. }
  destruct (eq_str (get "type" condition) "popup_opened"); [discriminate |].
  destruct (eq_str (get "type" condition) "element_visible").
  { intro H. now rewrite H. }
  reflexivity.
Qed.

Lemma unanswerable_conditions (drv : driver) (self : transaction)
      (conditions : list dict) (scopes : list scope) (h : list event) :
  forallb unanswerable conditions = true ->
  first_condition drv self conditions scopes h = ([], Ok None).
Proof.
  induction conditions as [| c rest IH]; simpl; [reflexivity |].
  intro H. apply andb_true_iff in H. destruct H as [Hc Hrest].
  rewrite bind_io, (unanswerable_condition drv self c scopes h Hc).
  simpl. rewrite app_nil_r, (IH Hrest). reflexivity.
Qed.

Lemma evaluation_of_unanswerable (drv : driver) (self : transaction)
      (conditions : list dict) (h : list event) :
  conditions <> [] ->
  forallb unanswerable conditions = true ->
  snd (_evaluate_success_conditions drv self conditions h) = Ok (false, VNone).
Proof.
  intros Hne Hall. unfold _evaluate_success_conditions.
  rewrite traced_io_run. simpl snd.
  destruct conditions as [| c rest]; [congruence |].
  rewrite bind_io.
  destruct (total_get_all_evaluation_scopes drv self
              (app h [Enter "_evaluate_success_conditions"
                            [VList (map VDict (c :: rest))]]))
    as [ev [scopes ->]].
  rewrite bind_io, (unanswerable_conditions drv self (c :: rest) _ _ Hall).
  rewrite bind_io.
  match goal with
  | |- context [_log_checkpoint drv self ?n ?d ?hist] =>
      destruct (total_log_checkpoint drv self n d hist) as [ev' [[] ->]]
  end.
  reflexivity.
Qed.

(** X9.  When none of the success conditions can be evaluated (each has an
    unknown type, or lacks the text, url or selector its type needs), their
    evaluation returns [(False, None)] without asking the browser about any
    of them. *)
Theorem unanswerable_conditions_are_unmet (drv : driver) (self : transaction)
        (conditions : list dict) (scopes : list scope) (h : list event) :
  conditions <> [] ->
  forallb unanswerable conditions = true ->
  first_condition drv self conditions scopes h = ([], Ok None)
  /\ snd (_evaluate_success_conditions drv self conditions h) = Ok (false, VNone).
Proof.
  intros Hne Hall. split.
  - now apply unanswerable_conditions.
  - now apply evaluation_of_unanswerable.
Qed.

Lemma unanswerable_conditions_are_unmet_witness :
  let conditions := [[("type", VStr "modal_visibel"); ("text", VStr "Welcome")]] in
  conditions <> []
  /\ forallb unanswerable conditions = true
  /\ first_condition always_ok click_transaction conditions [] [] = ([], Ok None)
  /\ snd (_evaluate_success_conditions always_ok click_transaction conditions [])
     = Ok (false, VNone).
Proof.
  intro conditions. split; [discriminate |]. split; [reflexivity |].
  apply (unanswerable_conditions_are_unmet always_ok click_transaction conditions [] []);
    [discriminate | reflexivity].
Defined.

(** ** Transactions that cannot succeed *)

Lemma run_ends_ret {A} (P : result A -> Prop) (a : A) :
  P (Ok a) -> run_ends_with P (ret a).
Proof. intros H h. exact H. Qed.

Lemma run_ends_bind {A B} (Q : result A -> Prop) (P : result B -> Prop)
      (m : Run A) (f : A -> Run B) :
  run_ends_with Q m ->
  (forall a, Q (Ok a) -> run_ends_with P (f a)) ->
  (forall e, Q (Raise e) -> P (Raise e)) ->
  run_ends_with P (bind m f).
Proof.
  intros Hm Hf He h. rewrite bind_run. specialize (Hm h).
  destruct (m h) as [ev [a | e]]; simpl in *.
  - specialize (Hf a Hm (app h ev)). now destruct (f a (app h ev)).
  - now apply He.
Qed.

Lemma run_ends_catch {A} (Q P : result A -> Prop) (m : Run A) (handler : exn -> Run A) :
  run_ends_with Q m ->
  (forall a, Q (Ok a) -> P (Ok a)) ->
  (forall e, Q (Raise e) -> run_ends_with P (handler e)) ->
  run_ends_with P (catch m handler).
Proof.
  intros Hm Ha Hk h. rewrite catch_run. specialize (Hm h).
  destruct (m h) as [ev [a | e]]; simpl in *.
  - now apply Ha.
  - specialize (Hk e Hm (app h ev)). now destruct (handler e (app h ev)).
Qed.

Lemma run_ends_try {A} (Q : result A -> Prop) (P : result (result A) -> Prop)
      (m : Run A) :
  run_ends_with Q m -> (forall r, Q r -> P (Ok r)) -> run_ends_with P (try_ m).
Proof.
  intros Hm H h. unfold try_. specialize (Hm h). destruct (m h). now apply H.
Qed.

Lemma run_ends_anything {A} (m : Run A) : run_ends_with anything m.
Proof. intro h. exact I. Qed.

(** An [IO] block that does not raise, in front of the rest. *)
Lemma run_ends_then_io {A B} (P : result B -> Prop) (m : IO A) (k : Run B) :
  total m -> run_ends_with P k -> run_ends_with P (bind (io m) (fun _ => k)).
Proof.
  intros Hm Hk h. rewrite bind_run.
  destruct (io_total_run m h Hm) as [ev [a ->]].
  specialize (Hk (app h (map Io ev))). now destruct (k (app h (map Io ev))).
Qed.

Section Unanswerable.
Variable drv : driver.
Variable self : transaction.
Variable conditions : list dict.
Hypothesis some_condition : conditions <> [].
Hypothesis all_unanswerable : forallb unanswerable conditions = true.

Lemma attempt_never_returns (tgt : target) (sel : string) (max_retries attempt : Z) :
  run_ends_with no_return (attempt_body drv self tgt sel conditions max_retries attempt).
Proof.
  unfold attempt_body.
  apply run_ends_bind with (Q := anything);
    [apply run_ends_anything | | intros; exact I].
  intros _ _.
  apply run_ends_bind with (Q := anything);
    [apply run_ends_anything | | intros; exact I].
  intros method _.
  apply run_ends_then_io; [auto 10 with total |].
  destruct conditions as [| c rest] eqn:Hc; [congruence |].
  apply run_ends_then_io; [auto 10 with total |].
  apply run_ends_bind with (Q := fun r => r = Ok (false, VNone)).
  - intro h. rewrite <- Hc. apply evaluation_of_unanswerable; congruence.
  - intros r Hr. inversion Hr; subst.
    apply run_ends_then_io; [auto 10 with total |].
    destruct (attempt <? max_retries);
      (apply run_ends_then_io; [auto 10 with total |]); now apply run_ends_ret.
  - intros e He. discriminate He.
Qed.

Lemma retry_loop_never_succeeds (tgt : target) (sel : string) (max_retries : Z) :
  forall n attempt last_error,
    run_ends_with no_success
      (retry_loop drv self tgt sel conditions max_retries n attempt last_error).
Proof.
  induction n as [| n IH]; intros attempt last_error; simpl.
  - now apply run_ends_ret.
  - apply run_ends_bind
      with (Q := fun r => match r with Ok x => no_return x | Raise _ => True end).
    + apply run_ends_try with (Q := no_return); auto.
      apply attempt_never_returns.
    + intros [[v | |] | e] Hr.
      * contradiction.
      * apply IH.
      * now apply run_ends_ret.
      * destruct (attempt <? max_retries).
        -- apply run_ends_then_io; [auto 10 with total | apply IH].
        -- now apply run_ends_ret.
    + intros; exact I.
Qed.

Lemma selectors_loop_never_succeeds (tgt : target) (max_retries : Z) :
  forall selectors last_error,
    run_ends_with (fun r => no_success r /\ returns r)
      (selectors_loop drv self tgt selectors conditions max_retries last_error).
Proof.
  induction selectors as [| sel rest IH]; intro last_error; simpl.
  - apply run_ends_ret. split; exact I.
  - apply run_ends_bind with (Q := fun r => no_success r /\ returns r).
    + apply run_ends_catch with (Q := no_success).
      * apply retry_loop_never_succeeds.
      * intros a Ha. split; [exact Ha | exact I].
      * intros e _. apply run_ends_ret. split; exact I.
    + intros [[v |] le] [Hr _]; [contradiction | apply IH].
    + intros e [_ []].
Qed.

End Unanswerable.

(** X10.  A click transaction whose success conditions can none of them be
    evaluated never succeeds: whatever the browser does, and however many
    candidates and retries it has, it raises or returns
    [(False, "unknown")]. *)
Theorem unanswerable_conditions_fail_the_click (drv : driver) (self : transaction)
        (tgt : target) (selector : selector_arg) (conditions : list dict)
        (max_retries : Z) (h : list event) :
  conditions <> [] ->
  forallb unanswerable conditions = true ->
  failed (snd (execute_click_transaction drv self tgt selector (Some conditions)
                                         max_retries h)).
Proof.
  intros Hne Hall. unfold execute_click_transaction.
  revert h.
  change (run_ends_with failed
            (bind (selectors_loop drv self tgt (selectors_of selector) conditions
                                  max_retries None)
                  (fun r => match r with
                            | (Some v, _) => ret v
                            | (None, Some last_error) => raise last_error
                            | (None, None) => ret (false, VStr "unknown")
                            end))).
  apply run_ends_bind with (Q := fun r => no_success r /\ returns r).
  - now apply selectors_loop_never_succeeds.
  - intros [[v |] [e |]] [Hr _]; try contradiction.
    + intro h0. exact I.
    + intro h0. reflexivity.
  - intros e [_ []].
Qed.

Lemma unanswerable_conditions_fail_the_click_witness :
  let conditions := [[("type", VStr "modal_visibel"); ("text", VStr "Welcome")]] in
  conditions <> []
  /\ forallb unanswerable conditions = true
  /\ failed (snd (execute_click_transaction always_ok click_transaction (Page 0)
                                            (One "#a") (Some conditions) 2 [])).
Proof.
  intro conditions. split; [discriminate |]. split; [reflexivity |].
  apply (unanswerable_conditions_fail_the_click always_ok click_transaction (Page 0)
                                               (One "#a") conditions 2 []);
    [discriminate | reflexivity].
Defined.

(** ** Nothing to try *)

Lemma concat_empty_groups {A} (groups : list (list A)) :
  Forall (fun g => (length g <= 0)%nat) groups -> concat groups = [].
Proof.
  induction 1 as [| g groups Hg _ IH]; simpl; auto.
  destruct g; simpl in *; [exact IH | lia].
Qed.

(** X11.  With a negative [max_retries], or with an empty list of
    candidates, a click transaction attempts nothing and returns
    [(False, "unknown")]: it does not raise. *)
Theorem no_attempt_without_budget (drv : driver) (self : transaction) (tgt : target)
        (selector : selector_arg) (success_conditions : option (list dict))
        (max_retries : Z) (h : list event) :
  max_retries < 0 \/ selectors_of selector = [] ->
  let run := execute_click_transaction drv self tgt selector success_conditions
                                       max_retries h in
  attempted (fst run) = [] /\ snd run = Ok (false, VStr "unknown").
Proof.
  intros Hnone run. subst run.
  destruct (execute_click_transaction drv self tgt selector success_conditions
                                      max_retries h) as [ev res] eqn:E.
  apply execute_click_transaction_shape in E.
  destruct E as [groups [r' [Hm [Hlen [Hbound [_ [Hres ->]]]]]]].
  assert (Hz : Forall (fun g : list attempt_shape => (length g <= 0)%nat) groups).
  { destruct Hnone as [Hneg | Hnil].
    - replace (Z.to_nat (max_retries + 1)) with O in Hbound by lia. exact Hbound.
    - rewrite Hnil in Hlen. destruct groups; [constructor | discriminate]. }
  simpl. split.
  - rewrite <- attempted_marks, Hm, attempted_groups.
    assert (Hl : (length (blocks (selectors_of selector)
                                 (map (@length attempt_shape) groups))
                  <= length (selectors_of selector) * 0)%nat).
    { apply blocks_length. rewrite Forall_map. exact Hz. }
    destruct (blocks _ _); [reflexivity | simpl in Hl; lia].
  - rewrite (concat_empty_groups groups Hz) in Hres.
    destruct Hres as [[pre [a [le' [Hc _]]]] | [_ [le' [-> Hle]]]].
    + destruct pre; discriminate Hc.
    + destruct Hle as [-> | [a [e [[] _]]]]. reflexivity.
Qed.

Lemma no_attempt_without_budget_witness :
  (-1 < 0 \/ selectors_of (One "#a") = [])
  /\ (let run := execute_click_transaction always_ok click_transaction (Page 0)
                                           (One "#a") None (-1) [] in
      attempted (fst run) = [] /\ snd run = Ok (false, VStr "unknown")).
Proof.
  split; [left; lia |].
  apply (no_attempt_without_budget always_ok click_transaction (Page 0) (One "#a")
                                   None (-1) []).
  left. lia.
Defined.

(** ** Success ends the transaction *)

Lemma marks_split (ev : list event) :
  forall front e back,
    marks ev = app front (e :: back) ->
    exists before after,
      ev = app before (e :: after) /\ marks before = front /\ marks after = back.
Proof.
  induction ev as [| x ev IH]; intros front e back H.
  - destruct front; discriminate H.
  - destruct (is_mark x) eqn:Hx.
    + rewrite (marks_cons_mark x ev Hx) in H.
      destruct front as [| a front]; simpl in H; inversion H; subst.
      * exists [], ev. repeat split; reflexivity.
      * destruct (IH front e back H2) as [before [after [-> [Hb Ha]]]].
        exists (a :: before), after. repeat split; auto.
        rewrite (marks_cons_mark a before Hx). now rewrite Hb.
    + assert (Hm : marks (x :: ev) = marks ev)
        by (unfold marks; simpl; now rewrite Hx).
      rewrite Hm in H.
      destruct (IH front e back H) as [before [after [-> [Hb Ha]]]].
      exists (x :: before), after. repeat split; auto.
      unfold marks. simpl. rewrite Hx. exact Hb.
Qed.

Lemma groups_marks_empty (conds : list dict) :
  forall selectors groups,
    concat groups = [] -> groups_marks selectors conds groups = [].
Proof.
  induction selectors as [| sel rest IH]; intros [| g groups] H; simpl; auto.
  simpl in H. apply app_eq_nil in H. destruct H as [-> Hrest].
  now rewrite (IH groups Hrest).
Qed.

(** The marks of a transaction end with those of its last attempt. *)
Lemma groups_marks_last (conds : list dict) (a : attempt_shape) :
  forall groups selectors pre,
    length groups = length selectors ->
    concat groups = app pre [a] ->
    exists front sel,
      groups_marks selectors conds groups = app front (shape_marks sel conds a).
Proof.
  induction groups as [| g groups IH]; intros selectors pre Hlen Hc.
  - destruct pre; discriminate Hc.
  - destruct selectors as [| sel rest]; [discriminate Hlen |].
    injection Hlen as Hlen. simpl in *.
    assert (Hcase : concat groups = []
                    \/ exists pre' a', concat groups = app pre' [a']).
    { destruct (concat groups) as [| x l]; [now left | right].
      destruct (exists_last (l := x :: l)) as [pre' [a' Hl]]; [discriminate | eauto]. }
    destruct Hcase as [Hrest | [pre' [a' Hl]]].
    + rewrite (groups_marks_empty conds rest groups Hrest).
      rewrite Hrest, app_nil_r in Hc. subst g.
      exists (attempts_marks sel conds pre), sel.
      unfold attempts_marks. rewrite flat_map_app. simpl.
      now rewrite !app_nil_r.
    + rewrite Hl, app_assoc in Hc. apply app_inj_tail in Hc. destruct Hc as [_ <-].
      destruct (IH rest pre' Hlen Hl) as [front [sel' ->]].
      exists (app (attempts_marks sel conds g) front), sel'.
      now rewrite app_assoc.
Qed.

(** X12.  When a click transaction returns [(True, method)], the click that
    returned [method] is the last click of the transaction and no attempt
    is started after it: success ends the transaction at once. *)
Theorem success_ends_the_transaction (drv : driver) (self : transaction) (tgt : target)
        (selector : selector_arg) (success_conditions : option (list dict))
        (max_retries : Z) (h : list event) (method : value) :
  snd (execute_click_transaction drv self tgt selector success_conditions max_retries h)
  = Ok (true, method) ->
  exists before after,
    fst (execute_click_transaction drv self tgt selector success_conditions
                                   max_retries h)
    = app before (Leave "_execute_click_multi_strategy" (Ok method) :: after)
    /\ entered "_pre_stabilize" after = false
    /\ entered "_execute_click_multi_strategy" after = false.
Proof.
  destruct (execute_click_transaction drv self tgt selector success_conditions
                                      max_retries h) as [ev res] eqn:E.
  apply execute_click_transaction_shape in E.
  destruct E as [groups [r' [Hm [Hlen [_ [Hws [Hres ->]]]]]]].
  simpl. intro Hr.
  destruct Hres as [[pre [a [le' [Hc [_ [Hp ->]]]]]] | [_ [le' [-> _]]]].
  2: { destruct le'; discriminate Hr. }
  inversion Hr; subst. clear Hr.
  destruct (groups_marks_last (conditions_of success_conditions) a groups
              (selectors_of selector) pre Hlen Hc) as [front [sel Hg]].
  rewrite Hg in Hm.
  assert (Hshape : exists front' back,
             shape_marks sel (conditions_of success_conditions) a
             = app front' (Leave "_execute_click_multi_strategy" (Ok (method_of a))
                                 :: back)
             /\ entered "_pre_stabilize" back = false
             /\ entered "_execute_click_multi_strategy" back = false).
  { destruct a as [e | v e | v m | v m e | v m [|] info]; simpl in Hp;
      try discriminate.
    - eexists [_; _; _], []. repeat split.
    - eexists [_; _; _], [_; _]. repeat split. }
  destruct Hshape as [front' [back [Hs [Hb1 Hb2]]]].
  rewrite Hs, app_assoc in Hm.
  destruct (marks_split ev _ _ _ Hm) as [before [after [-> [_ Ha]]]].
  exists before, after. split; [reflexivity |].
  rewrite <- (entered_marks "_pre_stabilize"),
          <- (entered_marks "_execute_click_multi_strategy"), Ha.
  now split.
Qed.

Lemma success_ends_the_transaction_witness :
  let run := execute_click_transaction always_ok click_transaction (Page 0)
                                       (Many ["#a"; "#b"]) None 2 [] in
  snd run = Ok (true, VStr "native_click")
  /\ exists before after,
      fst run = app before (Leave "_execute_click_multi_strategy"
                                  (Ok (VStr "native_click")) :: after)
      /\ entered "_pre_stabilize" after = false
      /\ entered "_execute_click_multi_strategy" after = false.
Proof.
  intro run.
  assert (Hr : snd run = Ok (true, VStr "native_click")) by (vm_compute; reflexivity).
  split; [exact Hr |].
  exact (success_ends_the_transaction always_ok click_transaction (Page 0)
                                      (Many ["#a"; "#b"]) None 2 []
                                      (VStr "native_click") Hr).
Defined.

(** ** The URL of a condition *)

Lemma rstrip_star_app_star (u : string) : rstrip_star (u ++ "*") = rstrip_star u.
Proof.
  induction u as [| c u IH]; [reflexivity |].
  change (String c u ++ "*")%string with (String c (u ++ "*")).
  simpl. now rewrite IH.
Qed.

Lemma endswith_nonempty (u p : string) :
  endswith u p = true -> p <> "" -> String.eqb u "" = false.
Proof.
  destruct u as [| c u]; [| reflexivity].
  simpl. destruct p; [congruence | discriminate].
Qed.

(** X27.  The star the compiler puts at the end of the URL of a
    [url_changed] condition is dropped again when the condition is
    evaluated: the condition compiled for the URL [url] asks, page by page,
    whether the location begins with [url] without its final stars. *)
Theorem compiled_url_condition_checks_prefix (drv : driver) (self : transaction)
        (url : string) (p : value) (condition : dict) (scopes : list scope)
        (h : list event) :
  Compiler.url_pattern_of (VStr url) = Ok p ->
  Compiler.url_changed p = VDict condition ->
  exists pattern,
    p = VStr pattern
    /\ _evaluate_success_condition drv self condition scopes h
       = url_scope drv pattern (rstrip_star url) (VInt 15000) scopes h.
Proof.
  unfold Compiler.url_pattern_of, Compiler.url_changed. simpl.
  intros Hp Hc. inversion Hp; subst p. inversion Hc; subst condition. clear Hp Hc.
  eexists. split; [reflexivity |].
  unfold _evaluate_success_condition.
  change (get "type" _) with (VStr "url_changed").
  change (get "url" _) with (VStr (if endswith url "*" then url else (url ++ "*")%string)).
  change (get_default "timeout" _ _) with (VInt 15000).
  cbv zeta.
  change (eq_str (VStr "url_changed") "modal_visible") with false.
  change (eq_str (VStr "url_changed") "url_changed") with true.
  cbv iota.
  assert (Hne : truthy (VStr (if endswith url "*" then url else (url ++ "*")%string))
                = true).
  { simpl. destruct (endswith url "*") eqn:E.
    - now rewrite (endswith_nonempty url "*" E).
    - now rewrite append_star_nonempty. }
  rewrite Hne. change (negb true) with false. cbv iota.
  change (as_str (VStr ?s)) with (Ok s).
  rewrite (bind_silent _ _ h _ eq_refl).
  destruct (endswith url "*") eqn:E.
  - rewrite E. reflexivity.
  - rewrite endswith_star, rstrip_star_app_star. reflexivity.
Qed.

Lemma compiled_url_condition_checks_prefix_witness :
  let condition := [("type", VStr "url_changed"); ("url", VStr "https://x.test/done*");
                    ("timeout", VInt 15000)] in
  let scopes := [(Page 0, "top_page")] in
  Compiler.url_pattern_of (VStr "https://x.test/done") = Ok (VStr "https://x.test/done*")
  /\ exists pattern,
      VStr "https://x.test/done*" = VStr pattern
      /\ _evaluate_success_condition always_ok click_transaction condition scopes []
         = url_scope always_ok pattern "https://x.test/done" (VInt 15000) scopes [].
Proof.
  intros condition scopes. split; [reflexivity |].
  apply (compiled_url_condition_checks_prefix always_ok click_transaction
           "https://x.test/done" (VStr "https://x.test/done*") condition scopes []);
    reflexivity.
Defined.

End TransactionMore.
(** * Further facts about the steps *)

Module StepMore.
Import Runner Trace Steps StepShape Outcome.
Import RunFacts OutcomeFacts StepFacts Examples MoreExamples.
Local Open Scope run_scope.

#[local] Hint Resolve total_ret total_swallow total_clock total_if
  total_write_debug_log total_log_debug_checkpoint total_check_dropdown_state
  total_try_io total_post_step_delay : total.
#[local] Hint Extern 2 (total (bind _ _)) =>
  apply total_bind_io; [| intro] : total.
#[local] Hint Extern 2 (total (catch _ _)) =>
  apply total_catch; intro : total.

(** ** The delay of a step *)

(** X13.  The delay after a step is never negative and never fails the
    step: the page is asked to wait for [max(0, int(delay))] milliseconds
    when that is positive, an error of the wait is ignored, and nothing is
    asked otherwise.  The delay is read from [delay_ms] whenever the step
    has that key, even when its value is null or cannot be read as a number
    (the delay is 0 then, [delay] is not looked at). *)
Theorem delay_is_never_negative (drv : driver) (page : target) (step : dict)
        (h : list event) :
  let delay := _get_delay_ms step in
  0 <= delay
  /\ post_step_delay drv page step h
     = (if 0 <? delay then [Call page "wait_for_timeout" [VInt delay]] else [], Ok tt)
  /\ (forall v, lookup "delay_ms" step = Some v ->
                delay = _get_delay_ms [("delay_ms", v)]).
Proof.
  intro delay. subst delay. split; [| split].
  - unfold _get_delay_ms. destruct (int_or_0 _); lia.
  - unfold post_step_delay. destruct (0 <? _get_delay_ms step); [| reflexivity].
    unfold swallow, wait_for_timeout, catch, bind, call, ret. simpl.
    now destruct (reply drv _).
  - intros v Hv. unfold _get_delay_ms, get_default. rewrite Hv. reflexivity.
Qed.

(** ** Steps of a type that is not known *)

Lemma dispatch_unknown (drv : driver) (page : target) (step : dict)
      (run_dir : string) (ctx : option context) :
  existsb (eq_str (get "type" step)) known_types = false ->
  dispatch_step drv page step run_dir ctx = raise (type_error (get "type" step)).
Proof.
  intro H. unfold dispatch_step, type_error. cbv zeta.
  destruct (truthy (get "type" step)); [| reflexivity].
  simpl in H.
  repeat (apply orb_false_iff in H; destruct H as [?Hty H]).
  simpl negb. cbv iota.
  repeat match goal with
         | Ht : eq_str _ _ = false |- _ => rewrite Ht; clear Ht
         end.
  reflexivity.
Qed.

(** X14.  A step without a type, or of a type that [run_step] does not
    know, raises [ValueError] before the browser is asked anything. *)
Theorem unknown_step_type_is_rejected (drv : driver) (page : target) (step : dict)
        (run_dir : string) (ctx : option context) (next_step : option dict)
        (h : list event) :
  existsb (eq_str (get "type" step)) known_types = false ->
  run_step drv page step run_dir ctx next_step h
  = ([Enter "run_step" [VDict step];
      Leave "run_step" (Raise (type_error (get "type" step)))],
     Raise (type_error (get "type" step))).
Proof.
  intro H. unfold run_step. rewrite traced_io_run.
  rewrite (dispatch_unknown drv page step run_dir ctx H). reflexivity.
Qed.

Lemma unknown_step_type_is_rejected_witness :
  let step := [("type", VStr "hover"); ("selector", VStr "#a")] in
  existsb (eq_str (get "type" step)) known_types = false
  /\ run_step always_ok (Page 0) step "/run" None None []
     = ([Enter "run_step" [VDict step];
         Leave "run_step" (Raise (ValueError "Unknown step type: hover"))],
        Raise (ValueError "Unknown step type: hover")).
Proof.
  intro step. split; [reflexivity |].
  apply (unknown_step_type_is_rejected always_ok (Page 0) step "/run" None None []).
  reflexivity.
Defined.

(** ** The page stack *)

Lemma run_step_result (drv : driver) (page : target) (step : dict)
      (run_dir : string) (ctx : option context) (next_step : option dict)
      (h : list event) :
  snd (run_step drv page step run_dir ctx next_step h)
  = snd (dispatch_step drv page step run_dir ctx (app h [Enter "run_step" [VDict step]])).
Proof. unfold run_step. rewrite traced_io_run. reflexivity. Qed.

Lemma dispatch_close_page (drv : driver) (page : target) (step : dict)
      (run_dir : string) (ctx : option context) :
  get "type" step = VStr "close_page" ->
  dispatch_step drv page step run_dir ctx
  = after_switch drv step (step_close_page drv page ctx).
Proof. intro Hty. unfold dispatch_step. rewrite Hty. reflexivity. Qed.

Lemma step_close_page_result (drv : driver) (page : target) (c : context)
      (stack : list target) (h : list event) :
  page_stack c = Some stack ->
  snd (step_close_page drv page (Some c) h)
  = match rev stack with
    | _ :: below :: _ => Ok (below, Some (set_stack c (removelast stack)))
    | _ => Ok (page, Some c)
    end.
Proof.
  intro Hstack. unfold step_close_page, with_stack. rewrite Hstack.
  destruct (rev stack) as [| top [| below rest]] eqn:Hrev; try reflexivity.
  assert (Hs : removelast stack = rev (below :: rest)).
  { rewrite <- (rev_involutive stack), Hrev.
    change (rev (top :: below :: rest)) with (app (rev (below :: rest)) [top]).
    apply removelast_last. }
  rewrite Hs.
  unfold swallow, catch, bind, call, ret. simpl.
  now destruct (reply drv _).
Qed.

(** X15.  [close_page] with a stack of two pages or more takes the top page
    off the stack and goes on with the page below it, whether closing the
    top page works or raises; with a stack of one page or none it does
    nothing: the page and the stack stay as they are. *)
Theorem close_page_pops_the_stack (drv : driver) (page : target) (step : dict)
        (run_dir : string) (c : context) (stack : list target)
        (next_step : option dict) (h : list event) :
  get "type" step = VStr "close_page" ->
  page_stack c = Some stack ->
  snd (run_step drv page step run_dir (Some c) next_step h)
  = match rev stack with
    | _ :: below :: _ => Ok (below, Some (set_stack c (removelast stack)))
    | _ => Ok (page, Some c)
    end.
Proof.
  intros Hty Hstack.
  rewrite run_step_result, (dispatch_close_page _ _ _ _ _ Hty), after_switch_result.
  now apply step_close_page_result.
Qed.

Lemma close_page_pops_the_stack_witness :
  let step := [("type", VStr "close_page")] in
  let c := {| main_page := Some (Page 0); page_stack := Some [Page 0; Page 1] |} in
  get "type" step = VStr "close_page"
  /\ page_stack c = Some [Page 0; Page 1]
  /\ snd (run_step no_popup (Page 1) step "/run" (Some c) None [])
     = Ok (Page 0, Some (set_stack c [Page 0])).
Proof.
  intros step c. do 2 (split; [reflexivity |]).
  apply (close_page_pops_the_stack no_popup (Page 1) step "/run" c [Page 0; Page 1]
                                   None []); reflexivity.
Defined.

Ltac ends_last :=
  repeat (apply ends_bind_any; [intro | intro; exact I]).

Lemma step_click_popup_opens (drv : driver) (page : target) (step : dict)
      (ctx : option context) :
  ends_with (opens_on ctx (fst (with_stack ctx page)) (snd (with_stack ctx page)))
            (step_click_popup drv page step ctx).
Proof.
  unfold step_click_popup. destruct (with_stack ctx page) as [c stack].
  ends_last. apply ends_ret. reflexivity.
Qed.

Lemma step_popup_go_opens (drv : driver) (page : target) (step : dict)
      (ctx : option context) :
  ends_with (opens_on ctx (fst (with_stack ctx page)) (snd (with_stack ctx page)))
            (step_popup_go drv page step ctx).
Proof.
  unfold step_popup_go. destruct (with_stack ctx page) as [c stack].
  ends_last. apply ends_ret. reflexivity.
Qed.

Lemma dispatch_popup_go (drv : driver) (page : target) (step : dict)
      (run_dir : string) (ctx : option context) :
  get "type" step = VStr "popup_go" ->
  dispatch_step drv page step run_dir ctx
  = after_switch drv step (step_popup_go drv page step ctx).
Proof. intro Hty. unfold dispatch_step. rewrite Hty. reflexivity. Qed.

(** X16.  Closing a page that a [click_popup] or [popup_go] step opened
    undoes the step: the stack of pages is as it was before the page was
    opened, and the run goes on with the page that was on top of it. *)
Theorem closing_restores_the_stack (drv : driver) (page new_page : target)
        (open_step close_step : dict) (run_dir : string) (c : context)
        (stack : list target) (ctx' : option context)
        (next_step next_step' : option dict) (h h' : list event) :
  get "type" open_step = VStr "click_popup" \/ get "type" open_step = VStr "popup_go" ->
  get "type" close_step = VStr "close_page" ->
  page_stack c = Some stack ->
  stack <> [] ->
  snd (run_step drv page open_step run_dir (Some c) next_step h) = Ok (new_page, ctx') ->
  snd (run_step drv new_page close_step run_dir ctx' next_step' h')
  = Ok (last stack page, Some c).
Proof.
  intros Hopen Hclose Hstack Hne Hrun.
  assert (Hctx : ctx' = Some (set_stack c (app stack [new_page]))).
  { rewrite run_step_result in Hrun.
    assert (Hw : with_stack (Some c) page = (c, stack))
      by (unfold with_stack; now rewrite Hstack).
    destruct Hopen as [Hty | Hty].
    - rewrite (dispatch_click_popup _ _ _ _ _ Hty), after_switch_result in Hrun.
      pose proof (step_click_popup_opens drv page open_step (Some c)
                    (app h [Enter "run_step" [VDict open_step]])) as Ho.
      rewrite Hrun, Hw in Ho. exact Ho.
    - rewrite (dispatch_popup_go _ _ _ _ _ Hty), after_switch_result in Hrun.
      pose proof (step_popup_go_opens drv page open_step (Some c)
                    (app h [Enter "run_step" [VDict open_step]])) as Ho.
      rewrite Hrun, Hw in Ho. exact Ho. }
  subst ctx'.
  rewrite run_step_result, (dispatch_close_page _ _ _ _ _ Hclose), after_switch_result.
  rewrite (step_close_page_result drv new_page (set_stack c (app stack [new_page]))
             (app stack [new_page]) _ eq_refl).
  rewrite rev_app_distr. simpl app.
  destruct (rev stack) as [| below rest] eqn:Hrev.
  { apply (f_equal (@rev target)) in Hrev. rewrite rev_involutive in Hrev.
    contradiction. }
  rewrite removelast_last.
  assert (Hs : stack = app (rev rest) [below]).
  { rewrite <- (rev_involutive stack), Hrev. reflexivity. }
  assert (Hl : last stack page = below) by (rewrite Hs; apply last_last).
  rewrite Hl.
  destruct c as [main st]. simpl in Hstack. subst st. reflexivity.
Qed.

Lemma closing_restores_the_stack_witness :
  let c := {| main_page := Some (Page 0); page_stack := Some [Page 0] |} in
  let close_step := [("type", VStr "close_page")] in
  snd (run_step (popup_at "https://pay.test/") (Page 0) click_popup_pay "/run"
                (Some c) None [])
  = Ok (Page 1, Some (set_stack c [Page 0; Page 1]))
  /\ snd (run_step (popup_at "https://pay.test/") (Page 1) close_step "/run"
                   (Some (set_stack c [Page 0; Page 1])) None [])
     = Ok (Page 0, Some c).
Proof.
  intros c close_step.
  assert (Hopen : snd (run_step (popup_at "https://pay.test/") (Page 0) click_popup_pay
                                "/run" (Some c) None [])
                  = Ok (Page 1, Some (set_stack c [Page 0; Page 1])))
    by reflexivity.
  split; [exact Hopen |].
  apply (closing_restores_the_stack (popup_at "https://pay.test/") (Page 0) (Page 1)
           click_popup_pay close_step "/run" c [Page 0] _ None None [] []).
  - left. reflexivity.
  - reflexivity.
  - reflexivity.
  - discriminate.
  - exact Hopen.
Defined.


(** ** switch_main *)

(** X17.  [switch_main] goes on with the page the run began with and leaves
    the stack of pages as it is; it does not raise. *)
Theorem switch_main_keeps_the_stack (drv : driver) (page main : target) (step : dict)
        (run_dir : string) (c : context) (next_step : option dict) (h : list event) :
  get "type" step = VStr "switch_main" ->
  main_page c = Some main ->
  snd (run_step drv page step run_dir (Some c) next_step h) = Ok (main, Some c).
Proof.
  intros Hty Hmain. rewrite run_step_result. unfold dispatch_step.
  rewrite Hty. simpl. rewrite after_result. unfold step_switch_main.
  now rewrite Hmain.
Qed.

Lemma switch_main_keeps_the_stack_witness :
  let c := {| main_page := Some (Page 0); page_stack := Some [Page 0; Page 1] |} in
  let step := [("type", VStr "switch_main")] in
  get "type" step = VStr "switch_main"
  /\ main_page c = Some (Page 0)
  /\ snd (run_step always_ok (Page 1) step "/run" (Some c) None []) = Ok (Page 0, Some c).
Proof.
  intros c step. do 2 (split; [reflexivity |]).
  apply (switch_main_keeps_the_stack always_ok (Page 1) (Page 0) step "/run" c None []);
    reflexivity.
Defined.

(** ** Steps that need a selector *)

Lemma target_no_frame (drv : driver) (page : target) (step : dict) (w : bool)
      (h : list event) :
  truthy (get "frame" step) = false -> _target drv page step w h = ([], Ok page).
Proof.
  intro Hf. unfold _target, _resolve_frame. rewrite Hf. reflexivity.
Qed.

Lemma ends_needs {B} (key : string) (step : dict) (f : value -> IO B) :
  lookup key step = None ->
  ends_with raises (bind (lift (subscript step key)) f).
Proof.
  intros Hk h. unfold subscript. rewrite Hk. simpl. unfold raises. eauto.
Qed.

Lemma raises_raise {A} (e : exn) : @raises A (Raise e).
Proof. unfold raises. eauto. Qed.

#[local] Hint Resolve raises_raise : core.

Lemma selector_step_raises (drv : driver) (page : target) (step : dict)
      (run_dir : string) (ctx : option context) :
  existsb (eq_str (get "type" step)) ["fill"; "expect_visible"; "click_popup"] = true ->
  lookup "selector" step = None ->
  ends_with raises (dispatch_step drv page step run_dir ctx).
Proof.
  intros Hty Hsel. unfold dispatch_step.
  destruct (get "type" step) as [| | | t | |]; simpl in Hty; try discriminate.
  unfold eq_str in Hty.
  repeat (apply orb_true_iff in Hty; destruct Hty as [Hty | Hty]);
    try discriminate; apply String.eqb_eq in Hty; subst t; simpl.
  - unfold after, step_fill.
    apply ends_bind with (Q := raises); [| intros a [e He]; discriminate | auto].
    apply ends_bind_any; [intro tgt | auto]. now apply ends_needs.
  - unfold after, step_expect_visible.
    apply ends_bind with (Q := raises); [| intros a [e He]; discriminate | auto].
    apply ends_bind_any; [intro tgt | auto]. now apply ends_needs.
  - unfold after_switch, step_click_popup. destruct (with_stack ctx page) as [c stack].
    apply ends_bind with (Q := raises); [| intros a [e He]; discriminate | auto].
    now apply ends_needs.
Qed.

Lemma selector_step_key_error (drv : driver) (page : target) (step : dict)
      (run_dir : string) (ctx : option context) (h : list event) :
  existsb (eq_str (get "type" step)) ["fill"; "expect_visible"; "click_popup"] = true ->
  lookup "selector" step = None ->
  truthy (get "frame" step) = false ->
  dispatch_step drv page step run_dir ctx h = ([], Raise (KeyError "selector")).
Proof.
  intros Hty Hsel Hf. unfold dispatch_step.
  destruct (get "type" step) as [| | | t | |]; simpl in Hty; try discriminate.
  unfold eq_str in Hty.
  repeat (apply orb_true_iff in Hty; destruct Hty as [Hty | Hty]);
    try discriminate; apply String.eqb_eq in Hty; subst t; simpl.
  - unfold after, step_fill, bind. rewrite target_no_frame by exact Hf.
    unfold subscript. rewrite Hsel. reflexivity.
  - unfold after, step_expect_visible, bind. rewrite target_no_frame by exact Hf.
    unfold subscript. rewrite Hsel. reflexivity.
  - unfold after_switch, step_click_popup. destruct (with_stack ctx page) as [c stack].
    unfold bind, subscript. rewrite Hsel. reflexivity.
Qed.

(** What compiling does to a step of one of these types: the base fields
    are copied, and [text] may be added. *)
Lemma compiled_selector_step (raw_step : dict) (next : option value)
      (compiled : list dict) (c : dict) :
  existsb (eq_str (get "type" raw_step)) ["fill"; "expect_visible"; "click_popup"] = true ->
  Compiler.compile_step (VDict raw_step) next = Ok compiled ->
  In c compiled ->
  get "type" c = get "type" raw_step
  /\ lookup "selector" c = None
  /\ get "frame" c = get "frame" raw_step.
Proof.
  intros Hty Hc Hin.
  assert (Hbase : c = Compiler.copy_base raw_step
                  \/ exists text, c = dict_set "text" text (Compiler.copy_base raw_step)).
  { unfold Compiler.compile_step in Hc. simpl as_dict in Hc. unfold rbind in Hc.
    cbv zeta in Hc.
    destruct (get "type" raw_step) as [| | | t | |]; simpl in Hty; try discriminate.
    unfold eq_str in Hty.
    repeat (apply orb_true_iff in Hty; destruct Hty as [Hty | Hty]);
      try discriminate; apply String.eqb_eq in Hty; subst t; simpl in Hc.
    - inversion Hc; subst. destruct Hin as [<- | []]. now left.
    - inversion Hc; subst. destruct Hin as [<- | []]. now left.
    - unfold Compiler.compile_other in Hc.
      destruct (lookup "params" raw_step) as [[| | | s | l | params] |];
        try discriminate.
      + destruct (str_in "text" s); inversion Hc; subst.
        destruct Hin as [<- | []]. now left.
      + destruct (existsb _ l); inversion Hc; subst.
        destruct Hin as [<- | []]. now left.
      + destruct (lookup "text" params) as [text |]; inversion Hc; subst;
          destruct Hin as [<- | []]; eauto.
      + inversion Hc; subst. destruct Hin as [<- | []]. now left. }
  destruct Hbase as [-> | [text ->]].
  - unfold get, get_default. now rewrite !CompilerMore.lookup_copy_base_kept.
  - unfold get, get_default.
    rewrite !CompilerFacts.lookup_dict_set_other by discriminate.
    now rewrite !CompilerMore.lookup_copy_base_kept.
Qed.

(** X18.  A [fill], [expect_visible] or [click_popup] step that went
    through the compiler cannot be run: the compiled step has lost its
    selector, so [run_step] raises; when the step names no frame it raises
    [KeyError('selector')] before the browser is asked anything. *)
Theorem compiled_selector_steps_cannot_run (drv : driver) (raw_step : dict)
        (next : option value) (compiled : list dict) (c : dict) (page : target)
        (run_dir : string) (ctx : option context) (next_step : option dict)
        (h : list event) :
  existsb (eq_str (get "type" raw_step)) ["fill"; "expect_visible"; "click_popup"] = true ->
  Compiler.compile_step (VDict raw_step) next = Ok compiled ->
  In c compiled ->
  raises (snd (run_step drv page c run_dir ctx next_step h))
  /\ (truthy (get "frame" raw_step) = false ->
      run_step drv page c run_dir ctx next_step h
      = ([Enter "run_step" [VDict c];
          Leave "run_step" (Raise (KeyError "selector"))],
         Raise (KeyError "selector"))).
Proof.
  intros Hty Hc Hin.
  destruct (compiled_selector_step raw_step next compiled c Hty Hc Hin)
    as [Htc [Hsel Hfc]].
  rewrite <- Htc in Hty. split.
  - rewrite run_step_result. now apply selector_step_raises.
  - intro Hf. rewrite <- Hfc in Hf. unfold run_step. rewrite traced_io_run.
    now rewrite (selector_step_key_error drv page c run_dir ctx _ Hty Hsel Hf).
Qed.

Lemma compiled_selector_steps_cannot_run_witness :
  let raw_step := [("type", VStr "fill"); ("selector", VStr "#q"); ("value", VStr "x")] in
  let c := [("type", VStr "fill"); ("value", VStr "x")] in
  Compiler.compile_step (VDict raw_step) None = Ok [c]
  /\ run_step always_ok (Page 0) c "/run" None None []
     = ([Enter "run_step" [VDict c];
         Leave "run_step" (Raise (KeyError "selector"))],
        Raise (KeyError "selector")).
Proof.
  intros raw_step c. split; [reflexivity |].
  apply (compiled_selector_steps_cannot_run always_ok raw_step None [c] c (Page 0)
           "/run" None None []); try reflexivity.
  left. reflexivity.
Defined.


(** ** wait_visible *)

Lemma dispatch_wait_visible (drv : driver) (page : target) (step : dict)
      (run_dir : string) (ctx : option context) :
  get "type" step = VStr "wait_visible" ->
  dispatch_step drv page step run_dir ctx
  = after_branch drv page step ctx (step_wait_visible drv page step run_dir).
Proof. intro Hty. unfold dispatch_step. rewrite Hty. reflexivity. Qed.

(** Without a text, a role or a list of selectors the wait ends in an
    error, whether the element named by [selector] gets visible or not. *)
Lemma wait_visible_selector_alone (drv : driver) (page : target) (step : dict)
      (run_dir : string) (ctx : option context) (h : list event) :
  get "type" step = VStr "wait_visible" ->
  truthy (get "text" step) = false ->
  truthy (get "role" step) = false ->
  has_selectors step = false ->
  raises (snd (dispatch_step drv page step run_dir ctx h)).
Proof.
  intros Hty Htext Hrole Hsels. rewrite (dispatch_wait_visible _ _ _ _ _ Hty).
  revert h. change (ends_with raises
                      (after_branch drv page step ctx
                                    (step_wait_visible drv page step run_dir))).
  unfold after_branch.
  apply ends_bind with (Q := raises); [| intros a [e He]; discriminate | auto].
  unfold step_wait_visible. apply ends_bind_any; [intro tgt | auto].
  cbv zeta. rewrite Htext, Hrole.
  apply ends_bind_ret. cbv iota. apply ends_bind_ret. cbv iota.
  unfold has_selectors in Hsels.
  destruct (get "selectors" step) as [| | | | [| x l] |]; try discriminate;
    (apply ends_bind_ret; cbv iota;
     apply ends_bind_any; [intros [] | auto]; apply ends_raise; auto).
Qed.

(** X19.  A [wait_visible] step with no text, no role and no list of
    selectors never passes: it raises even when the element its [selector]
    names gets visible. *)
Theorem wait_visible_by_selector_never_passes (drv : driver) (page : target)
        (step : dict) (run_dir : string) (ctx : option context)
        (next_step : option dict) (h : list event) :
  get "type" step = VStr "wait_visible" ->
  truthy (get "text" step) = false ->
  truthy (get "role" step) = false ->
  has_selectors step = false ->
  raises (snd (run_step drv page step run_dir ctx next_step h)).
Proof.
  intros Hty Htext Hrole Hsels. rewrite run_step_result.
  now apply wait_visible_selector_alone.
Qed.

Lemma wait_visible_by_selector_never_passes_witness :
  let step := [("type", VStr "wait_visible"); ("selector", VStr "#modal")] in
  snd (run_step always_ok (Page 0) step "/run" None None [])
  = Raise (ValueError
             "wait_visible requires at least one of: selector, selectors, text, or role")
  /\ raises (snd (run_step always_ok (Page 0) step "/run" None None [])).
Proof.
  intro step. split; [reflexivity |].
  apply (wait_visible_by_selector_never_passes always_ok (Page 0) step "/run" None
                                               None []); reflexivity.
Defined.


(** The compiled form of a [wait_visible] step that has a selector, no
    text and one candidate. *)
Lemma compiled_wait_on_selector (raw_step : dict) (next : option value)
      (compiled : list dict) (c : dict) (selectors : list string) (text : value) :
  get "type" raw_step = VStr "wait_visible" ->
  Compiler.text_or_params_text raw_step = Ok text ->
  truthy text = false ->
  Compiler._generate_selector_candidates raw_step = Ok selectors ->
  (length selectors <= 1)%nat ->
  Compiler.compile_step (VDict raw_step) next = Ok compiled ->
  In c compiled ->
  c = dict_set "timeout" (get_default "timeout" (VInt 15000) raw_step)
               (dict_set "selector" (get "selector" raw_step)
                         (Compiler.copy_base raw_step)).
Proof.
  intros Hty Htext Hfalsy Hgen Hlen Hc Hin.
  unfold Compiler.compile_step in Hc. simpl as_dict in Hc. unfold rbind in Hc.
  cbv zeta in Hc. rewrite Hty in Hc. simpl in Hc.
  unfold Compiler.compile_wait_visible in Hc. rewrite Htext in Hc.
  unfold rbind in Hc. rewrite Hfalsy in Hc.
  destruct (truthy (get "selector" raw_step)); [| discriminate].
  rewrite Hgen in Hc.
  assert (Hone : (1 <? length selectors)%nat = false) by (apply Nat.ltb_ge; exact Hlen).
  rewrite Hone in Hc. inversion Hc; subst. destruct Hin as [<- | []]. reflexivity.
Qed.

(** X20.  A [wait_visible] step that names its element by a selector alone,
    from which the compiler derives no second candidate, cannot pass once
    it is compiled: the compiled step holds the selector and no list of
    selectors, and [run_step] raises on it whatever the page shows. *)
Theorem compiled_wait_on_selector_never_passes (drv : driver) (raw_step : dict)
        (next : option value) (compiled : list dict) (c : dict)
        (selectors : list string) (text : value) (page : target) (run_dir : string)
        (ctx : option context) (next_step : option dict) (h : list event) :
  get "type" raw_step = VStr "wait_visible" ->
  Compiler.text_or_params_text raw_step = Ok text ->
  truthy text = false ->
  Compiler._generate_selector_candidates raw_step = Ok selectors ->
  (length selectors <= 1)%nat ->
  Compiler.compile_step (VDict raw_step) next = Ok compiled ->
  In c compiled ->
  lookup "selector" c = Some (get "selector" raw_step)
  /\ lookup "selectors" c = None
  /\ raises (snd (run_step drv page c run_dir ctx next_step h)).
Proof.
  intros Hty Htext Hfalsy Hgen Hlen Hc Hin.
  rewrite (compiled_wait_on_selector raw_step next compiled c selectors text
                                     Hty Htext Hfalsy Hgen Hlen Hc Hin).
  assert (Hkey : forall key, key <> "timeout" -> key <> "selector" ->
                   lookup key (dict_set "timeout"
                                 (get_default "timeout" (VInt 15000) raw_step)
                                 (dict_set "selector" (get "selector" raw_step)
                                           (Compiler.copy_base raw_step)))
                   = CompiledShape.kept_field raw_step key).
  { intros key H1 H2.
    rewrite !CompilerFacts.lookup_dict_set_other by assumption.
    apply CompilerMore.lookup_copy_base_kept. }
  split; [| split].
  - rewrite CompilerFacts.lookup_dict_set_other by discriminate.
    apply CompilerFacts.lookup_dict_set_same.
  - now rewrite Hkey by discriminate.
  - rewrite run_step_result. apply wait_visible_selector_alone.
    + unfold get, get_default. rewrite Hkey by discriminate.
      unfold get, get_default in Hty. exact Hty.
    + unfold get, get_default. now rewrite Hkey by discriminate.
    + unfold get, get_default. now rewrite Hkey by discriminate.
    + unfold has_selectors, get, get_default. now rewrite Hkey by discriminate.
Qed.

Lemma compiled_wait_on_selector_never_passes_witness :
  let raw_step := [("type", VStr "wait_visible"); ("selector", VStr "#modal")] in
  let c := [("type", VStr "wait_visible"); ("selector", VStr "#modal");
            ("timeout", VInt 15000)] in
  Compiler.compile_step (VDict raw_step) None = Ok [c]
  /\ lookup "selector" c = Some (VStr "#modal")
  /\ lookup "selectors" c = None
  /\ raises (snd (run_step always_ok (Page 0) c "/run" None None [])).
Proof.
  intros raw_step c. split; [reflexivity |].
  apply (compiled_wait_on_selector_never_passes always_ok raw_step None [c] c ["#modal"]
           VNone (Page 0) "/run" None None []); try reflexivity.
  left. reflexivity.
Defined.


(** ** click *)

(** Once a candidate has failed, the loop ends with an error in hand. *)
Lemma click_loop_keeps_error (drv : driver) (page tgt : target) (step : dict) :
  forall selectors e h,
    exists e', snd (click_loop drv page tgt step selectors (Some e) h) = Ok (Some e').
Proof.
  induction selectors as [| sel rest IH]; intros e h; simpl.
  - eauto.
  - rewrite bind_io.
    match goal with |- context [try_ ?m h] => destruct (total_try_io m h) as [ev [r ->]] end.
    destruct r as [a | e1].
    + simpl. eauto.
    + cbv beta iota delta [fst snd].
      destruct (IH e1 (app h (map Io ev))) as [e' He'].
      destruct (click_loop drv page tgt step rest (Some e1) (app h (map Io ev))).
      simpl in *. eauto.
Qed.

Lemma selectors_or_named (step : dict) :
  names_a_selector step = true ->
  selectors_or step
    (if truthy (get "selector" step) then Ok (get "selector" step)
     else Raise (ValueError "click step requires 'selector' or 'selectors' field"))
  = Ok (step_selectors step).
Proof.
  unfold names_a_selector, selectors_or, step_selectors.
  destruct (get "selectors" step) as [| | | | [| x l] |]; try reflexivity;
    intros ->; reflexivity.
Qed.

Lemma click_attempt (drv : driver) (page tgt : target) (step : dict) (sel : value)
      (h : list event) :
  exists ev r,
    try_ (call drv tgt "locator.scroll_into_view_if_needed" [sel] ;;
          call drv tgt "locator.evaluate" [sel; js_dispatch_click] ;;
          if truthy (get_default "success_conditions" (VList []) step)
          then swallow (wait_for_timeout drv page 500)
          else ret tt) h = (ev, Ok r)
    /\ is_ok r = first_click_passes drv h tgt sel.
Proof.
  unfold first_click_passes, scroll_to, dispatch_click_on, try_.
  rewrite bind_io. unfold call at 1. cbv beta iota zeta. simpl map.
  destruct (reply drv (app h [Io (Call tgt "locator.scroll_into_view_if_needed" [sel])]))
    as [v1 | e1]; [| simpl; eauto].
  rewrite bind_io. unfold call at 1. cbv beta iota zeta. simpl map.
  rewrite <- app_assoc. simpl app.
  destruct (reply drv _) as [v2 | e2]; [| simpl; eauto].
  match goal with
  | |- context [(if ?b then swallow ?m else ret tt) ?h'] =>
      destruct (total_if b (swallow m) (ret tt)
                         (total_swallow m) (total_ret tt) h') as [ev [[] ->]]
  end.
  simpl. eauto.
Qed.

Lemma step_click_first (drv : driver) (page : target) (step : dict)
      (sel : value) (rest : list value) (h : list event) :
  truthy (get "frame" step) = false ->
  names_a_selector step = true ->
  clickable_selectors (step_selectors step) = Ok (sel :: rest) ->
  if first_click_passes drv h page sel
  then snd (step_click drv page step h) = Ok tt
  else exists e,
      snd (step_click drv page step h)
      = Raise (RuntimeError ("Click failed for all selectors: "
                             ++ py_str (VList (sel :: rest))
                             ++ ". Last error: " ++ exn_str e)).
Proof.
  intros Hf Hnamed Hclickable. unfold step_click. cbv zeta.
  rewrite (bind_silent _ _ h page (target_no_frame drv page step false h Hf)).
  rewrite (selectors_or_named step Hnamed).
  rewrite (bind_silent _ _ h (step_selectors step) eq_refl).
  rewrite Hclickable.
  rewrite (bind_silent _ _ h (sel :: rest) eq_refl).
  rewrite bind_io. simpl click_loop. rewrite bind_io.
  destruct (click_attempt drv page page step sel h) as [ev [r [-> Hr]]].
  rewrite <- Hr. destruct r as [[] | e1]; simpl is_ok; cbv beta iota.
  - reflexivity.
  - destruct (click_loop_keeps_error drv page page step rest e1 (app h (map Io ev)))
      as [e' He'].
    destruct (click_loop drv page page step rest (Some e1) (app h (map Io ev)))
      as [ev' r].
    simpl in He'. subst r. exists e'. reflexivity.
Qed.

(** X21.  A click step passes only when the scroll and the click on its
    first candidate both return.  When the first candidate fails, the step
    raises [RuntimeError] at the end, whatever the later candidates do: the
    error of a candidate that failed is kept when a later one is clicked. *)
Theorem click_passes_on_first_candidate_only (drv : driver) (page : target)
        (step : dict) (run_dir : string) (ctx : option context)
        (next_step : option dict) (sel : value) (rest : list value) (h : list event) :
  get "type" step = VStr "click" ->
  truthy (get "frame" step) = false ->
  names_a_selector step = true ->
  clickable_selectors (step_selectors step) = Ok (sel :: rest) ->
  let run := run_step drv page step run_dir ctx next_step h in
  if first_click_passes drv (app h [Enter "run_step" [VDict step]]) page sel
  then snd run = Ok (page, ctx)
  else click_failed (sel :: rest) (snd run).
Proof.
  intros Hty Hf Hnamed Hclickable run. subst run.
  rewrite run_step_result, (dispatch_click _ _ _ _ _ Hty), after_result.
  pose proof (step_click_first drv page step sel rest
                (app h [Enter "run_step" [VDict step]]) Hf Hnamed Hclickable) as H.
  destruct (first_click_passes drv _ page sel).
  - now rewrite H.
  - destruct H as [e ->]. exists e. reflexivity.
Qed.


Lemma click_passes_on_first_candidate_only_witness :
  let run := run_step (missing "#a") (Page 0) click_a_or_b "/run" None None [] in
  clicked (fst run) = [VStr "#b"]
  /\ click_failed [VStr "#a"; VStr "#b"] (snd run).
Proof.
  intro run. split; [reflexivity |].
  exact (click_passes_on_first_candidate_only (missing "#a") (Page 0) click_a_or_b "/run"
           None None (VStr "#a") [VStr "#b"] [] eq_refl eq_refl eq_refl eq_refl).
Defined.

(** ** The frame of a step *)

Lemma total_poll (drv : driver) (find : IO (option target)) (page : target)
      (start_time timeout : Z) (fuel : nat) :
  total (poll drv find page start_time timeout fuel).
Proof.
  induction fuel as [| fuel IH]; simpl; [auto with total |].
  unfold within.
  apply total_bind_io; [auto with total | intros [|]; [| auto with total]].
  apply total_bind_io; [auto with total | intros [[f |] | e]]; auto with total.
  - apply total_bind_io; [auto with total | intros [? | ?]]; auto with total.
  - apply total_bind_io; [auto with total | intros [? | ?]]; auto with total.
Qed.

Lemma total_resolve_by (drv : driver) (find : IO (option target)) (page : target)
      (w : bool) (timeout : Z) :
  total (resolve_by drv find page w timeout).
Proof.
  unfold resolve_by, poll_for.
  apply total_bind_io.
  - destruct w; [| auto with total].
    apply total_bind_io; [auto with total | intro; apply total_poll].
  - intros [f |]; auto with total.
Qed.

Lemma total_target_dict (drv : driver) (page : target) (step : dict) (meta : dict)
      (wait_for_frame : bool) :
  get "frame" step = VDict meta -> total (_target drv page step wait_for_frame).
Proof.
  intro Hmeta. unfold _target, _resolve_frame. rewrite Hmeta.
  apply total_bind_io; [| auto with total].
  destruct (negb (truthy (VDict meta))); [auto with total |].
  simpl method_get_default. simpl method_get.
  apply total_bind_io; [intro; unfold lift; eauto |].
  intro is_top. destruct (truthy is_top); [auto with total |].
  apply total_bind_io; [intro; unfold lift; eauto | intro].
  apply total_bind_io; [intro; unfold lift; eauto | intro].
  apply total_bind_io.
  - destruct (negb _); [apply total_resolve_by | auto with total].
  - intros [f |]; [auto with total |].
    destruct (negb _); [apply total_resolve_by | auto with total].
Qed.

(** X24.  A frame that cannot be found does not fail a step: when the
    [frame] of the step is a dictionary, looking for the frame always
    returns, with the frame or else the page; and for the top frame the
    page is taken without asking the browser. *)
Theorem step_frame_falls_back_to_page (drv : driver) (page : target) (step : dict)
        (meta : dict) (wait_for_frame : bool) (h : list event) :
  get "frame" step = VDict meta ->
  (exists ev tgt, _target drv page step wait_for_frame h = (ev, Ok tgt))
  /\ (truthy (get_default "isTop" (VBool true) meta) = true ->
      _target drv page step wait_for_frame h = ([], Ok page)).
Proof.
  intro Hmeta. split.
  - exact (total_target_dict drv page step meta wait_for_frame Hmeta h).
  - intro Htop. unfold _target, _resolve_frame. rewrite Hmeta.
    destruct meta as [| kv meta']; [reflexivity |].
    change (truthy (VDict (kv :: meta'))) with true.
    unfold method_get_default. cbv beta iota delta [negb bind lift].
    rewrite Htop. reflexivity.
Qed.

Lemma step_frame_falls_back_to_page_witness :
  let meta := [("isTop", VBool false); ("name", VStr "pay")] in
  let step := [("type", VStr "click"); ("selector", VStr "#a"); ("frame", VDict meta)] in
  (exists ev tgt, _target always_ok (Page 0) step false [] = (ev, Ok tgt))
  /\ (truthy (get_default "isTop" (VBool true) meta) = true ->
      _target always_ok (Page 0) step false [] = ([], Ok (Page 0))).
Proof.
  intros meta step.
  apply (step_frame_falls_back_to_page always_ok (Page 0) step meta false []).
  reflexivity.
Defined.

(** ** expect_text *)

Lemma total_target (drv : driver) (page : target) (step : dict) (w : bool) :
  truthy (get "frame" step) = false \/ (exists meta, get "frame" step = VDict meta) ->
  total (_target drv page step w).
Proof.
  intros [Hf | [meta Hmeta]] h.
  - rewrite target_no_frame by exact Hf. eauto.
  - exact (total_target_dict drv page step meta w Hmeta h).
Qed.

Lemma dispatch_expect_text (drv : driver) (page : target) (step : dict)
      (run_dir : string) (ctx : option context) :
  get "type" step = VStr "expect_text" ->
  dispatch_step drv page step run_dir ctx
  = after_branch drv page step ctx (step_expect_text drv page step run_dir).
Proof. intro Hty. unfold dispatch_step. rewrite Hty. reflexivity. Qed.

Lemma total_expect_text_loop (drv : driver) (tgt : target) (expected_text : string) :
  forall selectors last_error,
    total (expect_text_loop drv tgt expected_text selectors last_error).
Proof.
  induction selectors as [| sel rest IH]; intro last_error; simpl; [auto with total |].
  apply total_bind_io; [auto with total |].
  intros [actual_text | e]; [| apply IH].
  destruct (negb _ && negb _); [apply IH | auto with total].
Qed.

Lemma expect_text_single_asserts (drv : driver) (tgt : target) (sel : value)
      (expected_text : string) :
  ends_with fails_by_assertion (expect_text_single drv tgt sel expected_text).
Proof.
  unfold expect_text_single.
  apply ends_catch with (Q := anything); [apply ends_anything | intros [] _; exact I |].
  intros e _. destruct e; apply ends_raise; exact I.
Qed.

Lemma step_expect_text_asserts (drv : driver) (page : target) (step : dict)
      (run_dir : string) :
  truthy (get "frame" step) = false \/ (exists meta, get "frame" step = VDict meta) ->
  ends_with fails_by_assertion (step_expect_text drv page step run_dir).
Proof.
  intro Hframe. unfold step_expect_text.
  apply ends_bind with (Q := returns);
    [apply total_returns; now apply total_target | intros tgt _ | intros e []].
  cbv zeta.
  apply ends_then; [auto with total |].
  apply ends_then; [auto with total |].
  destruct (String.eqb _ ""); [apply ends_raise; exact I |].
  destruct (negb (truthy (get "selector" step)) && negb (truthy (get "selectors" step))).
  - apply ends_catch with (Q := anything); [apply ends_anything | intros a _; exact I |].
    intros e _. apply ends_then; [auto with total |]. apply ends_raise. exact I.
  - apply ends_bind with (Q := fails_by_assertion).
    + destruct (get "selectors" step) as [| | | | [| x l] |];
        try (apply ends_ret; exact I).
      apply ends_bind with (Q := returns);
        [apply total_returns; apply total_expect_text_loop | | intros e []].
      intros [[|] [e |]] _; first [apply ends_ret; exact I | apply ends_raise; exact I].
    + intros [|] _; [apply ends_ret; exact I |].
      destruct (negb (truthy (get "selector" step))).
      * apply ends_catch with (Q := anything);
          [apply ends_anything | intros a _; exact I |].
        intros e _. apply ends_raise. exact I.
      * apply ends_bind with (Q := fails_by_assertion);
          [apply expect_text_single_asserts | intros [] _; apply ends_ret; exact I |].
        intros e He. exact He.
    + intros e He. exact He.
Qed.

Lemma step_expect_text_needs_text (drv : driver) (page : target) (step : dict)
      (run_dir : string) :
  truthy (get "frame" step) = false \/ (exists meta, get "frame" step = VDict meta) ->
  strip (py_str (get_default "text" (VStr "") step)) = "" ->
  ends_with (fun r => r = Raise (ValueError "expect_text requires 'text' field"))
            (step_expect_text drv page step run_dir).
Proof.
  intros Hframe Htext. unfold step_expect_text.
  apply ends_bind with (Q := returns);
    [apply total_returns; now apply total_target | intros tgt _ | intros e []].
  cbv zeta. rewrite Htext.
  apply ends_then; [auto with total |].
  apply ends_then; [auto with total |].
  apply ends_raise. reflexivity.
Qed.

(** X25.  An [expect_text] step fails by assertion: when its frame is a
    dictionary or is not given, the step either passes, on the page it was
    given, or raises [AssertionError] or [ValueError]; no error of the
    browser comes out of it as it is.  Without a text it raises
    [ValueError]. *)
Theorem expect_text_fails_by_assertion (drv : driver) (page : target) (step : dict)
        (run_dir : string) (ctx : option context) (next_step : option dict)
        (h : list event) :
  get "type" step = VStr "expect_text" ->
  truthy (get "frame" step) = false \/ (exists meta, get "frame" step = VDict meta) ->
  let r := snd (run_step drv page step run_dir ctx next_step h) in
  fails_by_assertion r
  /\ (forall p, r = Ok p -> p = (page, ctx))
  /\ (strip (py_str (get_default "text" (VStr "") step)) = "" ->
      r = Raise (ValueError "expect_text requires 'text' field")).
Proof.
  intros Hty Hframe r. subst r.
  rewrite run_step_result, (dispatch_expect_text _ _ _ _ _ Hty).
  set (h' := app h [Enter "run_step" [VDict step]]).
  pose proof (step_expect_text_asserts drv page step run_dir Hframe h') as Ha.
  unfold after_branch. rewrite bind_io.
  split; [| split].
  - destruct (step_expect_text drv page step run_dir h') as [ev [[|] | e]];
      simpl in *; auto.
    rewrite bind_io.
    destruct (total_post_step_delay drv page step (app h' (map Io ev))) as [ev' [a ->]].
    exact I.
  - intro p.
    destruct (step_expect_text drv page step run_dir h') as [ev [[|] | e]];
      simpl in *; try congruence.
    rewrite bind_io.
    destruct (total_post_step_delay drv page step (app h' (map Io ev))) as [ev' [a ->]].
    simpl. congruence.
  - intro Htext. clear Ha.
    pose proof (step_expect_text_needs_text drv page step run_dir Hframe Htext h') as Hn.
    destruct (step_expect_text drv page step run_dir h') as [ev r'].
    simpl in Hn. subst r'. reflexivity.
Qed.


Lemma expect_text_fails_by_assertion_witness :
  let step := [("type", VStr "expect_text"); ("selector", VStr "#a"); ("text", VStr "Hi")] in
  let r := snd (run_step (missing "#a") (Page 0) step "/run" None None []) in
  fails_by_assertion r
  /\ (forall p, r = Ok p -> p = (Page 0, None))
  /\ (strip (py_str (get_default "text" (VStr "") step)) = "" ->
      r = Raise (ValueError "expect_text requires 'text' field")).
Proof.
  intros step.
  apply (expect_text_fails_by_assertion (missing "#a") (Page 0) step "/run" None None []).
  - reflexivity.
  - left. reflexivity.
Defined.

(** ** Steps without a URL *)

Lemma url_step_key_error (drv : driver) (page : target) (step : dict)
      (run_dir : string) (ctx : option context) (h : list event) :
  existsb (eq_str (get "type" step)) ["go"; "expect_url"; "popup_go"] = true ->
  lookup "url" step = None ->
  dispatch_step drv page step run_dir ctx h = ([], Raise (KeyError "url")).
Proof.
  intros Hty Hurl. unfold dispatch_step.
  destruct (get "type" step) as [| | | t | |]; simpl in Hty; try discriminate.
  unfold eq_str in Hty.
  repeat (apply orb_true_iff in Hty; destruct Hty as [Hty | Hty]);
    try discriminate; apply String.eqb_eq in Hty; subst t; simpl.
  - unfold after, step_go, bind, subscript. rewrite Hurl. reflexivity.
  - unfold after, step_expect_url, bind, subscript. rewrite Hurl. reflexivity.
  - unfold after_switch, step_popup_go. destruct (with_stack ctx page) as [c stack].
    unfold bind, subscript. rewrite Hurl. reflexivity.
Qed.

(** X26.  A step without a [url]: [go], [expect_url] and [popup_go] raise
    [KeyError('url')] before the browser is asked anything, while
    [wait_url], when it has no [url_pattern] either, passes without looking
    at the location of the page: it only waits for the delay of the step. *)
Theorem steps_without_url (drv : driver) (page : target) (step : dict)
        (run_dir : string) (ctx : option context) (next_step : option dict)
        (h : list event) :
  lookup "url" step = None ->
  let run := run_step drv page step run_dir ctx next_step h in
  (existsb (eq_str (get "type" step)) ["go"; "expect_url"; "popup_go"] = true ->
   run = ([Enter "run_step" [VDict step]; Leave "run_step" (Raise (KeyError "url"))],
          Raise (KeyError "url")))
  /\ (get "type" step = VStr "wait_url" ->
      truthy (get_default "url_pattern" (VStr "") step) = false ->
      run = (Enter "run_step" [VDict step]
               :: app (map Io (if 0 <? _get_delay_ms step
                               then [Call page "wait_for_timeout"
                                          [VInt (_get_delay_ms step)]]
                               else []))
                      [Leave "run_step" (Ok (enc_target page))],
             Ok (page, ctx))).
Proof.
  intros Hurl run. subst run. split.
  - intro Hty. unfold run_step. rewrite traced_io_run.
    now rewrite (url_step_key_error drv page step run_dir ctx _ Hty Hurl).
  - intros Hty Hpattern. unfold run_step. rewrite traced_io_run.
    rewrite (dispatch_wait_url _ _ _ _ _ Hty).
    set (h' := app h [Enter "run_step" [VDict step]]).
    assert (Hw : step_wait_url drv page step h' = ([], Ok tt)).
    { assert (Hu : get "url" step = VNone)
        by (unfold get, get_default; now rewrite Hurl).
      unfold step_wait_url. cbv zeta. rewrite Hu.
      change (truthy VNone) with false. cbv iota. rewrite Hpattern. reflexivity. }
    unfold after. rewrite (bind_silent _ _ h' tt Hw).
    rewrite bind_io.
    assert (Hd : post_step_delay drv page step h'
                 = (if 0 <? _get_delay_ms step
                    then [Call page "wait_for_timeout" [VInt (_get_delay_ms step)]]
                    else [], Ok tt)).
    { unfold post_step_delay. cbv zeta. destruct (0 <? _get_delay_ms step); [| reflexivity].
      unfold swallow, catch, bind, wait_for_timeout, call, ret. simpl.
      now destruct (reply drv _). }
    rewrite Hd. simpl. rewrite app_nil_r. reflexivity.
Qed.

Lemma steps_without_url_witness :
  let step := [("type", VStr "wait_url")] in
  run_step never_visible (Page 0) step "/run" None None []
  = ([Enter "run_step" [VDict step]; Leave "run_step" (Ok (enc_target (Page 0)))],
     Ok (Page 0, None)).
Proof.
  intro step.
  apply (steps_without_url never_visible (Page 0) step "/run" None None []);
    reflexivity.
Defined.

(** ** ensure_logged_in, ensure_logged_out *)

Lemma selectors_or_login (step : dict) :
  has_selectors step = false ->
  selectors_or step
    (Ok (if truthy (get "selector" step) then get "selector" step else VStr "#btnUser"))
  = Ok [login_selector step].
Proof.
  unfold has_selectors, selectors_or, login_selector.
  destruct (get "selectors" step) as [| | | | [| x l] |]; try reflexivity.
  discriminate.
Qed.

Lemma step_ensure_single (drv : driver) (logged_in : bool) (page : target)
      (step : dict) (h : list event) :
  truthy (get "frame" step) = false ->
  has_selectors step = false ->
  snd (step_ensure drv logged_in page step h)
  = match snd (attached_text drv page (login_selector step) h) with
    | Ok txt =>
        if negb (String.eqb (logged_out_text_of step) "")
           && (if logged_in then str_in (logged_out_text_of step) txt
               else negb (str_in (logged_out_text_of step) txt))
        then Raise (AssertionError
                      ((if logged_in then "로그인 상태가 아닙니다"
                        else "로그아웃 상태가 아닙니다")
                       ++ ": selector=" ++ py_str (login_selector step)
                       ++ ", text=" ++ repr_str txt))
        else Ok tt
    | Raise e => Raise e
    end.
Proof.
  intros Hf Hsels. unfold step_ensure. cbv zeta.
  rewrite (bind_silent _ _ h page (target_no_frame drv page step true h Hf)).
  rewrite (selectors_or_login step Hsels).
  rewrite (bind_silent _ _ h [login_selector step] eq_refl).
  rewrite bind_io. simpl login_loop. rewrite bind_io.
  unfold try_ at 1. rewrite bind_io.
  destruct (attached_text drv page (login_selector step) h) as [ev [txt | e]];
    cbv beta iota delta [fst snd]; [| reflexivity].
  destruct (negb (String.eqb (logged_out_text_of step) "")
            && (if logged_in then str_in (logged_out_text_of step) txt
                else negb (str_in (logged_out_text_of step) txt))); reflexivity.
Qed.

(** X29.  [ensure_logged_in] and [ensure_logged_out] are complementary.  On
    a step with one selector and a text for the logged-out state, when the
    text of the element can be read exactly one of the two passes, and the
    other raises [AssertionError]; when it cannot be read both raise what
    the browser raised. *)
Theorem login_checks_are_complementary (drv : driver) (page : target) (step : dict)
        (h : list event) :
  truthy (get "frame" step) = false ->
  has_selectors step = false ->
  logged_out_text_of step <> "" ->
  let logged_in := snd (step_ensure drv true page step h) in
  let logged_out := snd (step_ensure drv false page step h) in
  match snd (attached_text drv page (login_selector step) h) with
  | Ok txt =>
      (logged_in = Ok tt /\ exists msg, logged_out = Raise (AssertionError msg))
      \/ (logged_out = Ok tt /\ exists msg, logged_in = Raise (AssertionError msg))
  | Raise e => logged_in = Raise e /\ logged_out = Raise e
  end.
Proof.
  intros Hf Hsels Htext logged_in logged_out. subst logged_in logged_out.
  rewrite !step_ensure_single by assumption.
  destruct (snd (attached_text drv page (login_selector step) h)) as [txt | e];
    [| split; reflexivity].
  destruct (String.eqb (logged_out_text_of step) "") eqn:E.
  { apply String.eqb_eq in E. contradiction. }
  simpl negb. cbv iota.
  destruct (str_in (logged_out_text_of step) txt); simpl; eauto.
Qed.

Lemma login_checks_are_complementary_witness :
  let step := [("type", VStr "ensure_logged_in"); ("selector", VStr "#user")] in
  snd (step_ensure never_visible true (Page 0) step []) = Ok tt
  /\ exists msg,
      snd (step_ensure never_visible false (Page 0) step []) = Raise (AssertionError msg).
Proof.
  intro step.
  assert (Htext : logged_out_text_of step <> "") by discriminate.
  destruct (login_checks_are_complementary never_visible (Page 0) step []
              eq_refl eq_refl Htext) as [H | [H _]].
  - exact H.
  - discriminate H.
Defined.

End StepMore.
(** * Further facts about the run loop *)

Module LoopMore.
Import Runner Trace Steps LoopShape Outcome.
Import RunFacts OutcomeFacts LoopFacts Examples.
Local Open Scope run_scope.

Lemma run_on_app (a b : list event) : run_on (app a b) = app (run_on a) (run_on b).
Proof. unfold run_on. apply flat_map_app. Qed.




(** ** The step log, as far as the run has got *)








(** ** The failure artifacts *)

(** X23.  Collecting the failure artifacts does not raise, whatever the
    browser and the file system do.  The record it returns names the step
    and the error, and for each thing it tries to capture (screenshot, HTML
    dump, frames, pages, metadata file) holds either the capture or the
    message of the error that prevented it. *)
Theorem failure_artifacts_are_accounted (drv : driver) (page : target)
        (run_dir : string) (step_index : Z) (step_type : string) (error : exn)
        (h : list event) :
  exists artifacts,
    snd (collect_failure_artifacts drv page run_dir step_index step_type error h)
    = Ok artifacts
    /\ lookup "step_index" artifacts = Some (VInt step_index)
    /\ lookup "step_type" artifacts = Some (VStr step_type)
    /\ lookup "error" artifacts = Some (VStr (exn_str error))
    /\ accounted artifacts = true.
Proof.
  unfold collect_failure_artifacts. rewrite traced_io_run. simpl snd.
  set (P := fun r : result dict =>
              exists artifacts,
                r = Ok artifacts
                /\ lookup "step_index" artifacts = Some (VInt step_index)
                /\ lookup "step_type" artifacts = Some (VStr step_type)
                /\ lookup "error" artifacts = Some (VStr (exn_str error))
                /\ accounted artifacts = true).
  match goal with
  | |- context [snd (?m ?l)] => enough (Hends : ends_with P m) by exact (Hends l)
  end.
  cbv zeta.
  apply ends_let_try. intro r1.
  apply ends_let_try. intro r2.
  apply ends_let_try. intro r3.
  apply ends_let_try. intro r4.
  apply ends_let_try. intro r5.
  assert (Hdone : forall artifacts,
             lookup "step_index" artifacts = Some (VInt step_index)
             /\ lookup "step_type" artifacts = Some (VStr step_type)
             /\ lookup "error" artifacts = Some (VStr (exn_str error))
             /\ accounted artifacts = true ->
             P (Ok artifacts)).
  { intros artifacts H. exists artifacts. split; [reflexivity | exact H]. }
  destruct r5 as [current_url | e5].
  - apply ends_try_ret_then. intro t. apply ends_let_try. intro r6. apply ends_ret.
    apply Hdone.
    destruct r1, r2 as [html_content | ?], r3, r4, t, r6;
      try destruct (py_len html_content);
      repeat split; reflexivity.
  - apply ends_bind_ret. apply ends_let_try. intro r6. apply ends_ret.
    apply Hdone.
    destruct r1, r2 as [html_content | ?], r3, r4, r6;
      try destruct (py_len html_content);
      repeat split; reflexivity.
Qed.



End LoopMore.
(** * Further facts about loading a scenario *)

Module LoaderMore.
Import Loader.




End LoaderMore.
